(** * A shallow embedding of the PBFT replica of pBFT_no_fork

    The replica lives in [core/node.py] (class [PBFTNode]) and its state in
    [core/state.py] ([PBFTEntry], [PBFTState]).  Python ints are [Z],
    Python strings are [string], the [set]s and [dict]s of the state are
    stdpp's [gset] and [gmap].  Every handler runs in a small state monad that
    also records the outbound RPCs it issues; the answers of remote replicas
    (pings, status queries, forwarded requests) and the draws of the [random]
    module are oracle arguments.  Console output is not modelled. *)

From Stdlib Require Import ZArith Lia Ascii.
From stdpp Require Import base gmap strings list pretty sorting list_numbers.

Local Open Scope Z_scope.
Bind Scope string_scope with string.

(** ** Wire messages ([rpc/pbft.proto], as used by node.py) *)

Record ClientRequest := mkClientRequest {
  client_id : string;
  request_id : string;
  timestamp_ms : Z;
  payload : string;
  forwarded : bool
}.

Record ClientReply := mkClientReply {
  rep_client_id : string;
  rep_request_id : string;
  rep_replica_id : Z;
  rep_view : Z;
  rep_seq : Z;
  rep_committed : bool;
  rep_result : string;
  rep_error : string
}.

Record PrePrepareRequest := mkPrePrepare {
  pp_view : Z;
  pp_seq : Z;
  pp_digest : string;
  pp_primary_id : Z;
  pp_request : ClientRequest
}.

Record PrepareRequest := mkPrepare {
  p_view : Z;
  p_seq : Z;
  p_digest : string;
  p_replica_id : Z
}.

Record CommitRequest := mkCommit {
  c_view : Z;
  c_seq : Z;
  c_digest : string;
  c_replica_id : Z
}.

Record SetViewRequest := mkSetView {
  sv_view : Z;
  sv_sender_id : Z;
  sv_reason : string
}.

Record Ack := mkAck { ok : bool; ack_error : string }.

(** Outbound RPCs issued by a handler, in issue order.  [rpc_clients] is
    built in run_node.py from the same mapping as [peers], so a peer id has
    a transport handle exactly when it is in [peers]. *)
Inductive Out :=
| SendPrePrepare (peer : Z) (m : PrePrepareRequest)
| SendPrepare (peer : Z) (m : PrepareRequest)
| SendCommit (peer : Z) (m : CommitRequest)
| SendSetView (peer : Z) (m : SetViewRequest)
| SendPing (peer : Z)
| SendGetStatus (peer : Z)
| ForwardRequest (peer : Z) (m : ClientRequest).

(** ** Replica state ([core/state.py]) *)

Record PBFTEntry := mkEntry {
  e_view : Z;
  e_seq : Z;
  e_digest : string;
  e_client_id : string;
  e_request_id : string;
  e_payload : string;
  prepares : gset Z;
  commits : gset Z;
  prepared : bool;
  committed : bool;
  executed : bool;
  result : option string;
  error : option string
}.

(** [PBFTEntry(view, seq, digest, client_id, request_id, payload)] with the
    dataclass defaults. *)
Definition new_entry (v s : Z) (d cid rid pl : string) : PBFTEntry :=
  mkEntry v s d cid rid pl ∅ ∅ false false false None None.

Record PBFTState := mkState {
  node_id : Z;
  peers : list Z;
  alive : bool;
  byzantine : bool;
  view : Z;
  next_seq : Z;
  log : gmap (Z * Z) PBFTEntry;
  pending_prepares : gmap (Z * Z * string) (gset Z);
  pending_commits : gmap (Z * Z * string) (gset Z);
  conflicting_prepares : gmap (Z * Z) (gset Z);
  lock_held : bool
}.

(** [lock_held] is not a field of [PBFTState] but the state of
    [PBFTNode._lock] (node.py:17), a non-reentrant [threading.Lock], kept
    with the state it guards.  Calls run one after another in the model, so
    between two calls the lock is held only by a call that never returned. *)

(** [PBFTState.__init__], with the lock free ([Lock()]). *)
Definition init_state (nid : Z) (ps : list Z) (byz : bool) : PBFTState :=
  mkState nid ps true byz 0 1 ∅ ∅ ∅ ∅ false.

(** Field assignments [state.x = v]. *)
Definition set_view_field (st : PBFTState) (v : Z) : PBFTState :=
  mkState (node_id st) (peers st) (alive st) (byzantine st) v (next_seq st)
    (log st) (pending_prepares st) (pending_commits st) (conflicting_prepares st)
    (lock_held st).
Definition set_next_seq (st : PBFTState) (s : Z) : PBFTState :=
  mkState (node_id st) (peers st) (alive st) (byzantine st) (view st) s
    (log st) (pending_prepares st) (pending_commits st) (conflicting_prepares st)
    (lock_held st).
Definition set_alive (st : PBFTState) (a : bool) : PBFTState :=
  mkState (node_id st) (peers st) a (byzantine st) (view st) (next_seq st)
    (log st) (pending_prepares st) (pending_commits st) (conflicting_prepares st)
    (lock_held st).
Definition set_log (st : PBFTState) (l : gmap (Z * Z) PBFTEntry) : PBFTState :=
  mkState (node_id st) (peers st) (alive st) (byzantine st) (view st) (next_seq st)
    l (pending_prepares st) (pending_commits st) (conflicting_prepares st)
    (lock_held st).
Definition set_pending_prepares (st : PBFTState) (m : gmap (Z * Z * string) (gset Z)) :=
  mkState (node_id st) (peers st) (alive st) (byzantine st) (view st) (next_seq st)
    (log st) m (pending_commits st) (conflicting_prepares st) (lock_held st).
Definition set_pending_commits (st : PBFTState) (m : gmap (Z * Z * string) (gset Z)) :=
  mkState (node_id st) (peers st) (alive st) (byzantine st) (view st) (next_seq st)
    (log st) (pending_prepares st) m (conflicting_prepares st) (lock_held st).
Definition set_conflicting_prepares (st : PBFTState) (m : gmap (Z * Z) (gset Z)) :=
  mkState (node_id st) (peers st) (alive st) (byzantine st) (view st) (next_seq st)
    (log st) (pending_prepares st) (pending_commits st) m (lock_held st).

(** Taking ([acquire]) and giving back ([release]) [self._lock]. *)
Definition set_lock_held (st : PBFTState) (b : bool) : PBFTState :=
  mkState (node_id st) (peers st) (alive st) (byzantine st) (view st) (next_seq st)
    (log st) (pending_prepares st) (pending_commits st) (conflicting_prepares st) b.

(** Entry mutations. *)
Definition entry_with_sets (e : PBFTEntry) (ps cs : gset Z) : PBFTEntry :=
  mkEntry (e_view e) (e_seq e) (e_digest e) (e_client_id e) (e_request_id e)
    (e_payload e) ps cs (prepared e) (committed e) (executed e) (result e) (error e).
Definition entry_with_flags (e : PBFTEntry) (pd cd : bool) : PBFTEntry :=
  mkEntry (e_view e) (e_seq e) (e_digest e) (e_client_id e) (e_request_id e)
    (e_payload e) (prepares e) (commits e) pd cd (executed e) (result e) (error e).

(** Derived properties of [PBFTState]. *)
Definition replica_ids (st : PBFTState) : list Z :=
  merge_sort Z.le (node_id st :: peers st).

Definition n (st : PBFTState) : Z := Z.of_nat (length (replica_ids st)).

(** [max(0, (n - 1) // 3)]; Python's [//] is floor division like [Z.div]. *)
Definition f (st : PBFTState) : Z := Z.max 0 ((n st - 1) / 3).

Definition primary_id (st : PBFTState) : Z :=
  let ids := replica_ids st in
  match ids with
  | [] => node_id st
  | _ => default (node_id st) (ids !! Z.to_nat (view st mod Z.of_nat (length ids)))
  end.

Definition quorum_prepare (st : PBFTState) : Z := 2 * f st.
Definition quorum_commit (st : PBFTState) : Z := 2 * f st + 1.

(** ** The handler monad: state passing plus the list of outbound RPCs

    The result is [None] when the call never returns: it blocks forever,
    and the state and the RPCs it issued so far are what it leaves. *)

Definition M (A : Type) : Type := PBFTState -> option A * PBFTState * list Out.

Global Instance M_ret : MRet M := λ A x st, (Some x, st, []).
Global Instance M_bind : MBind M := λ A B k m st,
  let '(r, st1, o1) := m st in
  match r with
  | Some a => let '(b, st2, o2) := k a st1 in (b, st2, o1 ++ o2)
  | None => (None, st1, o1)
  end.

Definition get : M PBFTState := λ st, (Some st, st, []).
Definition put (st' : PBFTState) : M unit := λ _, (Some tt, st', []).
Definition emit (o : Out) : M unit := λ st, (Some tt, st, [o]).

(** A call that blocks forever. *)
Definition stuck {A} : M A := λ st, (None, st, []).

(** Entering and leaving [with self._lock:].  [Lock.acquire] blocks until
    the lock is free; a lock held between two calls is held by a call that
    never returns, so it is never released. *)
Definition acquire : M unit :=
  st ← get; if lock_held st then stuck else put (set_lock_held st true).
Definition release : M unit := st ← get; put (set_lock_held st false).

(** [for x in xs: body(x)] *)
Fixpoint for_each {A} (xs : list A) (body : A -> M unit) : M unit :=
  match xs with
  | [] => mret tt
  | x :: xs' => body x ;; for_each xs' body
  end.

Definition run {A} (m : M A) (st : PBFTState) : option A * PBFTState * list Out := m st.

(** ** View / failover helpers *)

(** [_set_view]: the check is repeated under the lock. *)
Definition set_view (new_view : Z) (reason : string) : M bool :=
  st ← get;
  if new_view <=? view st then mret false else
  acquire ;;
  st ← get;
  if new_view <=? view st then release ;; mret false else
  put (set_view_field st new_view) ;;
  release ;;
  mret true.

(** [_broadcast_set_view]: one best-effort SET-VIEW per peer. *)
Definition broadcast_set_view (new_view : Z) (reason : string) : M unit :=
  st ← get;
  for_each (peers st) (λ pid,
    emit (SendSetView pid (mkSetView new_view (node_id st) reason))).

(** [_sync_view_from_peers]: one GetStatus RPC per peer; [status pid] is
    the view in the status reply of peer [pid], or [None] when [get_status]
    raises. *)
Definition sync_max_view (status : Z -> option Z) (pids : list Z) (v0 : Z) : Z :=
  fold_left (λ max_view pid,
    match status pid with
    | Some v => if max_view <? v then v else max_view
    | None => max_view
    end) pids v0.

Definition sync_view_from_peers (status : Z -> option Z) : M unit :=
  st ← get;
  for_each (peers st) (λ pid, emit (SendGetStatus pid)) ;;
  let max_view := sync_max_view status (peers st) (view st) in
  if view st <? max_view then
    acquire ;; st ← get; put (set_view_field st max_view) ;; release
  else mret tt.

Definition failover_reason (p : Z) : string :=
  "failover: primary " +:+ pretty p +:+ " unreachable".

(** The loop of [_ensure_live_primary]; [ping_ok i] is whether the ping of
    iteration [i] answers before its deadline. *)
Fixpoint ensure_loop (ping_ok : nat -> bool) (i : nat) (k : nat) : M bool :=
  match k with
  | O => st ← get; mret (bool_decide (primary_id st = node_id st))
  | S k' =>
      st ← get;
      let pid := primary_id st in
      if bool_decide (pid = node_id st) then mret true else
      (if bool_decide (pid ∈ peers st) then emit (SendPing pid) else mret tt) ;;
      if bool_decide (pid ∈ peers st) && ping_ok i then mret true else
      let bumped_to := view st + 1 in
      set_view bumped_to (failover_reason pid) ≫= λ changed : bool,
      (if changed then broadcast_set_view bumped_to (failover_reason pid)
       else mret tt) ;;
      ensure_loop ping_ok (S i) k'
  end.

(** [_ensure_live_primary(max_hops)]: [range(max(1, hops))] iterations. *)
Definition ensure_live_primary (ping_ok : nat -> bool) (max_hops : option Z) : M bool :=
  st ← get;
  let hops := match max_hops with Some h => h | None => n st end in
  ensure_loop ping_ok 0 (Z.to_nat (Z.max 1 hops)).

(** ** Consensus engine *)

Definition ack (b : bool) (e : string) : Ack := mkAck b e.

Definition byz_suffix : string := ":byz".

Section Engine.

(** [hashlib.sha256(...).hexdigest()] over the UTF-8 bytes of its argument. *)
Variable sha256_hex : string -> string.

(** [_digest]. *)
Definition digest (r : ClientRequest) : string :=
  sha256_hex (client_id r +:+ "|" +:+ request_id r +:+ "|" +:+ payload r).

(** [_maybe_corrupt_digest]. *)
Definition maybe_corrupt_digest (st : PBFTState) (d : string) : string :=
  if byzantine st then d +:+ byz_suffix else d.

(** [_execute], on the entry stored at [key]. *)
Definition execute (key : Z * Z) : M unit :=
  acquire ;;
  st ← get;
  match log st !! key with
  | None => release
  | Some e =>
      if executed e then release else
      put (set_log st (<[key := mkEntry (e_view e) (e_seq e) (e_digest e)
             (e_client_id e) (e_request_id e) (e_payload e) (prepares e)
             (commits e) (prepared e) (committed e) true (Some (e_payload e))
             (Some "")]> (log st))) ;;
      release
  end.

(** The shared preamble of the protocol RPCs: raise the view on a higher
    incoming view, then compare. *)
Definition observe_view (v : Z) (phase : string) : M unit :=
  st ← get;
  if view st <? v then
    (set_view v ("observed higher view in " +:+ phase) ;; mret tt)
  else mret tt.

(** The state left by [observe_view v]. *)
Definition raise_view (st : PBFTState) (v : Z) : PBFTState :=
  if view st <? v then set_view_field st v else st.

Definition on_commit (req : CommitRequest) : M Ack :=
  st ← get;
  if negb (alive st) then mret (ack false "node is not alive") else
  observe_view (c_view req) "COMMIT" ;;
  st ← get;
  if bool_decide (c_view req ≠ view st) then mret (ack false "wrong view") else
  let key := (c_view req, c_seq req) in
  acquire ;;
  st ← get;
  match log st !! key with
  | None =>
      let pkey := (c_view req, c_seq req, c_digest req) in
      let bucket := default ∅ (pending_commits st !! pkey) in
      put (set_pending_commits st
             (<[pkey := {[c_replica_id req]} ∪ bucket]> (pending_commits st))) ;;
      release ;;
      mret (ack true "buffered")
  | Some entry =>
      if executed entry then release ;; mret (ack true "ignored (already executed)") else
      if bool_decide (e_digest entry ≠ c_digest req) then
        release ;; mret (ack false "digest mismatch") else
      let cs := {[c_replica_id req]} ∪ commits entry in
      let became_committed :=
        prepared entry && negb (committed entry)
        && (quorum_commit st <=? Z.of_nat (size cs)) in
      let entry1 := entry_with_sets entry (prepares entry) cs in
      let entry2 := entry_with_flags entry1 (prepared entry1)
                       (committed entry1 || became_committed) in
      put (set_log st (<[key := entry2]> (log st))) ;;
      release ;;
      (if became_committed then execute key else mret tt) ;;
      mret (ack true "")
  end.

Definition suspect_reason (pid : Z) (v s : Z) : string :=
  "suspect primary " +:+ pretty pid +:+ ": conflicting PREPARE digests for view="
  +:+ pretty v +:+ " seq=" +:+ pretty s.

Definition on_prepare (req : PrepareRequest) : M Ack :=
  st ← get;
  if negb (alive st) then mret (ack false "node is not alive") else
  observe_view (p_view req) "PREPARE" ;;
  st ← get;
  if bool_decide (p_view req ≠ view st) then mret (ack false "wrong view") else
  let key := (p_view req, p_seq req) in
  acquire ;;
  st ← get;
  match log st !! key with
  | None =>
      let pkey := (p_view req, p_seq req, p_digest req) in
      let bucket := default ∅ (pending_prepares st !! pkey) in
      put (set_pending_prepares st
             (<[pkey := {[p_replica_id req]} ∪ bucket]> (pending_prepares st))) ;;
      release ;;
      mret (ack true "buffered")
  | Some entry =>
      if executed entry then release ;; mret (ack true "ignored (already executed)") else
      if bool_decide (e_digest entry ≠ p_digest req) then
        let conflict_set :=
          {[p_replica_id req]} ∪ default ∅ (conflicting_prepares st !! key) in
        put (set_conflicting_prepares st
               (<[key := conflict_set]> (conflicting_prepares st))) ;;
        let conflicts := Z.of_nat (size conflict_set) in
        (if f st + 1 <=? conflicts then
           let bumped_to := view st + 1 in
           let reason := suspect_reason (primary_id st) (p_view req) (p_seq req) in
           (* still inside [with self._lock:]: [_set_view] takes the lock again *)
           set_view bumped_to reason ≫= λ changed : bool,
           if changed then broadcast_set_view bumped_to reason else mret tt
         else mret tt) ;;
        release ;;
        mret (ack false "digest mismatch")
      else
      let ps := {[p_replica_id req]} ∪ prepares entry in
      let became_prepared :=
        negb (prepared entry) && (quorum_prepare st <=? Z.of_nat (size ps)) in
      let entry1 := entry_with_sets entry ps (commits entry) in
      let entry2 := entry_with_flags entry1 (prepared entry1 || became_prepared)
                       (committed entry1) in
      put (set_log st (<[key := entry2]> (log st))) ;;
      release ;;
      if became_prepared then
        st ← get;
        let commit := mkCommit (p_view req) (p_seq req)
                        (maybe_corrupt_digest st (p_digest req)) (node_id st) in
        for_each (peers st) (λ peer, emit (SendCommit peer commit)) ;;
        (* Count our own COMMIT vote locally *)
        on_commit commit ;;
        mret (ack true "")
      else mret (ack true "")
  end.

(** [_multicast_prepare]. *)
Definition multicast_prepare (v s : Z) (d : string) : M unit :=
  st ← get;
  if bool_decide (node_id st = primary_id st) then mret tt else
  let out_digest := maybe_corrupt_digest st d in
  let prepare := mkPrepare v s out_digest (node_id st) in
  for_each (peers st) (λ peer, emit (SendPrepare peer prepare)) ;;
  (* Count our own PREPARE vote locally *)
  on_prepare prepare ;;
  mret tt.

Definition pre_prepare_reason (pid : Z) : string :=
  "suspect primary " +:+ pretty pid +:+ ": PRE-PREPARE digest mismatch".

(** The locked section of [on_pre_prepare]: create the entry if absent and
    drain the pending buffers of [(view, seq, digest)] into it. *)
Definition accept_pre_prepare (req : PrePrepareRequest) : M unit :=
  acquire ;;
  st ← get;
  let key := (pp_view req, pp_seq req) in
  let pkey := (pp_view req, pp_seq req, pp_digest req) in
  let r := pp_request req in
  let log1 := match log st !! key with
              | Some _ => log st
              | None => <[key := new_entry (pp_view req) (pp_seq req) (pp_digest req)
                                  (client_id r) (request_id r) (payload r)]> (log st)
              end in
  let entry := default (new_entry 0 0 "" "" "" "") (log1 !! key) in
  let pend_p := default ∅ (pending_prepares st !! pkey) in
  let pend_c := default ∅ (pending_commits st !! pkey) in
  let entry' := entry_with_sets entry (prepares entry ∪ pend_p) (commits entry ∪ pend_c) in
  put (mkState (node_id st) (peers st) (alive st) (byzantine st) (view st)
         (next_seq st) (<[key := entry']> log1)
         (delete pkey (pending_prepares st)) (delete pkey (pending_commits st))
         (conflicting_prepares st) (lock_held st)) ;;
  release.

Definition on_pre_prepare (req : PrePrepareRequest) (broadcast_prepare : bool) : M Ack :=
  st ← get;
  if negb (alive st) then mret (ack false "node is not alive") else
  observe_view (pp_view req) "PRE-PREPARE" ;;
  st ← get;
  if bool_decide (pp_view req ≠ view st) then mret (ack false "wrong view") else
  if bool_decide (pp_primary_id req ≠ primary_id st) then
    mret (ack false "wrong primary") else
  let d := digest (pp_request req) in
  if bool_decide (d ≠ pp_digest req) then
    let bumped_to := view st + 1 in
    set_view bumped_to (pre_prepare_reason (primary_id st)) ≫= λ changed : bool,
    (* the second f-string is evaluated after the view change *)
    (if changed then
       st ← get;
       broadcast_set_view bumped_to (pre_prepare_reason (primary_id st))
     else mret tt) ;;
    mret (ack false "digest mismatch")
  else
  accept_pre_prepare req ;;
  (if broadcast_prepare then multicast_prepare (pp_view req) (pp_seq req) (pp_digest req)
   else mret tt) ;;
  mret (ack true "").

(** [on_set_view]. *)
Definition on_set_view (req : SetViewRequest) : M Ack :=
  st ← get;
  if negb (alive st) then mret (ack false "node is not alive") else
  set_view (sv_view req) ("set by " +:+ pretty (sv_sender_id req) +:+ ": " +:+ sv_reason req)
    ≫= λ changed : bool,
  mret (ack true (if changed then "" else "ignored (not higher)")).

(** [self.state.alive = False] ([KillNode] in server.py). *)
Definition kill_node : M unit := st ← get; put (set_alive st false).

(** ** Client entrypoint *)

(** [random.choice(seq)] is [seq[random._randbelow(len(seq))]] and
    [random.randint(1, 1_000_000)] is [1 + random._randbelow(1_000_000)];
    [randbelow i k] is the [i]-th draw, of bound [k]. *)
Definition chaos_modes : list string := ["wrong_digest"; "mutated_payload"].

(** [_byz_make_chaos_pre_prepare]; also returns the index of the next draw. *)
Definition byz_make_chaos_pre_prepare (randbelow : nat -> Z -> Z) (draw : nat)
    (base_req : ClientRequest) (v s primary peer : Z) (st : PBFTState)
    : PrePrepareRequest * nat :=
  let chaos_mode := default "" (chaos_modes !! Z.to_nat (randbelow draw 2)) in
  if bool_decide (chaos_mode = "wrong_digest") then
    let d := maybe_corrupt_digest st (digest base_req) in
    (mkPrePrepare v s d primary base_req, S draw)
  else
    let rnd := 1 + randbelow (S draw) 1000000 in
    let mutated_payload :=
      payload base_req +:+ "|BYZ:" +:+ pretty peer +:+ ":" +:+ pretty rnd in
    let mutated_req := mkClientRequest (client_id base_req) (request_id base_req)
                         (timestamp_ms base_req) mutated_payload (forwarded base_req) in
    (mkPrePrepare v s (digest mutated_req) primary mutated_req, S (S draw)).

(** The loop [for peer in state.peers] of the Byzantine primary. *)
Fixpoint byz_send_chaos (randbelow : nat -> Z -> Z) (draw : nat) (ps : list Z)
    (req : ClientRequest) (v s : Z) (st : PBFTState) : list Out :=
  match ps with
  | [] => []
  | peer :: ps' =>
      let '(chaos_pre, draw') :=
        byz_make_chaos_pre_prepare randbelow draw req v s (node_id st) peer st in
      SendPrePrepare peer chaos_pre :: byz_send_chaos randbelow draw' ps' req v s st
  end.

Definition emit_all (os : list Out) : M unit := λ st, (Some tt, st, os).

(** What [on_client_request] hands back: a reply, or (honest primary) the
    slot it now waits on until the entry is executed or the timeout hits. *)
Inductive ClientOutcome :=
| Replied (r : ClientReply)
| AwaitingCommit (v s : Z).

Definition byz_primary_error : string :=
  "byzantine primary: sent chaotic PRE-PREPARE (no commit expected)".

(** The primary path of [on_client_request]. *)
Definition client_request_primary (randbelow : nat -> Z -> Z) (req : ClientRequest)
    : M ClientOutcome :=
  acquire ;;
  st ← get;
  let v := view st in
  let s := next_seq st in
  let d := digest req in
  put (set_log (set_next_seq st (s + 1))
         (<[(v, s) := new_entry v s d (client_id req) (request_id req) (payload req)]>
            (log st))) ;;
  release ;;
  let pre := mkPrePrepare v s d (node_id st) req in
  if byzantine st then
    emit_all (byz_send_chaos randbelow 0 (peers st) req v s st) ;;
    mret (Replied (mkClientReply (client_id req) (request_id req) (node_id st) v s
                     false "" byz_primary_error))
  else
    for_each (peers st) (λ peer, emit (SendPrePrepare peer pre)) ;;
    mret (AwaitingCommit v s).

(** After the wait on [entry.done]: the reply is read from the log, under
    the lock. *)
Definition client_reply_after_wait (req : ClientRequest) (v s : Z) : M ClientReply :=
  acquire ;;
  st ← get;
  release ;;
  match log st !! (v, s) with
  | None => mret (mkClientReply (client_id req) (request_id req) (node_id st) v s
                    false "" "request entry missing")
  | Some e => mret (mkClientReply (e_client_id e) (e_request_id e) (node_id st)
                      (e_view e) (e_seq e) (committed e)
                      (default "" (result e)) (default "" (error e)))
  end.

Definition not_primary_reply (req : ClientRequest) (st : PBFTState) : ClientOutcome :=
  Replied (mkClientReply (client_id req) (request_id req) (node_id st) (view st) 0
             false "" ("not primary (primary_id=" +:+ pretty (primary_id st) +:+ ")")).

(** [on_client_request]; [fwd r] is the answer of the primary to the
    forwarded request, or the text of the exception it raised.  The
    recursive call made after becoming primary passes the alive check and
    the primary check again and runs the primary path. *)
Definition on_client_request (ping_ok : nat -> bool) (randbelow : nat -> Z -> Z)
    (fwd : ClientRequest -> ClientReply + string) (req : ClientRequest)
    : M ClientOutcome :=
  st ← get;
  if negb (alive st) then
    mret (Replied (mkClientReply (client_id req) (request_id req) (node_id st)
                     (view st) 0 false "" "node is not alive")) else
  if bool_decide (node_id st ≠ primary_id st) then
    if forwarded req then mret (not_primary_reply req st) else
    ensure_live_primary ping_ok None ;;
    st ← get;
    if bool_decide (node_id st = primary_id st) then
      client_request_primary randbelow req else
    if bool_decide (primary_id st ∈ peers st) then
      let fwd_req := mkClientRequest (client_id req) (request_id req)
                       (timestamp_ms req) (payload req) true in
      emit (ForwardRequest (primary_id st) fwd_req) ;;
      match fwd fwd_req with
      | inl reply => mret (Replied reply)
      | inr e => mret (Replied (mkClientReply (client_id req) (request_id req)
                                  (node_id st) (view st) 0 false ""
                                  ("forward to primary failed: " +:+ e)))
      end
    else mret (not_primary_reply req st)
  else client_request_primary randbelow req.

(** ** Executions: the calls a replica can receive, one after another *)

Inductive Input :=
| InClientRequest (req : ClientRequest) (ping_ok : nat -> bool)
    (randbelow : nat -> Z -> Z) (fwd : ClientRequest -> ClientReply + string)
| InClientReply (req : ClientRequest) (v s : Z)
| InPrePrepare (req : PrePrepareRequest) (broadcast_prepare : bool)
| InPrepare (req : PrepareRequest)
| InCommit (req : CommitRequest)
| InSetView (req : SetViewRequest)
| InSyncView (status : Z -> option Z)
| InEnsureLivePrimary (ping_ok : nat -> bool) (max_hops : option Z)
| InKill.

Definition run_input (i : Input) : M unit :=
  match i with
  | InClientRequest req ping_ok rb fwd => on_client_request ping_ok rb fwd req ;; mret tt
  | InClientReply req v s => client_reply_after_wait req v s ;; mret tt
  | InPrePrepare req b => on_pre_prepare req b ;; mret tt
  | InPrepare req => on_prepare req ;; mret tt
  | InCommit req => on_commit req ;; mret tt
  | InSetView req => on_set_view req ;; mret tt
  | InSyncView status => sync_view_from_peers status
  | InEnsureLivePrimary ping_ok h => ensure_live_primary ping_ok h ;; mret tt
  | InKill => kill_node
  end.

Definition step (st : PBFTState) (i : Input) : PBFTState := snd (fst (run_input i st)).

Definition exec (st : PBFTState) (is : list Input) : PBFTState := fold_left step is st.

End Engine.

(** * Relations between the states before and after a call *)

(** The flags of an entry are backed by quorums of the sets. *)
Definition quorum_ok (qp qc : Z) (e : PBFTEntry) : Prop :=
  (prepared e = true → qp <= Z.of_nat (size (prepares e))) ∧
  (committed e = true → prepared e = true ∧ qc <= Z.of_nat (size (commits e))).

(** An entry kept in place: same digest, sets and flags only grow. *)
Definition entry_grows (e e' : PBFTEntry) : Prop :=
  e_digest e' = e_digest e ∧ prepares e ⊆ prepares e' ∧ commits e ⊆ commits e' ∧
  (prepared e = true → prepared e' = true) ∧ (committed e = true → committed e' = true).

(** How the entry [e'] after a call relates to the entry [eo] at the same
    key before it: either its flags are backed by quorums, or it grew from
    [eo] and each flag it turned on is backed by a quorum. *)
Definition entry_step (qp qc : Z) (eo : option PBFTEntry) (e' : PBFTEntry) : Prop :=
  quorum_ok qp qc e' ∨
  ∃ e, eo = Some e ∧ entry_grows e e' ∧
    (prepared e' = true → prepared e = true ∨ qp <= Z.of_nat (size (prepares e'))) ∧
    (committed e' = true → committed e = true ∨
       (prepared e' = true ∧ qc <= Z.of_nat (size (commits e')))).

Definition log_step (qp qc : Z) (st st' : PBFTState) : Prop :=
  ∀ k e', log st' !! k = Some e' → entry_step qp qc (log st !! k) e'.

(** What every call does to the state. *)
Definition evolves (st st' : PBFTState) : Prop :=
  node_id st' = node_id st ∧ peers st' = peers st ∧ view st <= view st' ∧
  log_step (quorum_prepare st) (quorum_commit st) st st'.

(** Every entry stays, and grows. *)
Definition log_keeps (st st' : PBFTState) : Prop :=
  ∀ k e, log st !! k = Some e → ∃ e', log st' !! k = Some e' ∧ entry_grows e e'.

(** The buffers of slots that have an entry do not change. *)
Definition pending_keeps (st st' : PBFTState) : Prop :=
  ∀ v s d, is_Some (log st !! (v, s)) →
    pending_prepares st' !! (v, s, d) = pending_prepares st !! (v, s, d) ∧
    pending_commits st' !! (v, s, d) = pending_commits st !! (v, s, d).

(** What [on_commit], [on_prepare] and [_multicast_prepare] do to the state. *)
Definition frame (st st' : PBFTState) : Prop :=
  evolves st st' ∧ byzantine st' = byzantine st ∧ alive st' = alive st ∧
  log_keeps st st' ∧ pending_keeps st st'.



(** The two chaos forms of a PRE-PREPARE sent by a Byzantine primary to
    [peer], the mode being the value of the draw [dj] (an index into
    [chaos_modes]): the real request under its digest with [":byz"]
    appended, or a request whose payload gets ["|BYZ:<peer>:<rnd>"]
    appended, under its own digest. *)
Definition chaos_form (sha256_hex : string -> string) (rb : nat -> Z -> Z) (dj : nat)
    (req : ClientRequest) (v s primary peer : Z) (pre : PrePrepareRequest) : Prop :=
  (rb dj 2 = 0 ∧ pre = mkPrePrepare v s (digest sha256_hex req +:+ ":byz") primary req) ∨
  (rb dj 2 = 1 ∧
   let rnd := 1 + rb (S dj) 1000000 in
   1 <= rnd <= 1000000 ∧
   let mreq := mkClientRequest (client_id req) (request_id req) (timestamp_ms req)
                 (payload req +:+ "|BYZ:" +:+ pretty peer +:+ ":" +:+ pretty rnd)
                 (forwarded req) in
   pre = mkPrePrepare v s (digest sha256_hex mreq) primary mreq).

(** * The launch path ([run_node.py], [core/cluster.py]) and the RPC client

    Command lines and addresses are ASCII strings. *)

(** ** Python built-ins used on the launch path, on ASCII text *)

(** [str.isspace] on one ASCII character: [\t \n \v \f \r], the separators
    [\x1c]..[\x1f] and the space. *)
Definition py_isspace (c : ascii) : bool :=
  let k := nat_of_ascii c in
  (Nat.leb 9 k && Nat.leb k 13) || (Nat.leb 28 k && Nat.leb k 32).

Definition py_isdigit (c : ascii) : bool :=
  let k := nat_of_ascii c in Nat.leb 48 k && Nat.leb k 57.

Definition digit_value (c : ascii) : Z := Z.of_nat (nat_of_ascii c) - 48.

Fixpoint lstrip (s : string) : string :=
  match s with
  | EmptyString => EmptyString
  | String c s' => if py_isspace c then lstrip s' else s
  end.

Fixpoint rstrip (s : string) : string :=
  match s with
  | EmptyString => EmptyString
  | String c s' =>
      match rstrip s' with
      | EmptyString => if py_isspace c then EmptyString else String c EmptyString
      | r => String c r
      end
  end.

Definition py_strip (s : string) : string := rstrip (lstrip s).

(** The digits of [int(s)]: one or more decimal digits, single underscores
    allowed between two digits. *)
Fixpoint py_digits (s : string) (acc : Z) (after_digit : bool) : option Z :=
  match s with
  | EmptyString => if after_digit then Some acc else None
  | String c s' =>
      if py_isdigit c then py_digits s' (acc * 10 + digit_value c) true
      else if Ascii.eqb c "_"%char && after_digit then py_digits s' acc false
      else None
  end.

(** [int(s)] for a [str] argument in base 10; [None] is the [ValueError]. *)
Definition py_int (s : string) : option Z :=
  match py_strip s with
  | EmptyString => None
  | String c r =>
      if Ascii.eqb c "-"%char then Z.opp <$> py_digits r 0 false
      else if Ascii.eqb c "+"%char then py_digits r 0 false
      else py_digits (String c r) 0 false
  end.

(** [s.split(sep)] for a one-character separator. *)
Fixpoint py_split (sep : ascii) (s : string) : list string :=
  match s with
  | EmptyString => [EmptyString]
  | String c s' =>
      let r := py_split sep s' in
      if Ascii.eqb c sep then EmptyString :: r else
      match r with
      | x :: r' => String c x :: r'
      | [] => [String c EmptyString]
      end
  end.

(** [s.rsplit(sep, 1)] unpacked into two names; [None] when there are not
    two pieces. *)
Definition py_rsplit1 (sep : ascii) (s : string) : option (string * string) :=
  match reverse (py_split sep s) with
  | last_piece :: (_ :: _) as init_rev =>
      Some (String.concat (String sep EmptyString) (reverse init_rev), last_piece)
  | _ => None
  end.

(** A [dict] with integer keys, in insertion order: [d[k] = v] keeps the
    position of an existing key, [d.pop(k, None)] drops it. *)
Fixpoint dict_set {V} (k : Z) (v : V) (d : list (Z * V)) : list (Z * V) :=
  match d with
  | [] => [(k, v)]
  | (k', v') :: d' => if bool_decide (k = k') then (k, v) :: d' else (k', v') :: dict_set k v d'
  end.

Definition dict_pop {V} (k : Z) (d : list (Z * V)) : list (Z * V) :=
  filter (λ kv, kv.1 ≠ k) d.

Fixpoint str_all (p : ascii → bool) (s : string) : bool :=
  match s with
  | EmptyString => true
  | String c s' => p c && str_all p s'
  end.

(** ** [run_node.py] *)

(** The [PARSE PEERS] block of [main]; [None] is an uncaught exception. *)
Definition parse_peers (self_id : Z) (peers_arg : string) : option (list (Z * string)) :=
  let items := match peers_arg with
               | EmptyString => []
               | _ => py_split ","%char peers_arg
               end in
  d ← foldl (λ acc item,
          d ← acc;
          match py_split "@"%char item with
          | [pid; addr] => k ← py_int pid; Some (dict_set k addr d)
          | _ => None
          end) (Some []) items;
  Some (dict_pop self_id d).

(** The replica state of [main] before [node.start()]:
    [PBFTNode(node_id=args.id, peers=list(peers.keys()))] followed by
    [node.state.byzantine = bool(args.byzantine)]. *)
Definition launch_state (self_id : Z) (peers_arg : string) (byz : bool) : option PBFTState :=
  d ← parse_peers self_id peers_arg;
  Some (init_state self_id (fst <$> d) byz).

(** ** [core/cluster.py] *)

Record ClusterNode := mkClusterNode {
  cn_id : Z;
  cn_port : Z;
  cn_process : option Z;
  cn_byzantine : bool
}.

Record ClusterManager := mkCluster {
  nodes : list ClusterNode;
  running : bool;
  last_error : string
}.

(** [validate_node_count]. *)
Definition validate_node_count (n0 : Z) : bool * Z :=
  if n0 <=? 0 then (false, 0) else
  let f0 := (n0 - 1) / 3 in
  (bool_decide (3 * f0 + 1 = n0), f0).

(** [resize]. *)
Definition resize (c : ClusterManager) (n0 : Z) : ClusterManager :=
  if running c then c else
  let '(ok0, _) := validate_node_count n0 in
  if negb ok0 then
    mkCluster [] (running c)
      ("Invalid PBFT node count n=" +:+ pretty n0 +:+ ". Must be n = 3f + 1 (e.g. 4, 7, 10).")
  else
    mkCluster ((λ i, mkClusterNode (i + 1) (5000 + i + 1) None false) <$> seqZ 0 n0)
      (running c) "".

Definition peer_item (nd : ClusterNode) : string :=
  pretty (cn_id nd) +:+ "@localhost:" +:+ pretty (cn_port nd).

(** [_peer_str]. *)
Definition peer_str (c : ClusterManager) : string :=
  String.concat "," (peer_item <$> nodes c).

(** [_build_node_argv]; [executable] is [sys.executable]. *)
Definition build_node_argv (executable : string) (c : ClusterManager) (nd : ClusterNode)
    : list string :=
  [executable; "run_node.py"; "--id"; pretty (cn_id nd); "--port"; pretty (cn_port nd);
   "--peers"; peer_str c] ++ (if cn_byzantine nd then ["--byzantine"] else []).

(** ** [rpc/client.py] *)

(** [_fallback_addrs] of a client for [addr]. *)
Definition fallback_addrs (addr : string) : list string :=
  match py_rsplit1 ":"%char addr with
  | None => [addr]
  | Some (host, port_s) =>
      match py_int port_s with
      | None => [addr]
      | Some port =>
          if (5001 <=? port) && (port <=? 5010)
          then (λ p, host +:+ ":" +:+ pretty p) <$> seqZ 5001 10
          else [addr]
      end
  end.

Inductive StatusCode :=
| UNAVAILABLE
| DEADLINE_EXCEEDED
| OtherStatus (code : Z).

Inductive RpcResult :=
| RpcOk (reply : ClientReply)
| RpcError (code : StatusCode).

Definition retryable (code : StatusCode) : bool :=
  match code with UNAVAILABLE | DEADLINE_EXCEEDED => true | OtherStatus _ => false end.

(** The [for alt in self._fallback_addrs()] loop; [submit i a] is the
    outcome of the [i]-th [SubmitRequest] call of the client, sent to [a].
    Also returns the addresses called, in order. *)
Fixpoint try_fallbacks (submit : nat → string → RpcResult) (self_addr : string) (i : nat)
    (alts : list string) (last_err : StatusCode) : RpcResult * list string :=
  match alts with
  | [] => (RpcError last_err, [])
  | alt :: alts' =>
      if String.eqb alt self_addr then try_fallbacks submit self_addr i alts' last_err else
      match submit i alt with
      | RpcOk r => (RpcOk r, [alt])
      | RpcError e2 =>
          let '(res, tried) := try_fallbacks submit self_addr (S i) alts' e2 in
          (res, alt :: tried)
      end
  end.

(** [client_request] of a client for [addr]. *)
Definition client_request (submit : nat → string → RpcResult) (addr : string)
    : RpcResult * list string :=
  match submit 0%nat addr with
  | RpcOk r => (RpcOk r, [addr])
  | RpcError e =>
      if retryable e then
        let '(res, tried) := try_fallbacks submit addr 1 (fallback_addrs addr) e in
        (res, addr :: tried)
      else (RpcError e, [addr])
  end.

(** A character that [str.strip] keeps. *)
Definition not_space (c : ascii) : bool := negb (py_isspace c).

(** The characters other than [sep]. *)
Definition no_char (sep : ascii) : ascii → bool := λ c, negb (Ascii.eqb c sep).

(** The [peers] entry that run_node.py builds from the item of [_peer_str]
    for node [nd]. *)
Definition peer_entry (nd : ClusterNode) : Z * string :=
  (cn_id nd, "localhost:" +:+ pretty (cn_port nd)).

(** ** Well-formed log entries *)

(** The fields of a log entry agree with its key, its digest is the digest
    of its request fields, and [result]/[error] are set exactly by
    [_execute]. *)
Definition entry_wf (sha256_hex : string -> string) (k : Z * Z) (e : PBFTEntry) : Prop :=
  k = (e_view e, e_seq e) ∧
  e_digest e = sha256_hex (e_client_id e +:+ "|" +:+ e_request_id e +:+ "|" +:+ e_payload e) ∧
  (executed e = true → committed e = true) ∧
  result e = (if executed e then Some (e_payload e) else None) ∧
  error e = (if executed e then Some "" else None).

(** Every entry of the log is well formed. *)
Definition log_wf (sha256_hex : string -> string) (st : PBFTState) : Prop :=
  ∀ k e, log st !! k = Some e → entry_wf sha256_hex k e.

(** The outbound call is a [ForwardRequest]. *)
Definition is_forward (o : Out) : bool :=
  match o with ForwardRequest _ _ => true | _ => false end.

(** ** The role reported by [GetStatus] ([server.py]) *)

(** [PBFTState.role]. *)
Definition role (st : PBFTState) : string :=
  if bool_decide (node_id st = primary_id st) then "Primary" else "Replica".


(** ** The process manager: [start_node], [stop_node], [start_all], [stop_all] *)

(** [any(n.get("process") for n in self.nodes)]: a [Popen] handle is truthy. *)
Definition any_process (ns : list ClusterNode) : bool :=
  existsb (λ nd, match cn_process nd with Some _ => true | None => false end) ns.

(** [node["process"] = p]. *)
Definition set_process (nd : ClusterNode) (p : option Z) : ClusterNode :=
  mkClusterNode (cn_id nd) (cn_port nd) p (cn_byzantine nd).

(** [next((n for n in self.nodes if int(n.get("id")) == int(node_id)), None)],
    with the index of the node found. *)
Definition find_node (nid : Z) (ns : list ClusterNode) : option (nat * ClusterNode) :=
  list_find (λ nd, cn_id nd = nid) ns.

(** Launching a node's [argv] ([subprocess.Popen] in a new console on
    Windows, through [_launch_in_new_terminal] or in the background
    elsewhere): [spawn argv] gives the message [_launch_in_new_terminal] last
    stored in [last_error] if a terminal emulator failed to open, and the
    process handle, or [None] when [subprocess.Popen] raises. *)
Definition Spawn : Type := list string → option string * option Z.

(** [start_node]; the boolean is [true] when an exception escapes it. *)
Definition start_node (spawn : Spawn) (executable : string) (c : ClusterManager) (nid : Z)
    : ClusterManager * bool :=
  match find_node nid (nodes c) with
  | None => (c, false)
  | Some (i, nd) =>
      match cn_process nd with
      | Some _ => (c, false)
      | None =>
          let '(err, proc) := spawn (build_node_argv executable c nd) in
          let le := default (last_error c) err in
          match proc with
          | None => (mkCluster (nodes c) (running c) le, true)
          | Some p =>
              let ns := <[i := set_process nd (Some p)]> (nodes c) in
              (mkCluster ns (any_process ns) le, false)
          end
      end
  end.

(** [stop_node]: failures of the kill are caught and printed. *)
Definition stop_node (c : ClusterManager) (nid : Z) : ClusterManager :=
  match find_node nid (nodes c) with
  | None => c
  | Some (i, nd) =>
      match cn_process nd with
      | None => c
      | Some _ =>
          let ns := <[i := set_process nd None]> (nodes c) in
          mkCluster ns (any_process ns) (last_error c)
      end
  end.

(** The loop of [start_all] over the ids of [self.nodes]. *)
Fixpoint start_each (spawn : Spawn) (executable : string) (ids : list Z) (c : ClusterManager)
    : ClusterManager * bool :=
  match ids with
  | [] => (c, false)
  | nid :: ids' =>
      let '(c1, raised) := start_node spawn executable c nid in
      if raised then (c1, true) else start_each spawn executable ids' c1
  end.

(** [start_all]. *)
Definition start_all (spawn : Spawn) (executable : string) (c : ClusterManager)
    : ClusterManager * bool :=
  if running c then (c, false) else
  let len := Z.of_nat (length (nodes c)) in
  let '(ok0, _) := validate_node_count len in
  if negb ok0 then
    (mkCluster (nodes c) (running c)
       ("Invalid PBFT node count n=" +:+ pretty len +:+ ". Must be n = 3f + 1 (e.g. 4, 7, 10)."),
     false)
  else start_each spawn executable (cn_id <$> nodes c) (mkCluster (nodes c) (running c) "").

(** [stop_all]. *)
Definition stop_all (c : ClusterManager) : ClusterManager :=
  mkCluster ((λ nd, match cn_process nd with Some _ => set_process nd None | None => nd end)
               <$> nodes c) false (last_error c).

(** [ClusterManager()]. *)
Definition cluster_init : ClusterManager := mkCluster [] false "".

(** The calls the UI makes on the cluster manager; an exception escaping a
    call leaves the manager as the call left it. *)
Inductive ClusterOp :=
| OpResize (n0 : Z)
| OpStartNode (spawn : Spawn) (nid : Z)
| OpStopNode (nid : Z)
| OpStartAll (spawn : Spawn)
| OpStopAll.

(** One call; [executable] is [sys.executable]. *)
Definition cluster_step (executable : string) (c : ClusterManager) (op : ClusterOp)
    : ClusterManager :=
  match op with
  | OpResize n0 => resize c n0
  | OpStartNode spawn nid => (start_node spawn executable c nid).1
  | OpStopNode nid => stop_node c nid
  | OpStartAll spawn => (start_all spawn executable c).1
  | OpStopAll => stop_all c
  end.

(** [running] is [True] exactly when some node has a process. *)
Definition cluster_inv (c : ClusterManager) : Prop := running c = any_process (nodes c).

(** What [start_node] never changes in a node. *)
Definition node_fixed (nd : ClusterNode) : Z * Z * bool := (cn_id nd, cn_port nd, cn_byzantine nd).

(** [c'] has the nodes of [c], up to their process handles, and a node
    that had a process still has one. *)
Definition starts_from (c c' : ClusterManager) : Prop :=
  node_fixed <$> nodes c' = node_fixed <$> nodes c ∧
  ∀ j nd nd', nodes c !! j = Some nd → nodes c' !! j = Some nd' →
    cn_process nd ≠ None → cn_process nd' ≠ None.

(** * Concrete runs

    Small executions of four replicas [1; 2; 3; 4] used below to evaluate
    the statements.  [toy_hash] keeps its input, so that digests are
    readable; [const_hash] returns one 64-character hex string. *)

Definition toy_hash (s : string) : string := s.



Definition req0 : ClientRequest := mkClientRequest "c" "r1" 0 "x" false.

Definition d0 : string := digest toy_hash req0.

(** The PRE-PREPARE of [req0] by replica 1, primary of view 0. *)
Definition pre0 : PrePrepareRequest := mkPrePrepare 0 1 d0 1 req0.

(** The entry stored at [k], if any. *)
Definition entry_at (st : PBFTState) (k : Z * Z) : PBFTEntry :=
  default (new_entry 0 0 "" "" "" "") (log st !! k).

(** An honest backup and an honest primary of view 0. *)
Definition backup2 : PBFTState := init_state 2 [1; 3; 4] false.
Definition primary1 : PBFTState := init_state 1 [2; 3; 4] false.

(** The primary has ordered [req0] and received the PREPARE of replica 2. *)
Definition primary1_prepared_once : PBFTState :=
  exec toy_hash primary1
    [InClientRequest req0 (λ _, true) (λ _ _, 0) (λ _, inr "");
     InPrepare (mkPrepare 0 1 d0 2)].

(** A backup that has accepted [pre0] without counting a PREPARE. *)
Definition backup2_accepted : PBFTState :=
  exec toy_hash backup2 [InPrePrepare pre0 false].

(** A backup that got a PREPARE and three COMMITs before the PRE-PREPARE. *)
Definition backup2_early_votes : PBFTState :=
  exec toy_hash backup2
    [InPrepare (mkPrepare 0 1 d0 3); InCommit (mkCommit 0 1 d0 1);
     InCommit (mkCommit 0 1 d0 3); InCommit (mkCommit 0 1 d0 4)].



(** The four nodes of [resize(4)] on a fresh manager. *)
Definition cluster4 : ClusterManager := resize cluster_init 4.

(** Every launch opens a terminal and starts its process. *)
Definition spawn_ok : Spawn := λ _, (None, Some 7).

Ltac unfold_monad := cbv beta iota delta [mbind M_bind get put mret M_ret].

(** Settles a closed equation, or a closed decidable proposition, by
    evaluation. *)
Ltac concrete :=
  first [ vm_compute; reflexivity
        | apply (bool_decide_unpack _); vm_compute; reflexivity ].

(** * Properties *)

Section Proofs.

Variable sha256_hex : string -> string.

Local Abbreviation digest := (digest sha256_hex).
Local Abbreviation on_pre_prepare := (on_pre_prepare sha256_hex).

(** ** Running the helpers *)

Ltac unfold_M := cbv beta iota delta [mbind M_bind get put mret M_ret acquire release stuck].

(** Moving [set_lock_held] through the field assignments. *)
Lemma set_lock_held_twice st a b : set_lock_held (set_lock_held st a) b = set_lock_held st b.
Proof. reflexivity. Qed.
Lemma set_lock_held_same st : set_lock_held st (lock_held st) = st.
Proof. by destruct st. Qed.
Lemma set_lock_held_free st : lock_held st = false → set_lock_held st false = st.
Proof. destruct st; cbn; intros ->; reflexivity. Qed.
Lemma set_lock_held_view st v b : set_lock_held (set_view_field st v) b = set_view_field (set_lock_held st b) v.
Proof. reflexivity. Qed.
Lemma set_lock_held_log st l b : set_lock_held (set_log st l) b = set_log (set_lock_held st b) l.
Proof. reflexivity. Qed.
Lemma set_lock_held_seq st s b : set_lock_held (set_next_seq st s) b = set_next_seq (set_lock_held st b) s.
Proof. reflexivity. Qed.
Lemma set_lock_held_pp st m b :
  set_lock_held (set_pending_prepares st m) b = set_pending_prepares (set_lock_held st b) m.
Proof. reflexivity. Qed.
Lemma set_lock_held_pc st m b :
  set_lock_held (set_pending_commits st m) b = set_pending_commits (set_lock_held st b) m.
Proof. reflexivity. Qed.
Lemma set_lock_held_cp st m b :
  set_lock_held (set_conflicting_prepares st m) b = set_conflicting_prepares (set_lock_held st b) m.
Proof. reflexivity. Qed.

(** The fields of [set_lock_held st b] are those of [st]. *)
Lemma lock_node_id st b : node_id (set_lock_held st b) = node_id st. Proof. reflexivity. Qed.
Lemma lock_peers st b : peers (set_lock_held st b) = peers st. Proof. reflexivity. Qed.
Lemma lock_alive st b : alive (set_lock_held st b) = alive st. Proof. reflexivity. Qed.
Lemma lock_byzantine st b : byzantine (set_lock_held st b) = byzantine st. Proof. reflexivity. Qed.
Lemma lock_view st b : view (set_lock_held st b) = view st. Proof. reflexivity. Qed.
Lemma lock_next_seq st b : next_seq (set_lock_held st b) = next_seq st. Proof. reflexivity. Qed.
Lemma lock_log st b : log (set_lock_held st b) = log st. Proof. reflexivity. Qed.
Lemma lock_pp st b : pending_prepares (set_lock_held st b) = pending_prepares st.
Proof. reflexivity. Qed.
Lemma lock_pc st b : pending_commits (set_lock_held st b) = pending_commits st.
Proof. reflexivity. Qed.
Lemma lock_cp st b : conflicting_prepares (set_lock_held st b) = conflicting_prepares st.
Proof. reflexivity. Qed.
Lemma lock_lock st b : lock_held (set_lock_held st b) = b. Proof. reflexivity. Qed.
Lemma lock_f st b : f (set_lock_held st b) = f st. Proof. reflexivity. Qed.
Lemma lock_qp st b : quorum_prepare (set_lock_held st b) = quorum_prepare st.
Proof. reflexivity. Qed.
Lemma lock_qc st b : quorum_commit (set_lock_held st b) = quorum_commit st.
Proof. reflexivity. Qed.
Lemma lock_primary st b : primary_id (set_lock_held st b) = primary_id st.
Proof. reflexivity. Qed.

Create Rewrite HintDb lockdb.
#[local] Hint Rewrite lock_node_id lock_peers lock_alive lock_byzantine lock_view
  lock_next_seq lock_log lock_pp lock_pc lock_cp lock_lock lock_f lock_qp lock_qc
  lock_primary : lockdb.

(** Leaves a lock taken and given back: [set_lock_held (g (set_lock_held st true)) false]
    becomes [g st] when the lock of [st] is free. *)
Ltac unlock Hfree :=
  rewrite ?set_lock_held_view, ?set_lock_held_log, ?set_lock_held_seq,
    ?set_lock_held_pp, ?set_lock_held_pc, ?set_lock_held_cp, ?set_lock_held_twice,
    ?(set_lock_held_free _ Hfree).

Lemma bind_run {A B} (m : M A) (k : A -> M B) st :
  (m ≫= k) st = let '(r, st1, o1) := m st in
                match r with
                | Some a => let '(b, st2, o2) := k a st1 in (b, st2, o1 ++ o2)
                | None => (None, st1, o1)
                end.
Proof. reflexivity. Qed.

Lemma for_each_emit_run {A} (xs : list A) (g : A -> Out) st :
  for_each xs (λ x, emit (g x)) st = (Some tt, st, map g xs).
Proof.
  induction xs as [|x xs IH]; [reflexivity|].
  cbn [for_each]. rewrite bind_run.
  change (emit (g x) st) with (Some (), st, [g x]). cbv beta iota. rewrite IH. reflexivity.
Qed.

Lemma acquire_run st :
  acquire st = if lock_held st then (None, st, []) else (Some tt, set_lock_held st true, []).
Proof. unfold acquire. unfold_M. by destruct (lock_held st). Qed.

Lemma release_run st : release st = (Some tt, set_lock_held st false, []).
Proof. reflexivity. Qed.

Lemma set_view_run nv r st :
  set_view nv r st =
    if nv <=? view st then (Some false, st, []) else
    if lock_held st then (None, st, []) else (Some true, set_view_field st nv, []).
Proof.
  unfold set_view. rewrite bind_run. cbv beta iota delta [get].
  destruct (nv <=? view st) eqn:E; [reflexivity|].
  unfold_M. destruct (lock_held st) eqn:L; [reflexivity|].
  cbn [view set_lock_held]. rewrite E. cbn. unlock L. reflexivity.
Qed.

Lemma broadcast_set_view_run nv r st :
  broadcast_set_view nv r st =
    (Some tt, st, map (λ pid, SendSetView pid (mkSetView nv (node_id st) r)) (peers st)).
Proof.
  unfold broadcast_set_view. rewrite bind_run. cbv beta iota delta [get].
  rewrite for_each_emit_run. reflexivity.
Qed.

Lemma observe_view_run v ph st :
  observe_view v ph st =
    if view st <? v then
      (if lock_held st then (None, st, []) else (Some tt, set_view_field st v, []))
    else (Some tt, st, []).
Proof.
  unfold observe_view. unfold_M.
  destruct (view st <? v) eqn:E; [|reflexivity].
  rewrite set_view_run.
  destruct (v <=? view st) eqn:E'; [lia|]. by destruct (lock_held st).
Qed.

(** With the lock free, [observe_view] leaves [raise_view]. *)
Lemma observe_view_free v ph st :
  lock_held st = false → observe_view v ph st = (Some tt, raise_view st v, []).
Proof. intros L. rewrite observe_view_run, L. unfold raise_view. by destruct (view st <? v). Qed.

(** With the lock held, [observe_view] either blocks or does nothing. *)
Lemma observe_view_held v ph st :
  lock_held st = true →
  observe_view v ph st = if view st <? v then (None, st, []) else (Some tt, st, []).
Proof. intros L. rewrite observe_view_run, L. reflexivity. Qed.

(** Re-reading the fields of a record built from another one. *)
Lemma set_view_field_same st : set_view_field st (view st) = st.
Proof. destruct st; reflexivity. Qed.

Lemma set_view_field_twice st v1 v2 : set_view_field (set_view_field st v1) v2 = set_view_field st v2.
Proof. reflexivity. Qed.

Lemma set_view_field_view st v : view (set_view_field st v) = v.
Proof. reflexivity. Qed.

Lemma set_log_set_log st l1 l2 : set_log (set_log st l1) l2 = set_log st l2.
Proof. destruct st; reflexivity. Qed.

Lemma execute_run key st :
  execute key st =
    if lock_held st then (None, st, []) else
    match log st !! key with
    | None => (Some tt, st, [])
    | Some e =>
        if executed e then (Some tt, st, []) else
        (Some tt, set_log st (<[key := mkEntry (e_view e) (e_seq e) (e_digest e)
             (e_client_id e) (e_request_id e) (e_payload e) (prepares e)
             (commits e) (prepared e) (committed e) true (Some (e_payload e))
             (Some "")]> (log st)), [])
    end.
Proof.
  unfold execute. unfold_M. destruct (lock_held st) eqn:L; [reflexivity|].
  cbn [log set_lock_held].
  destruct (log st !! key) as [e|]; [destruct (executed e)|]; cbn; unlock L; reflexivity.
Qed.

(** [raise_view] leaves the lock as it is. *)
Lemma raise_view_lock st v : lock_held (raise_view st v) = lock_held st.
Proof. unfold raise_view. by case_match. Qed.

Lemma raise_view_not_lt st v : (view st <? v) = false → raise_view st v = st.
Proof. unfold raise_view. by intros ->. Qed.

Lemma on_commit_spec req st :
  let st1 := raise_view st (c_view req) in
  let key := (c_view req, c_seq req) in
  let pkey := (c_view req, c_seq req, c_digest req) in
  let '(a, st', out) := on_commit req st in
  out = [] ∧
  ( (alive st = false ∧ a = Some (ack false "node is not alive") ∧ st' = st)
  ∨ (alive st = true ∧ lock_held st = true ∧ a = None ∧ st' = st)
  ∨ (alive st = true ∧ c_view req ≠ view st1 ∧ a = Some (ack false "wrong view") ∧ st' = st1)
  ∨ (alive st = true ∧ lock_held st = false ∧ c_view req = view st1 ∧
     log st !! key = None ∧ a = Some (ack true "buffered") ∧
     st' = set_pending_commits st1
             (<[pkey := {[c_replica_id req]} ∪ default ∅ (pending_commits st !! pkey)]>
                (pending_commits st)))
  ∨ (alive st = true ∧ lock_held st = false ∧ c_view req = view st1 ∧
     ∃ e, log st !! key = Some e ∧
     ((executed e = true ∧ a = Some (ack true "ignored (already executed)") ∧ st' = st1)
      ∨ (executed e = false ∧ e_digest e ≠ c_digest req ∧
         a = Some (ack false "digest mismatch") ∧ st' = st1)
      ∨ (executed e = false ∧ e_digest e = c_digest req ∧ a = Some (ack true "") ∧
         let cs := {[c_replica_id req]} ∪ commits e in
         let became := prepared e && negb (committed e)
                       && (quorum_commit st <=? Z.of_nat (size cs)) in
         st' = set_log st1 (<[key := mkEntry (e_view e) (e_seq e) (e_digest e)
                 (e_client_id e) (e_request_id e) (e_payload e) (prepares e) cs
                 (prepared e) (committed e || became) became
                 (if became then Some (e_payload e) else result e)
                 (if became then Some "" else error e)]> (log st)))))).
Proof.
  unfold on_commit. unfold_M.
  destruct (alive st) eqn:Ha; cbn [negb]; [|auto].
  destruct (lock_held st) eqn:L.
  { rewrite (observe_view_held _ _ _ L).
    destruct (view st <? c_view req) eqn:E; cbn.
    { split; [done|]. right; left; auto. }
    rewrite (raise_view_not_lt _ _ E).
    case_bool_decide as Hv; cbn; [split; [done|]; right; right; left; auto|].
    rewrite L. cbn. split; [done|]. right; left; auto. }
  rewrite (observe_view_free _ _ _ L). cbv beta iota.
  set (st1 := raise_view st (c_view req)).
  assert (L1 : lock_held st1 = false) by (subst st1; by rewrite raise_view_lock).
  assert (Hlog : log st1 = log st) by (subst st1; unfold raise_view; by case_match).
  assert (Hq : quorum_commit st1 = quorum_commit st) by (subst st1; unfold raise_view; by case_match).
  assert (Hpc : pending_commits st1 = pending_commits st)
    by (subst st1; unfold raise_view; by case_match).
  case_bool_decide as Hv; [cbn; split; [reflexivity|]; right; right; left; auto|].
  try apply dec_stable in Hv.
  rewrite L1. autorewrite with lockdb.
  rewrite Hlog. destruct (log st !! (c_view req, c_seq req)) as [e|] eqn:He.
  - destruct (executed e) eqn:Hx.
    { cbn; split; [reflexivity|]; right; right; right; right. unlock L1.
      do 2 (split; [done|]). split; [done|].
      exists e. split; [done|]. left; auto. }
    case_bool_decide as Hd.
    { cbn; split; [reflexivity|]; right; right; right; right. unlock L1.
      do 2 (split; [done|]). split; [done|].
      exists e. split; [done|]. right; left; auto. }
    try apply dec_stable in Hd.
    rewrite Hq.
    destruct (prepared e && negb (committed e) && (quorum_commit st <=? Z.of_nat (size ({[c_replica_id req]} ∪ commits e)))) eqn:Hb.
    + cbn. rewrite execute_run. cbn. unlock L1. rewrite ?L1. cbn. rewrite lookup_insert_eq. cbn. rewrite Hx. cbn.
      split; [reflexivity|]. right; right; right; right. do 2 (split; [done|]). split; [done|].
      exists e. split; [done|]. right; right. split; [done|]. split; [done|].
      split; [done|]. rewrite Hb. cbn. rewrite set_log_set_log, insert_insert_eq.
      destruct (prepared e), (committed e); done.
    + cbn. split; [reflexivity|]. right; right; right; right. unlock L1.
      do 2 (split; [done|]). split; [done|].
      exists e. split; [done|]. right; right. split; [done|]. split; [done|].
      split; [done|]. rewrite Hb. cbn. unfold entry_with_flags, entry_with_sets. cbn.
      rewrite Hx. destruct (committed e); done.
  - cbn. split; [reflexivity|]. right; right; right; left. unlock L1.
    rewrite Hpc. auto 10.
Qed.

Lemma raise_view_fields st v :
  node_id (raise_view st v) = node_id st ∧ peers (raise_view st v) = peers st ∧
  alive (raise_view st v) = alive st ∧ byzantine (raise_view st v) = byzantine st ∧
  log (raise_view st v) = log st ∧
  pending_prepares (raise_view st v) = pending_prepares st ∧
  pending_commits (raise_view st v) = pending_commits st ∧
  conflicting_prepares (raise_view st v) = conflicting_prepares st ∧
  quorum_prepare (raise_view st v) = quorum_prepare st ∧
  quorum_commit (raise_view st v) = quorum_commit st ∧
  f (raise_view st v) = f st ∧
  view (raise_view st v) = Z.max (view st) v.
Proof. unfold raise_view. destruct (view st <? v) eqn:E; cbn; repeat split; lia. Qed.

(** With the lock free, [on_commit] returns, and leaves the lock free. *)
Lemma on_commit_returns req st :
  lock_held st = false →
  ∃ a, (on_commit req st).1.1 = Some a ∧ lock_held (on_commit req st).1.2 = false.
Proof.
  intros L. pose proof (on_commit_spec req st) as H. cbv zeta in H.
  destruct (on_commit req st) as [[a st'] out]. cbn.
  destruct H as [_ [(_ & -> & ->)|[(_ & L' & _)|[(_ & _ & -> & ->)|[(_ & _ & _ & _ & -> & ->)|
    (_ & _ & _ & e & _ & [(_ & -> & ->)|[(_ & _ & -> & ->)|(_ & _ & -> & ->)]])]]]]];
    try congruence; eexists; split; try reflexivity; cbn; by rewrite ?raise_view_lock.
Qed.

Lemma on_prepare_spec req st :
  let st1 := raise_view st (p_view req) in
  let key := (p_view req, p_seq req) in
  let pkey := (p_view req, p_seq req, p_digest req) in
  let '(a, st', out) := on_prepare req st in
  (alive st = false ∧ a = Some (ack false "node is not alive") ∧ st' = st ∧ out = [])
  ∨ (alive st = true ∧ lock_held st = true ∧ a = None ∧ st' = st ∧ out = [])
  ∨ (alive st = true ∧ p_view req ≠ view st1 ∧ a = Some (ack false "wrong view") ∧
     st' = st1 ∧ out = [])
  ∨ (alive st = true ∧ lock_held st = false ∧ p_view req = view st1 ∧
     log st !! key = None ∧ a = Some (ack true "buffered") ∧ out = [] ∧
     st' = set_pending_prepares st1
             (<[pkey := {[p_replica_id req]} ∪ default ∅ (pending_prepares st !! pkey)]>
                (pending_prepares st)))
  ∨ (alive st = true ∧ lock_held st = false ∧ p_view req = view st1 ∧
     ∃ e, log st !! key = Some e ∧
     ((executed e = true ∧ a = Some (ack true "ignored (already executed)") ∧ st' = st1 ∧
       out = [])
      ∨ (executed e = false ∧ e_digest e ≠ p_digest req ∧ out = [] ∧
         let cset := {[p_replica_id req]} ∪ default ∅ (conflicting_prepares st !! key) in
         let st2 := set_conflicting_prepares st1
                      (<[key := cset]> (conflicting_prepares st)) in
         if f st + 1 <=? Z.of_nat (size cset) then
           a = None ∧ st' = set_lock_held st2 true
         else a = Some (ack false "digest mismatch") ∧ st' = st2)
      ∨ (executed e = false ∧ e_digest e = p_digest req ∧ a = Some (ack true "") ∧
         let ps := {[p_replica_id req]} ∪ prepares e in
         let became := negb (prepared e) && (quorum_prepare st <=? Z.of_nat (size ps)) in
         let st2 := set_log st1 (<[key := mkEntry (e_view e) (e_seq e) (e_digest e)
                 (e_client_id e) (e_request_id e) (e_payload e) ps (commits e)
                 (prepared e || became) (committed e) (executed e) (result e)
                 (error e)]> (log st)) in
         if became then
           let commit := mkCommit (p_view req) (p_seq req)
                           (maybe_corrupt_digest st (p_digest req)) (node_id st) in
           st' = (on_commit commit st2).1.2 ∧
           out = map (λ peer, SendCommit peer commit) (peers st) ++ (on_commit commit st2).2
         else st' = st2 ∧ out = []))).
Proof.
  unfold on_prepare. unfold_M.
  destruct (alive st) eqn:Ha; cbn [negb]; [|auto].
  destruct (lock_held st) eqn:L.
  { rewrite (observe_view_held _ _ _ L).
    destruct (view st <? p_view req) eqn:E; cbn; [right; left; auto|].
    rewrite (raise_view_not_lt _ _ E).
    case_bool_decide as Hv; cbn; [right; right; left; auto|].
    rewrite L. cbn. right; left; auto. }
  rewrite (observe_view_free _ _ _ L). cbv beta iota.
  set (st1 := raise_view st (p_view req)).
  assert (L1 : lock_held st1 = false) by (subst st1; by rewrite raise_view_lock).
  pose proof (raise_view_fields st (p_view req)) as
    (Hn & Hp & Ha1 & Hb1 & Hlog & Hpp & Hpc & Hcp & Hqp & Hqc & Hf & Hview).
  fold st1 in Hn, Hp, Ha1, Hb1, Hlog, Hpp, Hpc, Hcp, Hqp, Hqc, Hf, Hview.
  case_bool_decide as Hv; [cbn; right; right; left; auto|].
  try apply dec_stable in Hv.
  rewrite L1. autorewrite with lockdb.
  rewrite Hlog. destruct (log st !! (p_view req, p_seq req)) as [e|] eqn:He.
  - destruct (executed e) eqn:Hx.
    { cbn. right; right; right; right. unlock L1. do 2 (split; [done|]). split; [done|].
      exists e. split; [done|]. left; auto. }
    case_bool_decide as Hd.
    + rewrite Hf, Hcp. destruct (f st + 1 <=? _) eqn:Hc.
      * cbn. rewrite set_view_run. cbn.
        destruct (view st1 + 1 <=? view st1) eqn:E; [lia|].
        cbn. right; right; right; right. do 2 (split; [done|]). split; [done|].
        exists e. split; [done|]. right; left. do 3 (split; [done|]).
        cbn. split; reflexivity.
      * cbn. right; right; right; right. do 2 (split; [done|]). split; [done|].
        exists e. split; [done|]. right; left. do 3 (split; [done|]).
        cbn. unlock L1. split; reflexivity.
    + try apply dec_stable in Hd. rewrite Hqp.
      destruct (negb (prepared e) && _) eqn:Hbec.
      * cbn. rewrite for_each_emit_run. cbn. unlock L1.
        lazymatch goal with
        | |- context [on_commit ?c ?s] =>
            destruct (on_commit_returns c s ltac:(exact L1)) as (a3 & Ha3 & _);
            destruct (on_commit c s) as [[a3' st3] o3] eqn:Hc3
        end.
        cbn in Ha3. subst a3'. cbn.
        right; right; right; right. do 2 (split; [done|]). split; [done|].
        exists e. split; [done|]. right; right. do 3 (split; [done|]).
        cbn. rewrite Hbec. cbn.
        unfold entry_with_flags, entry_with_sets in Hc3. cbn in Hc3.
        assert (Hmc : ∀ L d, maybe_corrupt_digest (set_log st1 L) d = maybe_corrupt_digest st d)
          by (intros; unfold maybe_corrupt_digest; cbn; by rewrite Hb1).
        rewrite Hmc, Hn in Hc3. rewrite !Hmc, Hn, Hp.
        unfold entry_with_flags, entry_with_sets. cbn. rewrite Hc3. cbn.
        rewrite app_nil_r. split; reflexivity.
      * cbn. right; right; right; right. do 2 (split; [done|]). split; [done|].
        exists e. split; [done|]. right; right. do 3 (split; [done|]).
        cbn. rewrite Hbec. cbn. unlock L1. split; reflexivity.
  - cbn. right; right; right; left. unlock L1. rewrite Hpp. auto 10.
Qed.

Lemma multicast_prepare_run v s d st :
  multicast_prepare v s d st =
    if bool_decide (node_id st = primary_id st) then (Some tt, st, []) else
    let prepare := mkPrepare v s (maybe_corrupt_digest st d) (node_id st) in
    let '(r, st', o) := on_prepare prepare st in
    (option_map (λ _, tt) r, st', map (λ peer, SendPrepare peer prepare) (peers st) ++ o).
Proof.
  unfold multicast_prepare. unfold_M.
  case_bool_decide; [reflexivity|].
  rewrite for_each_emit_run. cbn.
  destruct (on_prepare _ st) as [[[a|] st'] o]; cbn; by rewrite ?app_nil_r.
Qed.

(** The state after the locked section of [on_pre_prepare]. *)
Lemma accept_pre_prepare_run req st :
  let key := (pp_view req, pp_seq req) in
  let pkey := (pp_view req, pp_seq req, pp_digest req) in
  let r := pp_request req in
  let log1 := match log st !! key with
              | Some _ => log st
              | None => <[key := new_entry (pp_view req) (pp_seq req) (pp_digest req)
                                  (client_id r) (request_id r) (payload r)]> (log st)
              end in
  let entry := default (new_entry 0 0 "" "" "" "") (log1 !! key) in
  accept_pre_prepare req st =
    if lock_held st then (None, st, []) else
    (Some tt, mkState (node_id st) (peers st) (alive st) (byzantine st) (view st)
         (next_seq st)
         (<[key := entry_with_sets entry
                     (prepares entry ∪ default ∅ (pending_prepares st !! pkey))
                     (commits entry ∪ default ∅ (pending_commits st !! pkey))]> log1)
         (delete pkey (pending_prepares st)) (delete pkey (pending_commits st))
         (conflicting_prepares st) false, []).
Proof. unfold accept_pre_prepare. unfold_M. by destruct (lock_held st). Qed.

Lemma on_pre_prepare_spec req b st :
  let st1 := raise_view st (pp_view req) in
  let '(a, st', out) := on_pre_prepare req b st in
  (alive st = false ∧ a = Some (ack false "node is not alive") ∧ st' = st ∧ out = [])
  ∨ (alive st = true ∧ lock_held st = true ∧ a = None ∧ st' = st ∧ out = [])
  ∨ (alive st = true ∧ pp_view req ≠ view st1 ∧ a = Some (ack false "wrong view") ∧
     st' = st1 ∧ out = [])
  ∨ (alive st = true ∧ pp_view req = view st1 ∧ pp_primary_id req ≠ primary_id st1 ∧
     a = Some (ack false "wrong primary") ∧ st' = st1 ∧ out = [])
  ∨ (alive st = true ∧ lock_held st = false ∧ pp_view req = view st1 ∧
     pp_primary_id req = primary_id st1 ∧
     digest (pp_request req) ≠ pp_digest req ∧ a = Some (ack false "digest mismatch") ∧
     st' = set_view_field st1 (view st1 + 1) ∧
     out = map (λ pid, SendSetView pid (mkSetView (view st1 + 1) (node_id st)
                 (pre_prepare_reason (primary_id (set_view_field st1 (view st1 + 1))))))
             (peers st))
  ∨ (alive st = true ∧ lock_held st = false ∧ pp_view req = view st1 ∧
     pp_primary_id req = primary_id st1 ∧ digest (pp_request req) = pp_digest req ∧
     let st2 := (accept_pre_prepare req st1).1.2 in
     if b then
       (a, st', out) = let '(r3, st3, o3) :=
                         multicast_prepare (pp_view req) (pp_seq req) (pp_digest req) st2 in
                       (option_map (λ _, ack true "") r3, st3, o3)
     else a = Some (ack true "") ∧ st' = st2 ∧ out = []).
Proof.
  unfold on_pre_prepare. unfold_M.
  destruct (alive st) eqn:Ha; cbn [negb]; [|auto].
  destruct (lock_held st) eqn:L.
  { rewrite (observe_view_held _ _ _ L).
    destruct (view st <? pp_view req) eqn:E; cbn; [right; left; auto|].
    rewrite (raise_view_not_lt _ _ E).
    case_bool_decide as Hv; [cbn; right; right; left; auto|].
    case_bool_decide as Hpr; [cbn; right; right; right; left; repeat split; auto|].
    case_bool_decide as Hd.
    - rewrite set_view_run, L. destruct (view st + 1 <=? view st) eqn:E'; [lia|].
      cbn. right; left; auto.
    - rewrite accept_pre_prepare_run, L. cbn. right; left; auto. }
  rewrite (observe_view_free _ _ _ L). cbv beta iota.
  set (st1 := raise_view st (pp_view req)).
  assert (L1 : lock_held st1 = false) by (subst st1; by rewrite raise_view_lock).
  pose proof (raise_view_fields st (pp_view req)) as
    (Hn & Hp & Ha1 & Hb1 & Hlog & Hpp & Hpc & Hcp & Hqp & Hqc & Hf & Hview).
  fold st1 in Hn, Hp, Ha1, Hb1, Hlog, Hpp, Hpc, Hcp, Hqp, Hqc, Hf, Hview.
  case_bool_decide as Hv; [cbn; right; right; left; auto|].
  try apply dec_stable in Hv.
  case_bool_decide as Hpr; [cbn; right; right; right; left; repeat split; auto|].
  try apply dec_stable in Hpr.
  case_bool_decide as Hd.
  - rewrite set_view_run, L1. destruct (view st1 + 1 <=? view st1) eqn:E; [lia|].
    cbn. rewrite broadcast_set_view_run. cbn. rewrite Hn, Hp, app_nil_r.
    right; right; right; right; left. auto 10.
  - try apply dec_stable in Hd. cbn.
    destruct (accept_pre_prepare req st1) as [[u st2] o2] eqn:Hacc.
    rewrite accept_pre_prepare_run, L1 in Hacc. injection Hacc as <- <- <-.
    cbn. destruct b.
    + destruct (multicast_prepare _ _ _ _) as [[[u3|] st3] o3]; cbn;
        right; right; right; right; right; do 5 (split; [done|]); by rewrite ?app_nil_r.
    + cbn. right; right; right; right; right. do 5 (split; [done|]). done.
Qed.

(** ** The failover loop *)

Lemma ensure_loop_run_S ping_ok i k st :
  ensure_loop ping_ok i (S k) st =
    let pid := primary_id st in
    if bool_decide (pid = node_id st) then (Some true, st, []) else
    let ping := if bool_decide (pid ∈ peers st) then [SendPing pid] else [] in
    if bool_decide (pid ∈ peers st) && ping_ok i then (Some true, st, ping ++ []) else
    if lock_held st then (None, st, ping ++ []) else
    let st2 := set_view_field st (view st + 1) in
    let '(b, st3, o3) := ensure_loop ping_ok (S i) k st2 in
    (b, st3, ping ++ ([] ++ (map (λ q, SendSetView q (mkSetView (view st + 1) (node_id st)
                                   (failover_reason pid))) (peers st) ++ o3))).
Proof.
  cbn [ensure_loop]. unfold_M.
  case_bool_decide; [reflexivity|].
  destruct (bool_decide (primary_id st ∈ peers st)) eqn:Hc; cbn [andb].
  - change (emit (SendPing (primary_id st)) st) with (Some (), st, [SendPing (primary_id st)]).
    cbn. destruct (ping_ok i); [reflexivity|].
    rewrite set_view_run. destruct (view st + 1 <=? view st) eqn:E; [lia|].
    destruct (lock_held st); [reflexivity|].
    cbn. rewrite broadcast_set_view_run. cbn.
    destruct (ensure_loop _ _ _ _) as [[b st3] o3]. reflexivity.
  - cbn. rewrite set_view_run. destruct (view st + 1 <=? view st) eqn:E; [lia|].
    destruct (lock_held st); [reflexivity|].
    cbn. rewrite broadcast_set_view_run. cbn.
    destruct (ensure_loop _ _ _ _) as [[b st3] o3]. reflexivity.
Qed.

Lemma ensure_loop_frame ping_ok i k st :
  let '(b, st', out) := ensure_loop ping_ok i k st in
  st' = set_view_field st (view st') ∧ view st <= view st' <= view st + Z.of_nat k.
Proof.
  revert i st. induction k as [|k IH]; intros i st.
  - cbn. unfold_M. rewrite set_view_field_same. split; [done|lia].
  - rewrite ensure_loop_run_S. cbn zeta.
    case_bool_decide; [rewrite set_view_field_same; split; [done|lia]|].
    destruct (bool_decide _ && ping_ok i); [rewrite set_view_field_same; split; [done|lia]|].
    destruct (lock_held st); [rewrite set_view_field_same; split; [done|lia]|].
    specialize (IH (S i) (set_view_field st (view st + 1))).
    destruct (ensure_loop _ _ _ _) as [[b st3] o3].
    destruct IH as [E Hv]. cbn in Hv. split; [rewrite E at 1; reflexivity | lia].
Qed.

(** [Some false] exactly when every iteration ran and raised the view, and
    the replica is not primary at the end; [None] when an iteration blocked
    on a held lock. *)
Lemma ensure_loop_false ping_ok i k st :
  let '(b, st', out) := ensure_loop ping_ok i k st in
  (b = Some false ↔ primary_id st' ≠ node_id st' ∧ view st' = view st + Z.of_nat k) ∧
  (b = Some true → primary_id st' = node_id st' ∨
     (primary_id st' ∈ peers st' ∧ ∃ j, (i <= j < i + k)%nat ∧ ping_ok j = true)) ∧
  (b = None → lock_held st = true ∧ st' = st).
Proof.
  revert i st. induction k as [|k IH]; intros i st.
  - cbn. unfold_M. case_bool_decide; split; intuition (try discriminate; try lia).
  - rewrite ensure_loop_run_S. cbn zeta.
    case_bool_decide as Hp; [split; [split; [discriminate|tauto]|split; [auto|discriminate]]|].
    destruct (bool_decide (primary_id st ∈ peers st)) eqn:Hc; cbn [andb].
    + destruct (ping_ok i) eqn:Hping.
      * split; [split; [discriminate|lia]|]. split; [|discriminate].
        intros _. right. split; [by apply bool_decide_eq_true in Hc|].
        exists i. split; [lia|done].
      * destruct (lock_held st) eqn:L.
        { split; [split; [discriminate|lia]|]. split; [discriminate|auto]. }
        specialize (IH (S i) (set_view_field st (view st + 1))).
        destruct (ensure_loop _ _ _ _) as [[b st3] o3].
        destruct IH as [[IH1 IH2] [IH3 IH4]]. cbn in IH1.
        split; [split; [intros Hb; destruct (IH1 Hb); split; [done|lia]
                       |intros [? ?]; apply IH2; cbn; split; [done|lia]]|].
        split; [|intros Hb; destruct (IH4 Hb) as [L' _]; cbn in L'; congruence].
        intros Hb. destruct (IH3 Hb) as [?|(? & j & ? & ?)]; [auto|].
        right. split; [done|]. exists j. split; [lia|done].
    + destruct (lock_held st) eqn:L.
      { split; [split; [discriminate|lia]|]. split; [discriminate|auto]. }
      specialize (IH (S i) (set_view_field st (view st + 1))).
      destruct (ensure_loop _ _ _ _) as [[b st3] o3].
      destruct IH as [[IH1 IH2] [IH3 IH4]]. cbn in IH1.
      split; [split; [intros Hb; destruct (IH1 Hb); split; [done|lia]
                       |intros [? ?]; apply IH2; cbn; split; [done|lia]]|].
      split; [|intros Hb; destruct (IH4 Hb) as [L' _]; cbn in L'; congruence].
      intros Hb. destruct (IH3 Hb) as [?|(? & j & ? & ?)]; [auto|].
      right. split; [done|]. exists j. split; [lia|done].
Qed.

(** ** The frame relations *)

Lemma quorums_eq st st' :
  node_id st' = node_id st → peers st' = peers st →
  quorum_prepare st' = quorum_prepare st ∧ quorum_commit st' = quorum_commit st.
Proof.
  intros Hn Hp. unfold quorum_prepare, quorum_commit, f, n, replica_ids.
  rewrite Hn, Hp. auto.
Qed.

Lemma entry_grows_refl e : entry_grows e e.
Proof. unfold entry_grows. repeat split; auto. Qed.

Lemma entry_grows_trans e1 e2 e3 :
  entry_grows e1 e2 → entry_grows e2 e3 → entry_grows e1 e3.
Proof.
  unfold entry_grows. intros (? & ? & ? & ? & ?) (? & ? & ? & ? & ?).
  repeat split; auto; [congruence|set_solver|set_solver].
Qed.

Lemma size_mono (X Y : gset Z) : X ⊆ Y → Z.of_nat (size X) <= Z.of_nat (size Y).
Proof. intros H. apply subseteq_size in H. lia. Qed.

Lemma entry_step_refl qp qc e : entry_step qp qc (Some e) e.
Proof.
  right. exists e. split; [done|]. split; [apply entry_grows_refl|]. auto.
Qed.

Lemma entry_step_trans qp qc eo e2 e3 :
  entry_step qp qc eo e2 → entry_step qp qc (Some e2) e3 → entry_step qp qc eo e3.
Proof.
  intros H12 [Hq3|(e2' & [= <-] & Hg23 & Hp23 & Hc23)]; [by left|].
  pose proof Hg23 as (_ & Hps & Hcs & Hpp & Hcc).
  apply size_mono in Hps, Hcs.
  destruct H12 as [[Hq2p Hq2c]|(e1 & -> & Hg12 & Hp12 & Hc12)].
  - left. split.
    + intros Hp3. destruct (Hp23 Hp3) as [Hp2|]; [specialize (Hq2p Hp2); lia|lia].
    + intros Hc3. destruct (Hc23 Hc3) as [Hc2|[]]; [|auto].
      destruct (Hq2c Hc2) as [Hp2 ?]. split; [auto|lia].
  - right. exists e1. split; [done|]. split; [eapply entry_grows_trans; eauto|]. split.
    + intros Hp3. destruct (Hp23 Hp3) as [Hp2|]; [|auto].
      destruct (Hp12 Hp2); [auto|right; lia].
    + intros Hc3. destruct (Hc23 Hc3) as [Hc2|[]]; [|auto].
      destruct (Hc12 Hc2) as [|[? ?]]; [auto|right; split; [auto|lia]].
Qed.

Lemma log_step_refl qp qc st st' : log st' = log st → log_step qp qc st st'.
Proof. intros Hl k e' He. rewrite Hl in He. rewrite He. apply entry_step_refl. Qed.

Lemma log_step_trans qp qc st1 st2 st3 :
  log_step qp qc st1 st2 → log_step qp qc st2 st3 → log_step qp qc st1 st3.
Proof.
  intros H12 H23 k e3 He3. specialize (H23 k e3 He3).
  destruct (log st2 !! k) as [e2|] eqn:He2.
  - eapply entry_step_trans; [apply H12; exact He2|exact H23].
  - destruct H23 as [Hq|(? & ? & _)]; [by left|discriminate].
Qed.

Lemma log_step_insert qp qc st st' k e' :
  log st' = <[k := e']> (log st) → entry_step qp qc (log st !! k) e' →
  log_step qp qc st st'.
Proof.
  intros Hl He k2 e2 H2. rewrite Hl in H2.
  destruct (decide (k = k2)) as [<-|Hne].
  - rewrite lookup_insert_eq in H2. by injection H2 as <-.
  - rewrite lookup_insert_ne in H2 by done. rewrite H2. apply entry_step_refl.
Qed.

Lemma evolves_refl st : evolves st st.
Proof. repeat split; [lia|]. by apply log_step_refl. Qed.

Lemma evolves_trans st1 st2 st3 : evolves st1 st2 → evolves st2 st3 → evolves st1 st3.
Proof.
  intros (Hn & Hp & Hv & Hl) (Hn' & Hp' & Hv' & Hl').
  destruct (quorums_eq st1 st2 Hn Hp) as [Hqp Hqc]. rewrite Hqp, Hqc in Hl'.
  repeat split; [congruence|congruence|lia|]. eapply log_step_trans; eauto.
Qed.

Lemma log_keeps_refl st st' : log st' = log st → log_keeps st st'.
Proof. intros Hl k e He. exists e. rewrite Hl. split; [done|apply entry_grows_refl]. Qed.

Lemma log_keeps_trans st1 st2 st3 :
  log_keeps st1 st2 → log_keeps st2 st3 → log_keeps st1 st3.
Proof.
  intros H12 H23 k e1 He1. destruct (H12 k e1 He1) as (e2 & He2 & Hg12).
  destruct (H23 k e2 He2) as (e3 & He3 & Hg23). exists e3.
  split; [done|]. eapply entry_grows_trans; eauto.
Qed.

Lemma pending_keeps_refl st st' :
  pending_prepares st' = pending_prepares st → pending_commits st' = pending_commits st →
  pending_keeps st st'.
Proof. intros Hp Hc v s d _. by rewrite Hp, Hc. Qed.

Lemma pending_keeps_trans st1 st2 st3 :
  log_keeps st1 st2 → pending_keeps st1 st2 → pending_keeps st2 st3 →
  pending_keeps st1 st3.
Proof.
  intros Hk H12 H23 v s d [e1 He1].
  destruct (Hk _ _ He1) as (e2 & He2 & _).
  destruct (H23 v s d (mk_is_Some _ _ He2)) as [-> ->].
  by destruct (H12 v s d (mk_is_Some _ _ He1)) as [-> ->].
Qed.

Lemma frame_refl st : frame st st.
Proof.
  split; [apply evolves_refl|]. split; [done|]. split; [done|].
  split; [by apply log_keeps_refl|by apply pending_keeps_refl].
Qed.

Lemma frame_trans st1 st2 st3 : frame st1 st2 → frame st2 st3 → frame st1 st3.
Proof.
  intros (He & Hb & Ha & Hk & Hp) (He' & Hb' & Ha' & Hk' & Hp').
  split; [eapply evolves_trans; eauto|]. split; [congruence|]. split; [congruence|].
  split; [eapply log_keeps_trans; eauto|eapply pending_keeps_trans; eauto].
Qed.

Lemma frame_evolves st st' : frame st st' → evolves st st'.
Proof. by intros []. Qed.

(** A call that leaves the log and the buffers alone. *)
Lemma frame_same_log st st' :
  node_id st' = node_id st → peers st' = peers st → byzantine st' = byzantine st →
  alive st' = alive st → view st <= view st' → log st' = log st →
  pending_prepares st' = pending_prepares st → pending_commits st' = pending_commits st →
  frame st st'.
Proof.
  intros. split; [repeat split; auto; by apply log_step_refl|].
  split; [done|]. split; [done|].
  split; [by apply log_keeps_refl|by apply pending_keeps_refl].
Qed.

(** A call that grows one entry in place. *)
Lemma frame_grow_entry st st' k e e' :
  node_id st' = node_id st → peers st' = peers st → byzantine st' = byzantine st →
  alive st' = alive st → view st <= view st' →
  log st !! k = Some e → log st' = <[k := e']> (log st) → entry_grows e e' →
  (prepared e' = true → prepared e = true ∨
     quorum_prepare st <= Z.of_nat (size (prepares e'))) →
  (committed e' = true → committed e = true ∨
     (prepared e' = true ∧ quorum_commit st <= Z.of_nat (size (commits e')))) →
  pending_prepares st' = pending_prepares st → pending_commits st' = pending_commits st →
  frame st st'.
Proof.
  intros Hn Hp Hb Ha Hv He Hl Hg Hpp Hcc Hpe Hce.
  split; [repeat split; auto|].
  { eapply log_step_insert; [exact Hl|]. rewrite He. right. eexists; eauto. }
  split; [done|]. split; [done|]. split; [|by apply pending_keeps_refl].
  intros k2 e2 H2. rewrite Hl. destruct (decide (k = k2)) as [<-|Hne].
  - rewrite He in H2. injection H2 as <-. rewrite lookup_insert_eq. eauto.
  - rewrite lookup_insert_ne by done. exists e2. split; [done|apply entry_grows_refl].
Qed.

Lemma frame_raise_view st v : frame st (raise_view st v).
Proof.
  pose proof (raise_view_fields st v) as
    (Hn & Hp & Ha & Hb & Hl & Hpp & Hpc & _ & _ & _ & _ & Hv).
  apply frame_same_log; auto. lia.
Qed.

(** Buffering at a slot that has no entry. *)
Lemma frame_buffer st st' v s d :
  node_id st' = node_id st → peers st' = peers st → byzantine st' = byzantine st →
  alive st' = alive st → view st <= view st' → log st' = log st →
  log st !! (v, s) = None →
  (∀ pk, pk ≠ (v, s, d) → pending_prepares st' !! pk = pending_prepares st !! pk) →
  (∀ pk, pk ≠ (v, s, d) → pending_commits st' !! pk = pending_commits st !! pk) →
  frame st st'.
Proof.
  intros Hn Hp Hb Ha Hv Hl Hnone Hpp Hpc.
  split; [repeat split; auto; by apply log_step_refl|].
  split; [done|]. split; [done|]. split; [by apply log_keeps_refl|].
  intros v' s' d' [e He].
  assert ((v', s', d') ≠ (v, s, d)) by (intros [= -> -> ->]; congruence).
  split; auto.
Qed.

Lemma on_commit_frame req st : frame st (on_commit req st).1.2.
Proof.
  pose proof (on_commit_spec req st) as H.
  pose proof (frame_raise_view st (c_view req)) as Hr.
  pose proof (raise_view_fields st (c_view req)) as
    (Hn & Hp & Ha & Hb & Hl & Hpp & Hpc & Hcp & Hqp & Hqc & Hf & Hv).
  destruct (on_commit req st) as [[a st'] out]. cbn.
  destruct H as [_ [(_ & _ & ->)|[(_ & _ & _ & ->)|[(_ & _ & _ & ->)|
    [(_ & _ & _ & Hnone & _ & ->)|
    (_ & _ & _ & e & He & [(_ & _ & ->)|[(_ & _ & _ & ->)|(Hx & Hd & _ & ->)]])]]]]];
    try done; try apply frame_refl.
  - apply (frame_buffer _ _ (c_view req) (c_seq req) (c_digest req)); cbn; auto; [lia|..].
    + intros pk _. by rewrite Hpp.
    + intros pk Hne. by rewrite lookup_insert_ne by congruence.
  - eapply frame_grow_entry; cbn; auto; [lia|exact He|..].
    + unfold entry_grows; cbn. split; [done|]. split; [done|]. split; [set_solver|].
      split; [done|]. intros ->; done.
    + cbn. auto.
    + cbn. intros Hc. destruct (committed e); [auto|].
      right. cbn in Hc. apply andb_prop in Hc as [Hc Hq].
      apply andb_prop in Hc as [Hc _]. split; [done|]. apply Z.leb_le in Hq. done.
Qed.

Lemma on_prepare_frame req st : frame st (on_prepare req st).1.2.
Proof.
  pose proof (on_prepare_spec req st) as H.
  pose proof (frame_raise_view st (p_view req)) as Hr.
  pose proof (raise_view_fields st (p_view req)) as
    (Hn & Hp & Ha & Hb & Hl & Hpp & Hpc & Hcp & Hqp & Hqc & Hf & Hv).
  destruct (on_prepare req st) as [[a st'] out]. cbn.
  destruct H as [(_ & _ & -> & _)|[(_ & _ & _ & -> & _)|[(_ & _ & _ & -> & _)|
    [(_ & _ & _ & Hnone & _ & _ & ->)|
    (_ & _ & _ & e & He & [(_ & _ & -> & _)|[(Hx & Hd & _ & Hm)|(Hx & Hd & _ & Hacc)]])]]]];
    try done; try apply frame_refl.
  - apply (frame_buffer _ _ (p_view req) (p_seq req) (p_digest req)); cbn; auto; [lia|..].
    + intros pk Hne. by rewrite lookup_insert_ne by congruence.
    + intros pk _. by rewrite Hpc.
  - cbv zeta in Hm. destruct (f st + 1 <=? _); destruct Hm as [_ ->];
      apply frame_same_log; cbn; auto; lia.
  - cbv zeta in Hacc.
    set (ps := {[p_replica_id req]} ∪ prepares e) in Hacc.
    set (became := negb (prepared e) && (quorum_prepare st <=? Z.of_nat (size ps))) in Hacc.
    set (e' := mkEntry (e_view e) (e_seq e) (e_digest e) (e_client_id e) (e_request_id e)
                 (e_payload e) ps (commits e) (prepared e || became) (committed e)
                 (executed e) (result e) (error e)) in Hacc.
    set (st2 := set_log (raise_view st (p_view req)) (<[(p_view req, p_seq req) := e']> (log st))) in Hacc.
    assert (H2 : frame st st2).
    { eapply frame_grow_entry; cbn; auto; [lia|exact He|..].
      - unfold entry_grows; cbn. split; [done|]. split; [set_solver|]. split; [done|].
        split; [intros ->; done|done].
      - cbn. intros Hpr. destruct (prepared e); [auto|]. right.
        cbn in Hpr. subst became. cbn in Hpr. by apply Z.leb_le in Hpr.
      - cbn. auto. }
    destruct became; destruct Hacc as [-> _]; [|done].
    eapply frame_trans; [exact H2|apply on_commit_frame].
Qed.

Lemma multicast_prepare_frame v s d st : frame st (multicast_prepare v s d st).1.2.
Proof.
  rewrite multicast_prepare_run. case_bool_decide; [apply frame_refl|].
  pose proof (on_prepare_frame (mkPrepare v s (maybe_corrupt_digest st d) (node_id st)) st) as Hf.
  cbv zeta. destruct (on_prepare _ st) as [[a st'] o]. exact Hf.
Qed.

(** ** Accepting a PRE-PREPARE *)

Lemma accept_pre_prepare_fields req st :
  let st2 := (accept_pre_prepare req st).1.2 in
  node_id st2 = node_id st ∧ peers st2 = peers st ∧ byzantine st2 = byzantine st ∧
  alive st2 = alive st ∧ view st2 = view st ∧
  conflicting_prepares st2 = conflicting_prepares st ∧
  (lock_held st = false →
   pending_prepares st2 = delete (pp_view req, pp_seq req, pp_digest req) (pending_prepares st) ∧
   pending_commits st2 = delete (pp_view req, pp_seq req, pp_digest req) (pending_commits st)).
Proof.
  rewrite accept_pre_prepare_run. destruct (lock_held st); cbn; repeat split; discriminate.
Qed.

(** Every entry after the locked section: an old entry with its buffers
    added and its flags unchanged, or a new one with all flags off. *)
Lemma accept_pre_prepare_entry req st k e' :
  log (accept_pre_prepare req st).1.2 !! k = Some e' →
  (∃ e, log st !! k = Some e ∧ entry_grows e e' ∧ prepared e' = prepared e ∧
        committed e' = committed e ∧ executed e' = executed e) ∨
  (log st !! k = None ∧ prepared e' = false ∧ committed e' = false ∧ executed e' = false).
Proof.
  rewrite accept_pre_prepare_run.
  destruct (lock_held st).
  { cbn. intros He'. left. exists e'. split; [done|]. split; [apply entry_grows_refl|auto]. }
  cbn. destruct (decide ((pp_view req, pp_seq req) = k)) as [<-|Hne].
  - rewrite lookup_insert_eq. intros [= <-].
    destruct (log st !! (pp_view req, pp_seq req)) as [e|] eqn:He.
    + left. exists e. rewrite He. cbn. split; [done|]. split; [|done].
      unfold entry_grows; cbn. split; [done|]. split; [set_solver|]. split; [set_solver|]. auto.
    + right. rewrite lookup_insert_eq. cbn. auto.
  - rewrite lookup_insert_ne by done. intros He'.
    left. exists e'. split; [|split; [apply entry_grows_refl|auto]].
    destruct (log st !! (pp_view req, pp_seq req)); [done|].
    by rewrite lookup_insert_ne in He' by done.
Qed.

Lemma accept_pre_prepare_keeps req st : log_keeps st (accept_pre_prepare req st).1.2.
Proof.
  intros k e He. rewrite accept_pre_prepare_run.
  destruct (lock_held st); [exists e; split; [done|apply entry_grows_refl]|].
  cbn. destruct (decide ((pp_view req, pp_seq req) = k)) as [<-|Hne].
  - rewrite He, lookup_insert_eq. cbn. rewrite He. eexists. split; [done|].
    unfold entry_grows; cbn. split; [done|]. split; [set_solver|]. split; [set_solver|]. auto.
  - rewrite lookup_insert_ne by done. exists e. split; [|apply entry_grows_refl].
    destruct (log st !! (pp_view req, pp_seq req)); [done|].
    by rewrite lookup_insert_ne by done.
Qed.

Lemma accept_pre_prepare_evolves req st : evolves st (accept_pre_prepare req st).1.2.
Proof.
  pose proof (accept_pre_prepare_fields req st) as (Hn & Hp & _ & _ & Hv & _).
  split; [done|]. split; [done|]. split; [lia|].
  intros k e' He'. destruct (accept_pre_prepare_entry req st k e' He')
    as [(e & He & Hg & Hpr & Hco & _)|(_ & Hpr & Hco & _)].
  - rewrite He. right. exists e. split; [done|]. split; [done|].
    split; intros Hx; left; congruence.
  - left. split; intros Hx; congruence.
Qed.

(** ** View monotonicity and the log relation for the other calls *)

Lemma evolves_same_log st st' :
  node_id st' = node_id st → peers st' = peers st → view st <= view st' →
  log st' = log st → evolves st st'.
Proof. intros. repeat split; auto. by apply log_step_refl. Qed.

Lemma on_commit_evolves req st : evolves st (on_commit req st).1.2.
Proof. apply frame_evolves, on_commit_frame. Qed.

Lemma on_prepare_evolves req st : evolves st (on_prepare req st).1.2.
Proof. apply frame_evolves, on_prepare_frame. Qed.

Lemma on_pre_prepare_evolves req b st : evolves st (on_pre_prepare req b st).1.2.
Proof.
  pose proof (on_pre_prepare_spec req b st) as H.
  pose proof (frame_evolves _ _ (frame_raise_view st (pp_view req))) as Hr.
  pose proof (raise_view_fields st (pp_view req)) as
    (Hn & Hp & Ha & Hb & Hl & Hpp & Hpc & Hcp & Hqp & Hqc & Hf & Hv).
  destruct (on_pre_prepare req b st) as [[a st'] out]. cbn.
  destruct H as [(_ & _ & -> & _)|[(_ & _ & _ & -> & _)|[(_ & _ & _ & -> & _)|
    [(_ & _ & _ & _ & -> & _)|[(_ & _ & _ & _ & _ & _ & -> & _)|
    (_ & _ & _ & _ & _ & Hacc)]]]]];
    try done; try apply evolves_refl.
  - apply evolves_same_log; cbn; auto. lia.
  - cbv zeta in Hacc.
    assert (H2 : evolves st (accept_pre_prepare req (raise_view st (pp_view req))).1.2)
      by (eapply evolves_trans; [exact Hr|apply accept_pre_prepare_evolves]).
    destruct b.
    + pose proof (multicast_prepare_frame (pp_view req) (pp_seq req) (pp_digest req)
        (accept_pre_prepare req (raise_view st (pp_view req))).1.2) as Hm.
      destruct (multicast_prepare _ _ _ _) as [[u3 st3] o3].
      injection Hacc as _ -> _.
      eapply evolves_trans; [exact H2|]. by apply frame_evolves.
    + by destruct Hacc as (_ & -> & _).
Qed.

Lemma ensure_live_primary_run ping_ok h st :
  ensure_live_primary ping_ok h st =
    ensure_loop ping_ok 0 (Z.to_nat (Z.max 1 (match h with Some h => h | None => n st end))) st.
Proof.
  unfold ensure_live_primary. rewrite bind_run. cbv beta iota delta [get].
  destruct (ensure_loop _ _ _ _) as [[b st'] o]. reflexivity.
Qed.

Lemma ensure_loop_evolves ping_ok i k st : evolves st (ensure_loop ping_ok i k st).1.2.
Proof.
  pose proof (ensure_loop_frame ping_ok i k st) as H.
  destruct (ensure_loop ping_ok i k st) as [[b st'] o]. cbn.
  destruct H as [E Hv]. rewrite E. apply evolves_same_log; cbn; auto. lia.
Qed.

Lemma ensure_live_primary_evolves ping_ok h st :
  evolves st (ensure_live_primary ping_ok h st).1.2.
Proof. rewrite ensure_live_primary_run. apply ensure_loop_evolves. Qed.

(** The chaos messages read only the ID and the Byzantine flag of the state. *)
Lemma byz_send_chaos_ext rb draw ps req v s st st' :
  node_id st = node_id st' → byzantine st = byzantine st' →
  byz_send_chaos sha256_hex rb draw ps req v s st =
  byz_send_chaos sha256_hex rb draw ps req v s st'.
Proof.
  intros Hn Hb. revert draw. induction ps as [|p ps IH]; intros draw; [reflexivity|].
  cbn [byz_send_chaos].
  assert (E : ∀ pr, byz_make_chaos_pre_prepare sha256_hex rb draw req v s pr p st =
                    byz_make_chaos_pre_prepare sha256_hex rb draw req v s pr p st')
    by (intros; unfold byz_make_chaos_pre_prepare, maybe_corrupt_digest; by rewrite Hb).
  rewrite E, Hn. destruct (byz_make_chaos_pre_prepare _ _ _ _ _ _ _ _ _) as [pre d'].
  by rewrite IH.
Qed.

Lemma byz_send_chaos_lock rb draw ps req v s st b :
  byz_send_chaos sha256_hex rb draw ps req v s (set_lock_held st b) =
  byz_send_chaos sha256_hex rb draw ps req v s st.
Proof. by apply byz_send_chaos_ext. Qed.

Lemma client_request_primary_run rb req st :
  let v := view st in
  let s := next_seq st in
  let d := digest req in
  let st2 := set_log (set_next_seq st (s + 1))
               (<[(v, s) := new_entry v s d (client_id req) (request_id req) (payload req)]>
                  (log st)) in
  client_request_primary sha256_hex rb req st =
    if lock_held st then (None, st, []) else
    if byzantine st then
      (Some (Replied (mkClientReply (client_id req) (request_id req) (node_id st) v s
                        false "" byz_primary_error)), st2,
       byz_send_chaos sha256_hex rb 0 (peers st) req v s st ++ [])
    else
      (Some (AwaitingCommit v s), st2,
       map (λ peer, SendPrePrepare peer (mkPrePrepare v s d (node_id st) req)) (peers st)
         ++ []).
Proof.
  unfold client_request_primary. unfold_M. unfold emit_all.
  destruct (lock_held st) eqn:L; [reflexivity|]. cbn [byzantine set_lock_held].
  destruct (byzantine st) eqn:Hb; cbn; unlock L.
  - rewrite byz_send_chaos_lock. reflexivity.
  - rewrite for_each_emit_run. reflexivity.
Qed.

Lemma client_request_primary_evolves rb req st :
  evolves st (client_request_primary sha256_hex rb req st).1.2.
Proof.
  rewrite client_request_primary_run. cbv zeta.
  assert (H : evolves st (set_log (set_next_seq st (next_seq st + 1))
               (<[(view st, next_seq st) := new_entry (view st) (next_seq st) (digest req)
                   (client_id req) (request_id req) (payload req)]> (log st)))).
  { split; [done|]. split; [done|]. split; [cbn; lia|].
    eapply log_step_insert; [reflexivity|]. left. split; cbn; discriminate. }
  destruct (lock_held st); [apply evolves_refl|]. by destruct (byzantine st).
Qed.

Lemma on_client_request_evolves ping_ok rb fwd req st :
  evolves st (on_client_request sha256_hex ping_ok rb fwd req st).1.2.
Proof.
  unfold on_client_request. unfold_M.
  destruct (alive st); cbn [negb]; [|apply evolves_refl].
  case_bool_decide as Hp.
  - destruct (forwarded req); [apply evolves_refl|].
    pose proof (ensure_live_primary_evolves ping_ok None st) as H1.
    destruct (ensure_live_primary _ _ st) as [[[b|] st1] o1]; cbn in H1 |- *; [|exact H1].
    case_bool_decide.
    + pose proof (client_request_primary_evolves rb req st1) as H2.
      destruct (client_request_primary _ _ _ st1) as [[[c|] st2] o2]; cbn in H2 |- *;
        eapply evolves_trans; eauto.
    + unfold emit. case_bool_decide; [destruct (fwd _)|]; cbn; exact H1.
  - pose proof (client_request_primary_evolves rb req st) as H2.
    destruct (client_request_primary _ _ _ st) as [[[c|] st2] o2]; exact H2.
Qed.

(** A live primary runs the primary path directly. *)
Lemma on_client_request_primary_run ping_ok rb fwd req st :
  alive st = true → node_id st = primary_id st →
  on_client_request sha256_hex ping_ok rb fwd req st = client_request_primary sha256_hex rb req st.
Proof.
  intros Ha Hp. unfold on_client_request. unfold_M. rewrite Ha. cbn [negb].
  case_bool_decide; [done|].
  destruct (client_request_primary _ _ _ st) as [[[c|] st2] o2]; reflexivity.
Qed.

Lemma client_reply_after_wait_run req v s st :
  (client_reply_after_wait req v s st).1.2 = st.
Proof.
  unfold client_reply_after_wait. unfold_M. destruct (lock_held st) eqn:L; [done|].
  cbn. destruct (log st !! (v, s)); cbn; unlock L; done.
Qed.

Lemma on_set_view_run req st :
  on_set_view req st =
    if negb (alive st) then (Some (ack false "node is not alive"), st, []) else
    if sv_view req <=? view st then (Some (ack true "ignored (not higher)"), st, []) else
    if lock_held st then (None, st, [])
    else (Some (ack true ""), set_view_field st (sv_view req), []).
Proof.
  unfold on_set_view. unfold_M. destruct (alive st); cbn [negb]; [|done].
  rewrite set_view_run. destruct (sv_view req <=? view st); [done|].
  by destruct (lock_held st).
Qed.

Lemma sync_max_view_ge status pids v0 : v0 <= sync_max_view status pids v0.
Proof.
  unfold sync_max_view. revert v0. induction pids as [|p ps IH]; intros v0; cbn; [lia|].
  destruct (status p) as [v|]; [|apply IH].
  destruct (v0 <? v) eqn:E; [|apply IH].
  specialize (IH v). apply Z.ltb_lt in E. lia.
Qed.

Lemma sync_view_from_peers_run status st :
  sync_view_from_peers status st =
    let max_view := sync_max_view status (peers st) (view st) in
    let out := map SendGetStatus (peers st) in
    if view st <? max_view then
      (if lock_held st then (None, st, out ++ []) else
       (Some tt, set_view_field st max_view, out ++ []))
    else (Some tt, st, out ++ []).
Proof.
  unfold sync_view_from_peers. unfold_M. rewrite for_each_emit_run. cbv zeta.
  destruct (view st <? sync_max_view status (peers st) (view st)); [|reflexivity].
  destruct (lock_held st) eqn:L; [reflexivity|]. cbn. unlock L. reflexivity.
Qed.

Lemma step_evolves st i : evolves st (step sha256_hex st i).
Proof.
  unfold step, run_input.
  destruct i as [req p rb fwd|req v s|req b|req|req|req|status|p h|]; unfold_M.
  - pose proof (on_client_request_evolves p rb fwd req st) as H.
    destruct (on_client_request _ _ _ _ _ st) as [[[o|] st'] out]; exact H.
  - rewrite <- (client_reply_after_wait_run req v s st) at 1.
    destruct (client_reply_after_wait _ _ _ st) as [[[o|] st'] out]; apply evolves_refl.
  - pose proof (on_pre_prepare_evolves req b st) as H.
    destruct (on_pre_prepare req b st) as [[[o|] st'] out]; exact H.
  - pose proof (on_prepare_evolves req st) as H.
    destruct (on_prepare req st) as [[[o|] st'] out]; exact H.
  - pose proof (on_commit_evolves req st) as H.
    destruct (on_commit req st) as [[[o|] st'] out]; exact H.
  - rewrite on_set_view_run. destruct (alive st); cbn [negb]; [|apply evolves_refl].
    destruct (sv_view req <=? view st) eqn:E; [apply evolves_refl|].
    destruct (lock_held st); [apply evolves_refl|].
    apply evolves_same_log; cbn; auto. lia.
  - rewrite sync_view_from_peers_run. cbn.
    pose proof (sync_max_view_ge status (peers st) (view st)).
    destruct (view st <? _); [|apply evolves_refl].
    destruct (lock_held st); [apply evolves_refl|].
    apply evolves_same_log; cbn; auto.
  - pose proof (ensure_live_primary_evolves p h st) as H.
    destruct (ensure_live_primary p h st) as [[[o|] st'] out]; exact H.
  - unfold kill_node. unfold_M. apply evolves_same_log; cbn; auto. lia.
Qed.

Lemma exec_evolves st is : evolves st (exec sha256_hex st is).
Proof.
  unfold exec. revert st. induction is as [|i is IH]; intros st; cbn.
  - apply evolves_refl.
  - eapply evolves_trans; [apply step_evolves|apply IH].
Qed.

(** ** A Byzantine replica and its own votes *)

Lemma string_length_app s1 s2 :
  String.length (s1 +:+ s2) = (String.length s1 + String.length s2)%nat.
Proof.
  induction s1 as [|c s1 IH]; [reflexivity|].
  change (String c s1 +:+ s2) with (String c (s1 +:+ s2)). simpl. by rewrite IH.
Qed.












(** ** Helpers for the statements *)

Lemma raise_view_le st v : view st <= v → raise_view st v = set_view_field st v.
Proof.
  intros Hv. unfold raise_view. destruct (view st <? v) eqn:E; [done|].
  apply Z.ltb_ge in E. assert (view st = v) as <- by lia. by rewrite set_view_field_same.
Qed.

Lemma primary_id_eq st st' :
  node_id st' = node_id st → peers st' = peers st → view st' = view st →
  primary_id st' = primary_id st.
Proof. intros Hn Hp Hv. unfold primary_id, replica_ids. by rewrite Hn, Hp, Hv. Qed.

Section ByzantineDigests.

(** The hex digest of SHA-256 has 64 characters. *)
Hypothesis sha256_hex_length : ∀ s, String.length (sha256_hex s) = 64%nat.







End ByzantineDigests.

(** ** The Byzantine primary *)

Lemma byz_make_chaos_spec rb draw req v s prim peer st :
  (∀ i k, 0 < k → 0 <= rb i k < k) → byzantine st = true →
  let '(pre, draw') := byz_make_chaos_pre_prepare sha256_hex rb draw req v s prim peer st in
  (draw < draw')%nat ∧ chaos_form sha256_hex rb draw req v s prim peer pre.
Proof.
  intros Hrb Hb. unfold byz_make_chaos_pre_prepare, chaos_form.
  pose proof (Hrb draw 2 ltac:(lia)) as H2.
  pose proof (Hrb (S draw) 1000000 ltac:(lia)) as H3.
  assert (rb draw 2 = 0 ∨ rb draw 2 = 1) as [E|E] by lia; rewrite E; cbn.
  - case_bool_decide as Hm; [|done].
    split; [lia|]. left. split; [done|]. unfold maybe_corrupt_digest. by rewrite Hb.
  - case_bool_decide as Hm; [done|].
    split; [lia|]. right. split; [done|]. split; [lia|done].
Qed.

Lemma byz_send_chaos_spec rb draw ps req v s st :
  (∀ i k, 0 < k → 0 <= rb i k < k) → byzantine st = true →
  let out := byz_send_chaos sha256_hex rb draw ps req v s st in
  length out = length ps ∧
  ∃ ds : list nat, length ds = length ps ∧ (∀ d, d ∈ ds → draw <= d)%nat ∧
    (∀ j1 j2 d1 d2, (j1 < j2)%nat → ds !! j1 = Some d1 → ds !! j2 = Some d2 →
       (d1 < d2)%nat) ∧
    (∀ j peer dj, ps !! j = Some peer → ds !! j = Some dj →
       ∃ pre, out !! j = Some (SendPrePrepare peer pre) ∧
              chaos_form sha256_hex rb dj req v s (node_id st) peer pre).
Proof.
  intros Hrb Hb. cbv zeta.
  induction ps as [|peer ps IH] in draw |- *.
  - split; [done|]. exists []. split; [done|]. split; [intros d Hd; inversion Hd|].
    split; [intros ? ? ? ? ? Hd; inversion Hd|]. intros j peer dj Hj. inversion Hj.
  - cbn [byz_send_chaos].
    pose proof (byz_make_chaos_spec rb draw req v s (node_id st) peer st Hrb Hb) as Hm.
    destruct (byz_make_chaos_pre_prepare _ _ _ _ _ _ _ _ _) as [pre draw'].
    destruct Hm as [Hlt Hform].
    destruct (IH draw') as [Hlen (ds & Hds & Hge & Hsort & Hforms)].
    split; [cbn; lia|]. exists (draw :: ds). split; [cbn; lia|]. split; [|split].
    + intros d Hd. apply elem_of_cons in Hd as [->|Hd]; [lia|]. specialize (Hge d Hd). lia.
    + intros [|j1] [|j2] d1 d2 Hj H1 H2; cbn in H1, H2; [lia|..].
      * injection H1 as <-. assert (d2 ∈ ds) by (eapply list_elem_of_lookup_2; eauto).
        specialize (Hge d2 ltac:(done)). lia.
      * lia.
      * apply (Hsort j1 j2); auto. lia.
    + intros [|j] peer' dj Hp Hd; cbn in Hp, Hd.
      * injection Hp as <-. injection Hd as <-. exists pre. done.
      * eauto.
Qed.

Lemma chaos_form_not_correct rb dj req v s prim peer pre :
  chaos_form sha256_hex rb dj req v s prim peer pre →
  pre ≠ mkPrePrepare v s (digest req) prim req.
Proof.
  assert (Hn : ∀ m k : nat, (0 < k)%nat → (m + k)%nat ≠ m) by lia.
  intros [(_ & ->)|(_ & _ & ->)] Heq.
  - apply (f_equal (λ p, String.length (pp_digest p))) in Heq. cbn in Heq.
    rewrite string_length_app in Heq. eapply Hn; [|exact Heq]. cbn. lia.
  - apply (f_equal (λ p, String.length (payload (pp_request p)))) in Heq. cbn in Heq.
    rewrite string_length_app in Heq. eapply Hn; [|exact Heq].
    rewrite string_length_app. cbn. lia.
Qed.

(** ** Draining the buffers *)

Lemma accept_pre_prepare_drains req st :
  lock_held st = false →
  let key := (pp_view req, pp_seq req) in
  let pkey := (pp_view req, pp_seq req, pp_digest req) in
  let st2 := (accept_pre_prepare req st).1.2 in
  ∃ e, log st2 !! key = Some e ∧
    default ∅ (pending_prepares st !! pkey) ⊆ prepares e ∧
    default ∅ (pending_commits st !! pkey) ⊆ commits e ∧
    pending_prepares st2 !! pkey = None ∧ pending_commits st2 !! pkey = None.
Proof.
  intros L. rewrite accept_pre_prepare_run, L. cbv zeta.
  cbn [fst snd log pending_prepares pending_commits].
  rewrite lookup_insert_eq, !lookup_delete_eq. eexists. split; [done|].
  cbn. split; [set_solver|]. split; [set_solver|]. done.
Qed.

(** A handler that never returns leaves the lock held. *)
Lemma on_prepare_none req st :
  (on_prepare req st).1.1 = None → lock_held (on_prepare req st).1.2 = true.
Proof.
  pose proof (on_prepare_spec req st) as H. cbv zeta in H.
  destruct (on_prepare req st) as [[a st'] out]. cbn [fst snd]. intros ->.
  destruct H as [(_ & ? & _)|[(_ & L & _ & -> & _)|[(_ & _ & ? & _)|
    [(_ & _ & _ & _ & ? & _)|(_ & _ & _ & e & _ & Hc)]]]]; try congruence.
  destruct Hc as [(_ & ? & _)|[(_ & _ & _ & Hm)|(_ & _ & ? & _)]]; try congruence.
  destruct (f st + 1 <=? _); destruct Hm as [? ->]; [done|congruence].
Qed.

Lemma multicast_prepare_none v s d st :
  (multicast_prepare v s d st).1.1 = None → lock_held (multicast_prepare v s d st).1.2 = true.
Proof.
  rewrite multicast_prepare_run. case_bool_decide; [done|].
  pose proof (on_prepare_none (mkPrepare v s (maybe_corrupt_digest st d) (node_id st)) st) as Hn.
  revert Hn. cbv zeta. destruct (on_prepare _ st) as [[[u|] st'] o]; cbn; [discriminate|].
  intros Hn _. by apply Hn.
Qed.

(** [on_prepare] returns unless the lock is held or the PREPARE conflicts
    with an unexecuted entry. *)
Lemma on_prepare_returns req st :
  lock_held st = false →
  (∀ e, log st !! (p_view req, p_seq req) = Some e → executed e = false →
     e_digest e = p_digest req) →
  ∃ a, (on_prepare req st).1.1 = Some a.
Proof.
  intros L Hd. pose proof (on_prepare_spec req st) as H. cbv zeta in H.
  destruct (on_prepare req st) as [[a st'] out]. cbn [fst].
  destruct H as [(_ & -> & _)|[(_ & L' & _)|[(_ & _ & -> & _)|[(_ & _ & _ & _ & -> & _)|
    (_ & _ & _ & e & He & Hc)]]]]; [eauto|congruence|eauto|eauto|].
  destruct Hc as [(_ & -> & _)|[(Hx & Hne & _)|(_ & _ & -> & _)]]; [eauto| |eauto].
  exfalso. exact (Hne (Hd e He Hx)).
Qed.

Lemma multicast_prepare_returns v s d st :
  lock_held st = false →
  (∀ e, log st !! (v, s) = Some e → executed e = false →
     e_digest e = maybe_corrupt_digest st d) →
  (multicast_prepare v s d st).1.1 = Some tt.
Proof.
  intros L Hd. rewrite multicast_prepare_run. case_bool_decide; [done|]. cbv zeta.
  pose proof (on_prepare_returns (mkPrepare v s (maybe_corrupt_digest st d) (node_id st)) st
    L Hd) as [a Ha].
  revert Ha. destruct (on_prepare _ st) as [[[u|] st'] o]; cbn; [done|discriminate].
Qed.

(** After the locked section of [on_pre_prepare], the entry of the slot
    has the digest of the PRE-PREPARE when no entry with another digest
    was there. *)
Lemma accept_pre_prepare_digest req st :
  lock_held st = false →
  (∀ e, log st !! (pp_view req, pp_seq req) = Some e → e_digest e = pp_digest req) →
  ∀ e, log (accept_pre_prepare req st).1.2 !! (pp_view req, pp_seq req) = Some e →
    e_digest e = pp_digest req.
Proof.
  intros L Hd e. rewrite accept_pre_prepare_run, L. cbn. rewrite lookup_insert_eq.
  intros [= <-].
  destruct (log st !! (pp_view req, pp_seq req)) as [e0|] eqn:E; cbn.
  - rewrite E. cbn. by apply Hd.
  - rewrite lookup_insert_eq. reflexivity.
Qed.

(** * The claims *)

(** C2 (corrected).  [_ensure_live_primary(hops)] runs at most
    [K = max(1, hops)] iterations.  It returns [false] exactly when all [K]
    iterations raised the view by one and the replica is not the primary at
    the end.  It may return [true] without this replica being the primary:
    when the ping of some iteration reached the current primary, which is a
    peer.  It never returns only when the lock is already held (by an
    earlier call that never returned), and then it changes nothing. *)
Theorem ensure_live_primary_result ping_ok h st :
  let K := Z.to_nat (Z.max 1 (match h with Some h => h | None => n st end)) in
  let '(b, st', out) := ensure_live_primary ping_ok h st in
  (b = Some false ↔ primary_id st' ≠ node_id st' ∧ view st' = view st + Z.of_nat K) ∧
  (b = Some true → primary_id st' = node_id st' ∨
     (primary_id st' ∈ peers st' ∧ ∃ j, (j < K)%nat ∧ ping_ok j = true)) ∧
  (b = None → lock_held st = true ∧ st' = st).
Proof.
  cbv zeta. rewrite ensure_live_primary_run.
  pose proof (ensure_loop_false ping_ok 0
    (Z.to_nat (Z.max 1 (match h with Some h => h | None => n st end))) st) as H.
  destruct (ensure_loop _ _ _ _) as [[b st'] out].
  destruct H as (H1 & H2 & H3). split; [done|]. split; [|done].
  intros Hb. destruct (H2 Hb) as [?|(Hp & j & Hj & Hpj)]; [by left|].
  right. split; [done|]. exists j. split; [lia|done].
Qed.

(** C4.  [_set_view(new_view)] assigns [view := new_view] if and only if
    [new_view > view], and returns whether it did (when the lock is held
    by a call that never returned, it blocks before assigning); the view
    never decreases along any sequence of calls. *)
Theorem set_view_and_view_monotone :
  (∀ nv r st, set_view nv r st =
     if view st <? nv then
       (if lock_held st then (None, st, []) else (Some true, set_view_field st nv, []))
     else (Some false, st, [])) ∧
  (∀ st i, view st <= view (step sha256_hex st i)) ∧
  (∀ st is1 is2,
     view (exec sha256_hex st is1) <= view (exec sha256_hex st (is1 ++ is2))).
Proof.
  split; [|split].
  - intros nv r st. rewrite set_view_run.
    destruct (nv <=? view st) eqn:E1, (view st <? nv) eqn:E2; try reflexivity; lia.
  - intros st i. apply step_evolves.
  - intros st is1 is2. unfold exec at 2. rewrite fold_left_app. apply exec_evolves.
Qed.

(** C5.  A PRE-PREPARE that passes the alive, view and primary checks but
    whose digest is not the digest of its request is rejected with
    [digest mismatch]: the view becomes [req.view + 1] (one above the view
    in which the checks passed), SET-VIEW goes to every peer, and the log
    and the buffers are unchanged.  The reason of the broadcast names
    [state.primary_id] read after the view change, i.e. the primary of
    the new view.  (When the lock is held by a call that never returned,
    the call blocks and changes nothing.) *)
Theorem on_pre_prepare_digest_mismatch req b st :
  alive st = true → view st <= pp_view req →
  pp_primary_id req = primary_id (set_view_field st (pp_view req)) →
  digest (pp_request req) ≠ pp_digest req →
  let '(a, st', out) := on_pre_prepare req b st in
  if lock_held st then a = None ∧ st' = st ∧ out = [] else
  a = Some (ack false "digest mismatch") ∧
  view st' = pp_view req + 1 ∧
  out = map (λ pid, SendSetView pid (mkSetView (pp_view req + 1) (node_id st)
               (pre_prepare_reason (primary_id (set_view_field st (pp_view req + 1))))))
          (peers st) ∧
  log st' = log st ∧ pending_prepares st' = pending_prepares st ∧
  pending_commits st' = pending_commits st ∧ lock_held st' = false.
Proof.
  intros Ha Hv Hp Hd.
  pose proof (on_pre_prepare_spec req b st) as H. cbv zeta in H.
  rewrite (raise_view_le st _ Hv) in H.
  destruct (on_pre_prepare req b st) as [[a st'] out].
  destruct H as [(? & _)|[(_ & L & -> & -> & ->)|[(_ & Hv' & _)|[(_ & _ & Hp' & _)|
    [(_ & L & _ & _ & _ & -> & -> & ->)|(_ & _ & _ & _ & Hd' & _)]]]]];
    [congruence|by rewrite L|cbn in Hv'; lia|congruence| |congruence].
  rewrite L, !set_view_field_twice, !set_view_field_view.
  repeat split; cbn; auto.
Qed.

(** C6 (code bug).  A PREPARE for an existing, unexecuted entry whose
    digest differs from the entry's: the sender joins
    [conflicting_prepares[(view, seq)]] and the log is unchanged.  Below
    [f + 1] conflicting replicas the answer is [digest mismatch].  Once the
    conflict set has [f + 1] replicas, [_set_view] is called while the
    handler still holds [self._lock], and waits for that lock forever: the
    call never returns, the view is not raised, no SET-VIEW is sent, and
    the lock stays held. *)
Theorem on_prepare_conflict req st e :
  alive st = true → lock_held st = false → view st <= p_view req →
  log st !! (p_view req, p_seq req) = Some e → executed e = false →
  e_digest e ≠ p_digest req →
  let key := (p_view req, p_seq req) in
  let cset := {[p_replica_id req]} ∪ default ∅ (conflicting_prepares st !! key) in
  let '(a, st', out) := on_prepare req st in
  conflicting_prepares st' !! key = Some cset ∧
  log st' = log st ∧ view st' = p_view req ∧ out = [] ∧
  (if f st + 1 <=? Z.of_nat (size cset) then a = None ∧ lock_held st' = true
   else a = Some (ack false "digest mismatch") ∧ lock_held st' = false).
Proof.
  intros Ha L Hv He Hx Hd.
  pose proof (on_prepare_spec req st) as H. cbv zeta in H |- *.
  rewrite (raise_view_le st _ Hv) in H.
  destruct (on_prepare req st) as [[a st'] out].
  destruct H as [(? & _)|[(_ & L' & _)|[(_ & Hv' & _)|[(_ & _ & _ & Hn & _)|
    (_ & _ & _ & e' & He' & Hc)]]]];
    [congruence|congruence|cbn in Hv'; lia|congruence|].
  rewrite He in He'. injection He' as <-.
  destruct Hc as [(? & _)|[(_ & _ & -> & Hm)|(_ & ? & _)]]; [congruence| |congruence].
  destruct (f st + 1 <=? _); destruct Hm as [-> ->]; cbn;
    rewrite lookup_insert_eq; repeat split; auto.
Qed.

(** C7.  A live Byzantine primary answers a client request at once with
    [committed = false] and the error [byzantine primary: ...], and sends
    one PRE-PREPARE per peer, in the order of [peers].  The one for the
    [j]-th peer has the chaos form given by its own draw [dj] of
    [random.choice] over the two modes (the draws are fresh: they increase
    with [j]), and none of them is the correct PRE-PREPARE.  (When the lock
    is held by a call that never returned, the call blocks and changes
    nothing.) *)
Theorem byzantine_primary_chaos ping_ok rb fwd req st :
  (∀ i k, 0 < k → 0 <= rb i k < k) →
  alive st = true → byzantine st = true → node_id st = primary_id st →
  let v := view st in
  let s := next_seq st in
  let correct := mkPrePrepare v s (digest req) (node_id st) req in
  let '(o, st', out) := on_client_request sha256_hex ping_ok rb fwd req st in
  if lock_held st then o = None ∧ st' = st ∧ out = [] else
  o = Some (Replied (mkClientReply (client_id req) (request_id req) (node_id st) v s false ""
                 "byzantine primary: sent chaotic PRE-PREPARE (no commit expected)")) ∧
  length out = length (peers st) ∧
  (∃ ds : list nat, length ds = length (peers st) ∧
     (∀ j1 j2 d1 d2, (j1 < j2)%nat → ds !! j1 = Some d1 → ds !! j2 = Some d2 →
        (d1 < d2)%nat) ∧
     (∀ j peer dj, peers st !! j = Some peer → ds !! j = Some dj →
        ∃ pre, out !! j = Some (SendPrePrepare peer pre) ∧
               chaos_form sha256_hex rb dj req v s (node_id st) peer pre)) ∧
  (∀ q, SendPrePrepare q correct ∉ out).
Proof.
  intros Hrb Ha Hb Hp. cbv zeta.
  rewrite on_client_request_primary_run by done.
  rewrite client_request_primary_run. cbv zeta.
  destruct (lock_held st); [done|]. rewrite Hb, app_nil_r.
  destruct (byz_send_chaos_spec rb 0 (peers st) req (view st) (next_seq st) st Hrb Hb)
    as [Hlen (ds & Hds & _ & Hsort & Hforms)].
  split; [done|]. split; [done|]. split; [exists ds; auto|].
  intros q Hin. apply list_elem_of_lookup_1 in Hin as [j Hj].
  assert (Hjl : (j < length (peers st))%nat)
    by (rewrite <- Hlen; apply lookup_lt_is_Some_1; eauto).
  destruct (lookup_lt_is_Some_2 (peers st) j Hjl) as [peer Hpeer].
  destruct (lookup_lt_is_Some_2 ds j ltac:(lia)) as [dj Hdj].
  destruct (Hforms j peer dj Hpeer Hdj) as (pre & Hpre & Hform).
  rewrite Hpre in Hj. injection Hj as -> Heq.
  apply (chaos_form_not_correct _ _ _ _ _ _ _ _ Hform). done.
Qed.

(** C8.  With the lock free, a PREPARE or a COMMIT for a slot without
    entry is buffered under [(view, seq, digest)] with the answer
    [ok = true, "buffered"]; an accepted PRE-PREPARE for that slot and
    digest puts every buffered sender into the entry's [prepares]
    (resp. [commits]) set and removes both buckets, also after the local
    PREPARE it may count.  It answers [ok = true] unless that local PREPARE
    makes [on_prepare] wait for the lock it holds (see C6): then the call
    never returns and the lock stays held. *)
Theorem buffer_then_drain :
  (∀ req st, alive st = true → lock_held st = false → view st <= p_view req →
     log st !! (p_view req, p_seq req) = None →
     let pkey := (p_view req, p_seq req, p_digest req) in
     let '(a, st', out) := on_prepare req st in
     a = Some (ack true "buffered") ∧ out = [] ∧ log st' = log st ∧
     pending_prepares st' !! pkey =
       Some ({[p_replica_id req]} ∪ default ∅ (pending_prepares st !! pkey))) ∧
  (∀ req st, alive st = true → lock_held st = false → view st <= c_view req →
     log st !! (c_view req, c_seq req) = None →
     let pkey := (c_view req, c_seq req, c_digest req) in
     let '(a, st', out) := on_commit req st in
     a = Some (ack true "buffered") ∧ out = [] ∧ log st' = log st ∧
     pending_commits st' !! pkey =
       Some ({[c_replica_id req]} ∪ default ∅ (pending_commits st !! pkey))) ∧
  (∀ req b st, alive st = true → lock_held st = false → view st <= pp_view req →
     pp_primary_id req = primary_id (set_view_field st (pp_view req)) →
     digest (pp_request req) = pp_digest req →
     let pkey := (pp_view req, pp_seq req, pp_digest req) in
     let '(a, st', out) := on_pre_prepare req b st in
     (a = Some (ack true "") ∨ (b = true ∧ a = None ∧ lock_held st' = true)) ∧
     ∃ e, log st' !! (pp_view req, pp_seq req) = Some e ∧
       default ∅ (pending_prepares st !! pkey) ⊆ prepares e ∧
       default ∅ (pending_commits st !! pkey) ⊆ commits e ∧
       pending_prepares st' !! pkey = None ∧ pending_commits st' !! pkey = None).
Proof.
  split; [|split].
  - intros req st Ha L Hv Hn.
    pose proof (on_prepare_spec req st) as H. cbv zeta in H |- *.
    rewrite (raise_view_le st _ Hv) in H.
    destruct (on_prepare req st) as [[a st'] out].
    destruct H as [(? & _)|[(_ & L' & _)|[(_ & Hv' & _)|
      [(_ & _ & _ & _ & -> & -> & ->)|(_ & _ & _ & e & He & _)]]]];
      [congruence|congruence|cbn in Hv'; lia| |congruence].
    cbn. rewrite lookup_insert_eq. auto.
  - intros req st Ha L Hv Hn.
    pose proof (on_commit_spec req st) as H. cbv zeta in H |- *.
    rewrite (raise_view_le st _ Hv) in H.
    destruct (on_commit req st) as [[a st'] out].
    destruct H as [-> [(? & _)|[(_ & L' & _)|[(_ & Hv' & _)|
      [(_ & _ & _ & _ & -> & ->)|(_ & _ & _ & e & He & _)]]]]];
      [congruence|congruence|cbn in Hv'; lia| |congruence].
    cbn. rewrite lookup_insert_eq. auto.
  - intros req b st Ha L Hv Hp Hd.
    pose proof (on_pre_prepare_spec req b st) as H. cbv zeta in H |- *.
    rewrite (raise_view_le st _ Hv) in H.
    set (st1 := set_view_field st (pp_view req)) in H, Hp.
    assert (L1 : lock_held st1 = false) by exact L.
    pose proof (accept_pre_prepare_drains req st1 L1) as (e2 & He2 & Hsp & Hsc & Hnp & Hnc).
    cbv zeta in He2, Hsp, Hsc, Hnp, Hnc. cbn [pending_prepares pending_commits st1] in Hsp, Hsc.
    destruct (on_pre_prepare req b st) as [[a st'] out].
    destruct H as [(? & _)|[(_ & L' & _)|[(_ & Hv' & _)|[(_ & _ & Hp' & _)|
      [(_ & _ & _ & _ & Hd' & _)|(_ & _ & _ & _ & _ & Hacc)]]]]];
      [congruence|congruence|cbn in Hv'; lia|congruence|congruence|].
    cbv zeta in Hacc. destruct b.
    + pose proof (multicast_prepare_frame (pp_view req) (pp_seq req) (pp_digest req)
        (accept_pre_prepare req st1).1.2) as (_ & _ & _ & Hk & Hpk).
      pose proof (multicast_prepare_none (pp_view req) (pp_seq req) (pp_digest req)
        (accept_pre_prepare req st1).1.2) as Hnone.
      destruct (multicast_prepare _ _ _ _) as [[r3 st3] o3].
      injection Hacc as -> -> _. cbn in Hk, Hpk, Hnone. split.
      { destruct r3; [by left|right; auto]. }
      destruct (Hk _ _ He2) as (e3 & He3 & (_ & Hg1 & Hg2 & _)).
      destruct (Hpk (pp_view req) (pp_seq req) (pp_digest req) (mk_is_Some _ _ He2))
        as [Hq1 Hq2].
      exists e3. split; [done|]. split; [set_solver|]. split; [set_solver|].
      by rewrite Hq1, Hq2.
    + destruct Hacc as (-> & -> & _). split; [by left|]. exists e2. auto.
Qed.

(** C1.  On the primary, [_multicast_prepare] does nothing, so the primary
    never sends a PREPARE of its own.  But the primary does send a COMMIT
    of its own: an honest primary whose entry reaches the PREPARE quorum
    on a received PREPARE multicasts [CommitRequest(view, seq, digest,
    node_id)] to every peer and counts it locally, so its own [node_id]
    enters the entry's [commits] set.  The [committed] flag is still set
    only inside [on_commit]: [on_prepare] stores the entry with its
    [committed] flag unchanged before it calls [on_commit], and [on_commit]
    turns the flag on only with [|commits| >= 2f + 1]. *)
Theorem primary_sends_own_commit req st e :
  alive st = true → lock_held st = false → view st <= p_view req →
  log st !! (p_view req, p_seq req) = Some e → executed e = false →
  e_digest e = p_digest req → prepared e = false →
  quorum_prepare st <= Z.of_nat (size ({[p_replica_id req]} ∪ prepares e)) →
  byzantine st = false →
  node_id st = primary_id (set_view_field st (p_view req)) →
  (∀ v s d st0, node_id st0 = primary_id st0 →
     multicast_prepare v s d st0 = (Some tt, st0, [])) ∧
  (∀ c st0 k e0 e1, log st0 !! k = Some e0 → committed e0 = false →
     log (on_commit c st0).1.2 !! k = Some e1 → committed e1 = true →
     quorum_commit st0 <= Z.of_nat (size (commits e1))) ∧
  let key := (p_view req, p_seq req) in
  let commit := mkCommit (p_view req) (p_seq req) (p_digest req) (node_id st) in
  let '(a, st', out) := on_prepare req st in
  a = Some (ack true "") ∧
  (∃ st2 e2, log st2 !! key = Some e2 ∧ committed e2 = committed e ∧
     st' = (on_commit commit st2).1.2) ∧
  (∀ peer, peer ∈ peers st → SendCommit peer commit ∈ out) ∧
  ∃ e', log st' !! key = Some e' ∧ prepared e' = true ∧ node_id st ∈ commits e'.
Proof.
  intros Ha L Hv He Hx Hd Hpr Hq Hb Hprim. split; [|split].
  { intros v s d st0 H0. rewrite multicast_prepare_run. by rewrite bool_decide_true. }
  { intros c st0 k e0 e1 He0 Hc0 He1 Hc1.
    destruct (on_commit_evolves c st0) as (_ & _ & _ & Hlog).
    destruct (Hlog k e1 He1) as [[_ Hq2]|(e0' & He0' & _ & _ & Hfc)].
    - by destruct (Hq2 Hc1).
    - rewrite He0 in He0'. injection He0' as <-.
      destruct (Hfc Hc1) as [?|[_ ?]]; [congruence|done]. }
  pose proof (on_prepare_spec req st) as H. cbv zeta in H |- *.
  rewrite (raise_view_le st _ Hv) in H.
  destruct (on_prepare req st) as [[a st'] out].
  destruct H as [(? & _)|[(_ & L' & _)|[(_ & Hv' & _)|[(_ & _ & _ & Hn & _)|
    (_ & _ & _ & e' & He' & Hc)]]]];
    [congruence|congruence|cbn in Hv'; lia|congruence|].
  rewrite He in He'. injection He' as <-.
  destruct Hc as [(? & _)|[(_ & ? & _)|(_ & _ & -> & Hacc)]]; [congruence|congruence|].
  rewrite Hpr, (proj2 (Z.leb_le _ _) Hq) in Hacc. cbn [negb andb orb] in Hacc.
  unfold maybe_corrupt_digest in Hacc. rewrite Hb in Hacc.
  destruct Hacc as [Hst Hout].
  match type of Hst with _ = (on_commit ?c ?s).1.2 =>
    set (st2 := s) in Hst, Hout; set (cm := c) in Hst, Hout end.
  split; [done|]. split.
  { exists st2. eexists. split; [|split; [|exact Hst]].
    - cbn [log set_log st2]. rewrite lookup_insert_eq. reflexivity.
    - reflexivity. }
  pose proof (on_commit_spec cm st2) as Hc. cbv zeta in Hc.
  assert (Hr : raise_view st2 (c_view cm) = st2).
  { unfold raise_view. replace (view st2 <? c_view cm) with false; [done|].
    symmetry. apply Z.ltb_ge. subst st2 cm. cbn. lia. }
  rewrite Hr in Hc.
  destruct (on_commit cm st2) as [[a2 st3] o2]. cbn in Hst, Hout. subst st' out.
  destruct Hc as [_ [(Ha2 & _)|[(_ & Hl2 & _)|[(_ & Hv2 & _)|[(_ & _ & _ & Hn2 & _)|
    (_ & _ & _ & e2 & He2 & Hc2)]]]]].
  - subst st2. cbn in Ha2. congruence.
  - subst st2. cbn in Hl2. congruence.
  - subst st2 cm. cbn in Hv2. done.
  - subst st2 cm. cbn [log set_log c_view c_seq] in Hn2.
    rewrite lookup_insert_eq in Hn2. congruence.
  - subst cm. cbn [log set_log st2 c_view c_seq] in He2.
    rewrite lookup_insert_eq in He2. injection He2 as <-.
    destruct Hc2 as [(Hx2 & _)|[(_ & Hd2 & _)|(_ & _ & _ & ->)]].
    + cbn in Hx2. congruence.
    + cbn in Hd2. congruence.
    + split.
      * intros peer Hpeer. apply elem_of_app. left.
        apply list_elem_of_In, in_map_iff. exists peer.
        split; [done|]. by apply list_elem_of_In.
      * cbn [log set_log c_view c_seq c_replica_id]. rewrite lookup_insert_eq.
        eexists. split; [done|]. cbn. split; [done|]. set_solver.
Qed.

Lemma entry_step_quorum_ok qp qc eo e' :
  (∀ e, eo = Some e → quorum_ok qp qc e) → entry_step qp qc eo e' → quorum_ok qp qc e'.
Proof.
  intros Hok [Hq|(e & -> & (_ & Hp & Hc & Hpd & Hcd) & Hfp & Hfc)]; [done|].
  destruct (Hok e eq_refl) as [Hq1 Hq2]. split.
  - intros Hpe. destruct (Hfp Hpe) as [Hpe0|]; [|done].
    specialize (Hq1 Hpe0). pose proof (size_mono _ _ Hp). lia.
  - intros Hce. destruct (Hfc Hce) as [Hce0|]; [|done].
    destruct (Hq2 Hce0) as [Hpe0 Hqc]. split; [auto|].
    pose proof (size_mono _ _ Hc). lia.
Qed.

Lemma exec_quorum_ok st is :
  (∀ k e, log st !! k = Some e → quorum_ok (quorum_prepare st) (quorum_commit st) e) →
  ∀ k e, log (exec sha256_hex st is) !! k = Some e →
    quorum_ok (quorum_prepare st) (quorum_commit st) e.
Proof.
  revert st. induction is as [|i is IH]; intros st Hok; [exact Hok|].
  cbn [exec fold_left]. fold (exec sha256_hex (step sha256_hex st i) is).
  destruct (step_evolves st i) as (Hn & Hp & _ & Hlog).
  destruct (quorums_eq _ _ Hn Hp) as [Eqp Eqc].
  rewrite <- Eqp, <- Eqc. apply IH.
  intros k e He. rewrite Eqp, Eqc.
  apply (entry_step_quorum_ok _ _ (log st !! k)); [|by apply Hlog].
  intros e0 He0. by apply (Hok k).
Qed.

(** C3.  In every call, an entry whose [prepared] flag turns on (it was off,
    or the entry did not exist) has at least [quorum_prepare = 2f]
    replicas in [prepares]; one whose [committed] flag turns on is
    [prepared] and has at least [quorum_commit = 2f + 1] replicas in
    [commits].  Hence in every execution from [PBFTState.__init__] every
    entry satisfies [prepared ⇒ |prepares| ≥ 2f] and
    [committed ⇒ prepared ∧ |commits| ≥ 2f + 1]. *)
Theorem quorum_thresholds :
  (∀ st i k e', log (step sha256_hex st i) !! k = Some e' →
     (prepared e' = true → (∀ e, log st !! k = Some e → prepared e = false) →
        quorum_prepare st <= Z.of_nat (size (prepares e'))) ∧
     (committed e' = true → (∀ e, log st !! k = Some e → committed e = false) →
        prepared e' = true ∧ quorum_commit st <= Z.of_nat (size (commits e')))) ∧
  (∀ nid ps byz is k e,
     let st0 := init_state nid ps byz in
     log (exec sha256_hex st0 is) !! k = Some e →
     quorum_ok (quorum_prepare st0) (quorum_commit st0) e).
Proof.
  split.
  - intros st i k e' He'.
    destruct (step_evolves st i) as (_ & _ & _ & Hlog).
    destruct (Hlog k e' He') as [[Hq1 Hq2]|(e & He & (_ & _ & _ & Hpd & _) & Hfp & Hfc)].
    + split; [auto|]. intros Hc _. by apply Hq2.
    + split.
      * intros Hp Hoff. destruct (Hfp Hp) as [Hp0|]; [|done].
        rewrite (Hoff e He) in Hp0. discriminate.
      * intros Hc Hoff. destruct (Hfc Hc) as [Hc0|]; [|done].
        rewrite (Hoff e He) in Hc0. discriminate.
  - intros nid ps byz is k e. cbv zeta. apply exec_quorum_ok.
    intros k' e0 He0. cbn in He0. rewrite lookup_empty in He0. discriminate.
Qed.

(** C10.  When [on_pre_prepare] counts no PREPARE of its own (the caller
    asks for no PREPARE, or this replica is the primary of the view, so
    [_multicast_prepare] does nothing), it leaves the [prepared],
    [committed] and [executed] flags of every entry as they were, and an
    entry it creates has all three off, whatever the size of the sets
    drained into it.  (With a PREPARE counted by a non-primary, the local
    [on_prepare] may turn them on.) *)
Theorem on_pre_prepare_keeps_flags req b st :
  (b = false ∨ node_id st = primary_id (raise_view st (pp_view req))) →
  ∀ k e', log (on_pre_prepare req b st).1.2 !! k = Some e' →
    (∃ e, log st !! k = Some e ∧ prepared e' = prepared e ∧
          committed e' = committed e ∧ executed e' = executed e) ∨
    (log st !! k = None ∧ prepared e' = false ∧ committed e' = false ∧
     executed e' = false).
Proof.
  intros Hb k e'.
  pose proof (on_pre_prepare_spec req b st) as H.
  pose proof (raise_view_fields st (pp_view req)) as
    (Hn & Hp & Ha & Hby & Hl & Hpp & Hpc & Hcp & Hqp & Hqc & Hf & Hv).
  set (st1 := raise_view st (pp_view req)) in *.
  assert (Hsame : log st !! k = Some e' →
    (∃ e, log st !! k = Some e ∧ prepared e' = prepared e ∧
          committed e' = committed e ∧ executed e' = executed e) ∨
    (log st !! k = None ∧ prepared e' = false ∧ committed e' = false ∧
     executed e' = false)) by (intros; left; eauto).
  destruct (on_pre_prepare req b st) as [[a st'] out]. cbn [fst snd].
  destruct H as [(_ & _ & -> & _)|[(_ & _ & _ & -> & _)|[(_ & _ & _ & -> & _)|
    [(_ & _ & _ & _ & -> & _)|[(_ & _ & _ & _ & _ & _ & -> & _)|
    (_ & _ & _ & _ & _ & Hacc)]]]]].
  - done.
  - done.
  - by rewrite Hl.
  - by rewrite Hl.
  - cbn. by rewrite Hl.
  - cbv zeta in Hacc.
    pose proof (accept_pre_prepare_fields req st1) as (Hn2 & Hp2 & _ & _ & Hv2 & _).
    assert (Hst : st' = (accept_pre_prepare req st1).1.2).
    { destruct b.
      - destruct Hb as [|Hb]; [discriminate|].
        rewrite multicast_prepare_run, bool_decide_true in Hacc; [cbn in Hacc; by injection Hacc|].
        rewrite Hn2, (primary_id_eq st1); congruence.
      - by destruct Hacc as (_ & -> & _). }
    subst st'. intros He'.
    destruct (accept_pre_prepare_entry req st1 k e' He')
      as [(e & He & _ & Hpr & Hco & Hex)|(Hne & Hpr & Hco & Hex)];
      rewrite Hl in *; [left; eauto|right; auto].
Qed.


End Proofs.

(** * Evaluations of the statements *)


(** C1: the primary [primary1_prepared_once] reaches the PREPARE quorum on
    the PREPARE of replica 3. *)
Lemma primary_sends_own_commit_witness :
  let req := mkPrepare 0 1 d0 3 in
  let st := primary1_prepared_once in
  let key := (p_view req, p_seq req) in
  let commit := mkCommit (p_view req) (p_seq req) (p_digest req) (node_id st) in
  let '(a, st', out) := on_prepare req st in
  a = Some (ack true "") ∧
  (∃ st2 e2, log st2 !! key = Some e2 ∧ committed e2 = committed (entry_at st key) ∧
     st' = (on_commit commit st2).1.2) ∧
  (∀ peer, peer ∈ peers st → SendCommit peer commit ∈ out) ∧
  ∃ e', log st' !! key = Some e' ∧ prepared e' = true ∧ node_id st ∈ commits e'.
Proof.
  exact (proj2 (proj2 (primary_sends_own_commit (mkPrepare 0 1 d0 3) primary1_prepared_once
    (entry_at primary1_prepared_once (0, 1))
    ltac:(concrete) ltac:(concrete) ltac:(concrete) ltac:(concrete) ltac:(concrete)
    ltac:(concrete) ltac:(concrete) ltac:(concrete) ltac:(concrete) ltac:(concrete)))).
Defined.

(** C1: the primary [1] sends [CommitRequest(0, 1, d0, 1)] to replica 2 and
    its own ID enters the [commits] set of its entry. *)
Lemma primary_commit_counterexample :
  let st := primary1_prepared_once in
  node_id st = primary_id st ∧
  let '(_, st', out) := on_prepare (mkPrepare 0 1 d0 3) st in
  out !! 0%nat = Some (SendCommit 2 (mkCommit 0 1 d0 1)) ∧
  match log st' !! (0, 1) with Some e => 1 ∈ commits e | None => False end.
Proof.
  split; [concrete|].
  vm_compute. split; [reflexivity|]. concrete.
Qed.

(** C2: a backup whose primary answers the ping returns [true]. *)
Lemma ensure_live_primary_counterexample :
  ensure_live_primary (λ _, true) None backup2 = (Some true, backup2, [SendPing 1]) ∧
  primary_id backup2 ≠ node_id backup2.
Proof. split; [vm_compute; reflexivity|concrete]. Qed.

(** C5: a PRE-PREPARE of replica 1 whose digest is not the digest of its
    request. *)
Lemma on_pre_prepare_digest_mismatch_witness :
  let req := mkPrePrepare 0 1 "bad" 1 req0 in
  let st := backup2 in
  let '(a, st', out) := on_pre_prepare toy_hash req false st in
  if lock_held st then a = None ∧ st' = st ∧ out = [] else
  a = Some (ack false "digest mismatch") ∧
  view st' = pp_view req + 1 ∧
  out = map (λ pid, SendSetView pid (mkSetView (pp_view req + 1) (node_id st)
               (pre_prepare_reason (primary_id (set_view_field st (pp_view req + 1))))))
          (peers st) ∧
  log st' = log st ∧ pending_prepares st' = pending_prepares st ∧
  pending_commits st' = pending_commits st ∧ lock_held st' = false.
Proof.
  exact (on_pre_prepare_digest_mismatch toy_hash (mkPrePrepare 0 1 "bad" 1 req0)
    false backup2 ltac:(concrete) ltac:(concrete) ltac:(concrete) ltac:(concrete)).
Defined.

(** C6: a PREPARE of replica 3 with another digest than the accepted one
    (one conflicting replica, below [f + 1 = 2]). *)
Lemma on_prepare_conflict_witness :
  let req := mkPrepare 0 1 "bad" 3 in
  let st := backup2_accepted in
  let key := (p_view req, p_seq req) in
  let cset := {[p_replica_id req]} ∪ default ∅ (conflicting_prepares st !! key) in
  let '(a, st', out) := on_prepare req st in
  conflicting_prepares st' !! key = Some cset ∧
  log st' = log st ∧ view st' = p_view req ∧ out = [] ∧
  (if f st + 1 <=? Z.of_nat (size cset) then a = None ∧ lock_held st' = true
   else a = Some (ack false "digest mismatch") ∧ lock_held st' = false).
Proof.
  exact (on_prepare_conflict (mkPrepare 0 1 "bad" 3) backup2_accepted
    (entry_at backup2_accepted (0, 1))
    ltac:(concrete) ltac:(concrete) ltac:(concrete) ltac:(concrete) ltac:(concrete)
    ltac:(concrete)).
Defined.

(** C6: at the backup 2 ([f = 1]), the conflicting PREPARE of replica 3 is
    answered [digest mismatch]; the one of replica 4 brings the conflict
    set to [f + 1 = 2] replicas and the call never returns: no view
    change, no SET-VIEW, and the lock stays held, so a later PREPARE and a
    later SET-VIEW block as well. *)
Lemma on_prepare_conflict_counterexample :
  let st1 := (on_prepare (mkPrepare 0 1 "bad" 3) backup2_accepted).1.2 in
  let '(a, st2, out) := on_prepare (mkPrepare 0 1 "bad" 4) st1 in
  f backup2_accepted = 1 ∧
  (on_prepare (mkPrepare 0 1 "bad" 3) backup2_accepted).1.1 =
    Some (ack false "digest mismatch") ∧
  a = None ∧ view st2 = 0 ∧ out = [] ∧ lock_held st2 = true ∧
  (on_prepare (mkPrepare 0 1 d0 3) st2).1.1 = None ∧
  (on_set_view (mkSetView 1 3 "") st2).1.1 = None.
Proof. vm_compute. repeat split. Qed.

(** C7: a Byzantine primary 1 whose draws are all 0. *)
Lemma byzantine_primary_chaos_witness :
  let st := init_state 1 [2; 3; 4] true in
  let '(o, st', out) :=
    on_client_request toy_hash (λ _, true) (λ _ _, 0) (λ _, inr "") req0 st in
  o = Some (Replied (mkClientReply (client_id req0) (request_id req0) (node_id st)
                 (view st) (next_seq st) false ""
                 "byzantine primary: sent chaotic PRE-PREPARE (no commit expected)")) ∧
  length out = length (peers st).
Proof.
  pose proof (byzantine_primary_chaos toy_hash (λ _, true) (λ _ _, 0) (λ _, inr "")
    req0 (init_state 1 [2; 3; 4] true) ltac:(intros; lia)
    ltac:(concrete) ltac:(concrete) ltac:(concrete)) as H.
  cbv zeta in H |- *.
  destruct (on_client_request _ _ _ _ _ _) as [[o st'] out].
  cbn [lock_held init_state] in H.
  destruct H as (H1 & H2 & _). split; [exact H1|exact H2].
Defined.



(** C10: the backup 2 accepts [pre0] without counting a PREPARE. *)
Lemma on_pre_prepare_keeps_flags_witness :
  (false = false ∨
   node_id backup2_early_votes = primary_id (raise_view backup2_early_votes (pp_view pre0))) ∧
  ∀ k e', log (on_pre_prepare toy_hash pre0 false backup2_early_votes).1.2 !! k = Some e' →
    (∃ e, log backup2_early_votes !! k = Some e ∧ prepared e' = prepared e ∧
          committed e' = committed e ∧ executed e' = executed e) ∨
    (log backup2_early_votes !! k = None ∧ prepared e' = false ∧ committed e' = false ∧
     executed e' = false).
Proof.
  split; [by left|].
  exact (on_pre_prepare_keeps_flags toy_hash pre0 false backup2_early_votes (or_introl eq_refl)).
Defined.

(** C10: the backup 2 has no entry for [(0, 1)]; after [pre0], with its own
    PREPARE counted, the new entry is prepared, committed and executed. *)
Lemma on_pre_prepare_flags_counterexample :
  log backup2_early_votes !! (0, 1) = None ∧
  match log (on_pre_prepare toy_hash pre0 true backup2_early_votes).1.2 !! (0, 1) with
  | Some e => prepared e = true ∧ committed e = true ∧ executed e = true
  | None => False
  end.
Proof. vm_compute. repeat split. Qed.


(** * Properties of the launch path, the client, the cluster manager and
      whole executions *)

Lemma replica_ids_perm st : replica_ids st ≡ₚ node_id st :: peers st.
Proof. apply merge_sort_Permutation. Qed.

Lemma n_length st : n st = Z.of_nat (length (node_id st :: peers st)).
Proof. unfold n. by rewrite (Permutation_length (replica_ids_perm st)). Qed.

Lemma n_pos st : 0 < n st.
Proof. rewrite n_length. cbn. lia. Qed.

(** [primary_id] at view [v] is the entry [v mod n] of [replica_ids]. *)
Lemma primary_id_lookup st :
  replica_ids st !! Z.to_nat (view st mod n st) = Some (primary_id st).
Proof.
  pose proof (n_pos st) as Hn. pose proof (Z.mod_pos_bound (view st) (n st) Hn) as Hb.
  unfold primary_id, n in *.
  destruct (replica_ids st) as [|x l]; cbn [length] in *; [lia|].
  destruct (lookup_lt_is_Some_2 (x :: l) (Z.to_nat (view st mod Z.of_nat (S (length l)))))
    as [y Hy]; [cbn [length]; lia|].
  rewrite Hy. done.
Qed.

Lemma size_list_to_set_le (l : list Z) : (size (list_to_set l : gset Z) ≤ length l)%nat.
Proof.
  induction l as [|x l IH]; cbn; [rewrite size_empty; lia|].
  rewrite size_union_alt, size_singleton.
  pose proof (subseteq_size (list_to_set l ∖ {[x]} : gset Z) (list_to_set l)
    ltac:(set_solver)). lia.
Qed.

(** X1: The primary a replica computes is always a replica it knows: its
    own id or one of its peers. *)
Theorem primary_id_is_replica st : primary_id st ∈ node_id st :: peers st.
Proof.
  pose proof (primary_id_lookup st) as H.
  apply list_elem_of_lookup_2 in H.
  by rewrite <- (replica_ids_perm st).
Qed.

Lemma primary_id_at st w :
  replica_ids st !! Z.to_nat (w mod n st) = Some (primary_id (set_view_field st w)).
Proof. apply (primary_id_lookup (set_view_field st w)). Qed.

Lemma replica_ids_NoDup st : NoDup (node_id st :: peers st) → NoDup (replica_ids st).
Proof. intros H. by rewrite replica_ids_perm. Qed.

(** X2: When the replica ids are pairwise distinct, the primary rotates
    through all of them: over the n views v, ..., v+n-1 every replica is
    primary exactly once, and view v+n has the same primary as view v. *)
Theorem primary_rotation st v :
  NoDup (node_id st :: peers st) →
  (∀ r, r ∈ node_id st :: peers st →
     ∃ j, 0 <= j < n st ∧ primary_id (set_view_field st (v + j)) = r) ∧
  (∀ j1 j2, 0 <= j1 ∧ j1 < j2 ∧ j2 < n st →
     primary_id (set_view_field st (v + j1)) ≠ primary_id (set_view_field st (v + j2))) ∧
  primary_id (set_view_field st (v + n st)) = primary_id (set_view_field st v).
Proof.
  intros Hnd. pose proof (n_pos st) as Hn.
  split; [|split].
  - intros r Hr. rewrite <- (replica_ids_perm st) in Hr.
    apply list_elem_of_lookup_1 in Hr as [i Hi].
    assert (Hil : (i < length (replica_ids st))%nat) by (apply lookup_lt_is_Some_1; eauto).
    exists ((Z.of_nat i - v) mod n st). split; [apply Z.mod_pos_bound; lia|].
    pose proof (primary_id_at st (v + (Z.of_nat i - v) mod n st)) as H.
    assert (Hm : (v + (Z.of_nat i - v) mod n st) mod n st = Z.of_nat i).
    { rewrite Z.add_mod_idemp_r by lia.
      replace (v + (Z.of_nat i - v)) with (Z.of_nat i) by lia.
      apply Z.mod_small. unfold n. lia. }
    rewrite Hm, Nat2Z.id, Hi in H. by injection H.
  - intros j1 j2 Hj Heq.
    pose proof (primary_id_at st (v + j1)) as H1.
    pose proof (primary_id_at st (v + j2)) as H2.
    rewrite Heq in H1.
    pose proof (NoDup_lookup _ _ _ _ (replica_ids_NoDup st Hnd) H1 H2) as Hi.
    pose proof (Z.mod_pos_bound (v + j1) (n st) Hn).
    pose proof (Z.mod_pos_bound (v + j2) (n st) Hn).
    assert (Hm : (v + j1) mod n st = (v + j2) mod n st) by lia.
    assert (Hz : (j2 - j1) mod n st = 0).
    { replace (j2 - j1) with ((v + j2) - (v + j1)) by lia.
      rewrite Zminus_mod, Hm, Z.sub_diag. done. }
    rewrite Z.mod_small in Hz; lia.
  - pose proof (primary_id_at st (v + n st)) as H1.
    pose proof (primary_id_at st v) as H2.
    assert (Hm : (v + n st) mod n st = v mod n st).
    { replace (v + n st) with (v + 1 * n st) by lia. apply Z_mod_plus_full. }
    rewrite Hm, H2 in H1. congruence.
Qed.

Lemma app_cons_str c a b : String c a +:+ b = String c (a +:+ b).
Proof. reflexivity. Qed.
Lemma app_nil_str b : "" +:+ b = b.
Proof. reflexivity. Qed.
Lemma app_nil_r_str a : a +:+ "" = a.
Proof. induction a as [|c a IH]; [done|]. rewrite app_cons_str, IH. done. Qed.

Lemma str_all_app p a b : str_all p (a +:+ b) = str_all p a && str_all p b.
Proof.
  induction a as [|c a IH]; [done|]. rewrite app_cons_str. cbn. rewrite IH.
  by destruct (p c).
Qed.

Lemma pretty_N_char_digit d :
  (d < 10)%N → py_isdigit (pretty_N_char d) = true ∧ digit_value (pretty_N_char d) = Z.of_N d.
Proof.
  intros Hd.
  assert (d = 0 ∨ d = 1 ∨ d = 2 ∨ d = 3 ∨ d = 4 ∨ d = 5 ∨ d = 6 ∨ d = 7 ∨ d = 8 ∨ d = 9)%N
    as Hc by lia.
  repeat destruct Hc as [->|Hc]; [..|subst]; split; reflexivity.
Qed.

Lemma pretty_N_go_all (p : ascii → bool) x s :
  (∀ d, (d < 10)%N → p (pretty_N_char d) = true) →
  str_all p s = true → str_all p (pretty_N_go x s) = true.
Proof.
  intros Hp. revert s. induction (N.lt_wf_0 x) as [x _ IH]; intros s Hs.
  destruct (decide (x = 0)%N) as [->|Hx]; [by rewrite pretty_N_go_0|].
  rewrite pretty_N_go_step by lia. apply IH; [apply N.div_lt; lia|].
  cbn. rewrite Hs, Hp; [done|]. apply N.mod_lt. lia.
Qed.

Lemma pretty_Z_all (p : ascii → bool) (z : Z) :
  p "-"%char = true → (∀ d, (d < 10)%N → p (pretty_N_char d) = true) →
  str_all p (pretty z) = true.
Proof.
  intros Hm Hp.
  assert (Hpos : ∀ q, str_all p (pretty (N.pos q)) = true).
  { intros q. unfold pretty, pretty_N. cbv beta.
    destruct (decide (N.pos q = 0%N)); [done|]. by apply pretty_N_go_all. }
  destruct z as [|q|q].
  - specialize (Hp 0%N ltac:(lia)). cbn in Hp. cbn. by rewrite Hp.
  - apply Hpos.
  - change (str_all p (String "-" (pretty (N.pos q))) = true). cbn. rewrite Hm. apply Hpos.
Qed.

Lemma py_digits_pretty_go x :
  (0 < x)%N → ∀ s, ∃ k : nat, ∀ acc b,
    py_digits (pretty_N_go x s) acc b = py_digits s (acc * 10 ^ Z.of_nat k + Z.of_N x) true.
Proof.
  induction (N.lt_wf_0 x) as [x _ IH]; intros Hx s.
  pose proof (N.div_mod x 10 ltac:(lia)) as Hdm.
  pose proof (N.mod_lt x 10 ltac:(lia)) as Hlt.
  destruct (pretty_N_char_digit (x mod 10) Hlt) as [Hd Hv].
  rewrite pretty_N_go_step by lia.
  destruct (decide (x `div` 10 = 0)%N) as [H0|H0].
  - rewrite H0, pretty_N_go_0. exists 1%nat. intros acc b. cbn [py_digits].
    rewrite Hd, Hv. f_equal. rewrite H0 in Hdm. lia.
  - destruct (IH (x `div` 10)%N ltac:(apply N.div_lt; lia) ltac:(lia)
      (String (pretty_N_char (x `mod` 10)) s)) as [k Hk].
    exists (S k). intros acc b. rewrite Hk. cbn [py_digits]. rewrite Hd, Hv.
    f_equal. rewrite Nat2Z.inj_succ, Z.pow_succ_r by lia. lia.
Qed.

Lemma rstrip_id s : str_all not_space s = true → rstrip s = s.
Proof.
  induction s as [|c s IH]; [done|]. cbn. intros [Hc Hs]%andb_prop.
  rewrite (IH Hs). unfold not_space in Hc. destruct s; [|done].
  by destruct (py_isspace c).
Qed.

Lemma py_strip_id s : str_all not_space s = true → py_strip s = s.
Proof.
  intros H. unfold py_strip. destruct s as [|c s]; [done|].
  pose proof H as H'. cbn in H'. apply andb_prop in H' as [Hc _]. unfold not_space in Hc.
  cbn [lstrip]. destruct (py_isspace c); [done|]. by apply rstrip_id.
Qed.

Lemma py_digits_pretty_pos q : py_digits (pretty (N.pos q)) 0 false = Some (Z.pos q).
Proof.
  unfold pretty, pretty_N. cbv beta.
  destruct (decide (N.pos q = 0%N)); [done|].
  destruct (py_digits_pretty_go (N.pos q) ltac:(lia) "") as [k Hk].
  rewrite Hk. done.
Qed.

Lemma pretty_digits_ok (p : ascii → bool) :
  (∀ c, py_isdigit c = true → p c = true) →
  ∀ d, (d < 10)%N → p (pretty_N_char d) = true.
Proof. intros Hp d Hd. apply Hp, pretty_N_char_digit, Hd. Qed.

(** [int(str(z)) == z]. *)
Lemma py_int_pretty (z : Z) : py_int (pretty z) = Some z.
Proof.
  unfold py_int. rewrite py_strip_id.
  2: { apply pretty_Z_all; [done|]. apply pretty_digits_ok. intros c Hc.
       unfold not_space, py_isspace. unfold py_isdigit in Hc.
       destruct (Nat.leb_spec 48 (nat_of_ascii c)), (Nat.leb_spec (nat_of_ascii c) 57);
         try discriminate.
       repeat match goal with |- context [Nat.leb ?a ?b] => destruct (Nat.leb_spec a b) end;
         cbn; try done; lia. }
  destruct z as [|q|q]; [done| |].
  - pose proof (py_digits_pretty_pos q) as H.
    assert (Hall : str_all py_isdigit (pretty (N.pos q)) = true).
    { unfold pretty, pretty_N. cbv beta. destruct (decide (N.pos q = 0%N)); [done|].
      apply pretty_N_go_all; [|done]. intros d Hd. apply pretty_N_char_digit, Hd. }
    change (pretty (Z.pos q)) with (pretty (N.pos q)).
    destruct (pretty (N.pos q)) as [|c r] eqn:E; [done|].
    cbn in Hall. apply andb_prop in Hall as [Hc _].
    destruct (Ascii.eqb_spec c "-"); [subst; done|].
    destruct (Ascii.eqb_spec c "+"); [subst; done|]. done.
  - change (pretty (Z.neg q)) with (String "-" (pretty (N.pos q))).
    cbn. rewrite py_digits_pretty_pos. done.
Qed.

Lemma py_split_app sep a s x r :
  str_all (no_char sep) a = true → py_split sep s = x :: r →
  py_split sep (a +:+ s) = (a +:+ x) :: r.
Proof.
  intros Ha Hs. induction a as [|c a IH]; [done|].
  cbn in Ha. apply andb_prop in Ha as [Hc Ha]. unfold no_char in Hc.
  rewrite app_cons_str. cbn [py_split]. rewrite (IH Ha).
  destruct (Ascii.eqb c sep); done.
Qed.

Lemma py_split_sep sep a s :
  str_all (no_char sep) a = true → py_split sep (a +:+ String sep s) = a :: py_split sep s.
Proof.
  intros Ha. rewrite (py_split_app sep a (String sep s) "" (py_split sep s) Ha).
  - by rewrite app_nil_r_str.
  - cbn. by rewrite Ascii.eqb_refl.
Qed.

Lemma py_split_single sep a : str_all (no_char sep) a = true → py_split sep a = [a].
Proof.
  intros Ha. rewrite <- (app_nil_r_str a) at 1.
  rewrite (py_split_app sep a "" "" [] Ha); [|done]. by rewrite app_nil_r_str.
Qed.

Lemma py_split_concat sep l :
  l ≠ [] → Forall (λ x, str_all (no_char sep) x = true) l →
  py_split sep (String.concat (String sep EmptyString) l) = l.
Proof.
  induction l as [|x l IH]; [done|]. intros _ Hl. inversion Hl as [|? ? Hx Hl']; subst.
  destruct l as [|y l].
  - cbn. by apply py_split_single.
  - change (String.concat (String sep "") (x :: y :: l))
      with (x +:+ String sep (String.concat (String sep "") (y :: l))).
    rewrite py_split_sep by done. f_equal. by apply IH.
Qed.

Lemma pretty_no_char (z : Z) (sep : ascii) :
  sep ≠ "-"%char → py_isdigit sep = false → str_all (no_char sep) (pretty z) = true.
Proof.
  intros Hm Hd. apply pretty_Z_all.
  - unfold no_char. destruct (Ascii.eqb_spec "-" sep); [congruence|done].
  - apply pretty_digits_ok. intros c Hc. unfold no_char.
    destruct (Ascii.eqb_spec c sep); [subst; congruence|done].
Qed.

Lemma peer_item_split nd :
  py_split "@" (peer_item nd) = [pretty (cn_id nd); "localhost:" +:+ pretty (cn_port nd)].
Proof.
  unfold peer_item. change ("@localhost:" +:+ pretty (cn_port nd))
    with (String "@" ("localhost:" +:+ pretty (cn_port nd))).
  rewrite py_split_sep by (apply pretty_no_char; done).
  rewrite py_split_single; [done|].
  rewrite str_all_app. apply andb_true_intro. split; [done|].
  apply pretty_no_char; done.
Qed.

Lemma peer_item_no_comma nd : str_all (no_char ",") (peer_item nd) = true.
Proof.
  unfold peer_item. rewrite !str_all_app.
  rewrite !pretty_no_char by done. done.
Qed.

Lemma dict_set_fresh {V} k (v : V) d : k ∉ d.*1 → dict_set k v d = d ++ [(k, v)].
Proof.
  induction d as [|[k' v'] d IH]; [done|]. cbn. intros Hk.
  rewrite bool_decide_false by (intros ->; apply Hk; left).
  f_equal. apply IH. intros H; apply Hk; by right.
Qed.

Lemma parse_items_fold (acc : list (Z * string)) nds :
  NoDup (acc.*1 ++ (cn_id <$> nds)) →
  foldl (λ acc item,
          d ← acc;
          match py_split "@" item with
          | [pid; addr] => k ← py_int pid; Some (dict_set k addr d)
          | _ => None
          end) (Some acc) (peer_item <$> nds) = Some (acc ++ (peer_entry <$> nds)).
Proof.
  revert acc. induction nds as [|nd nds IH]; intros acc Hnd; cbn.
  - by rewrite app_nil_r.
  - rewrite peer_item_split, py_int_pretty. cbn.
    rewrite dict_set_fresh.
    2: { intros Hin. apply NoDup_app in Hnd as (_ & Hd & _).
         apply (Hd (cn_id nd)); [done|]. cbn. left. }
    rewrite IH.
    + by rewrite <- app_assoc.
    + rewrite fmap_app. cbn. by rewrite <- app_assoc.
Qed.

Lemma peer_item_nonempty nd : peer_item nd ≠ "".
Proof. unfold peer_item. by destruct (pretty (cn_id nd)). Qed.

Lemma parse_peers_peer_str_eq c self_id :
  NoDup (cn_id <$> nodes c) →
  parse_peers self_id (peer_str c) =
    Some (filter (λ kv, kv.1 ≠ self_id)
            ((λ nd, (cn_id nd, "localhost:" +:+ pretty (cn_port nd))) <$> nodes c)).
Proof.
  intros Hnd. unfold parse_peers.
  destruct (nodes c) as [|nd nds] eqn:Hn.
  { unfold peer_str. rewrite Hn. done. }
  assert (Hsplit : py_split "," (peer_str c) = peer_item <$> nd :: nds).
  { unfold peer_str. rewrite Hn. apply py_split_concat; [done|].
    apply Forall_forall. intros x Hx. apply list_elem_of_fmap in Hx as (y & -> & _).
    apply peer_item_no_comma. }
  assert (Hitems : match peer_str c with
                   | EmptyString => []
                   | _ => py_split "," (peer_str c)
                   end = peer_item <$> nd :: nds).
  { destruct (peer_str c) eqn:E; [|done].
    cbn in Hsplit. injection Hsplit as H1 _. by destruct (peer_item_nonempty nd). }
  rewrite Hitems. rewrite (parse_items_fold [] (nd :: nds)); [done|]. done.
Qed.

(** X5: When the node ids of the cluster manager are distinct, run_node.py
    parses the --peers string that _peer_str builds back into every node
    but the receiving one, each mapped to localhost:<port>, in node order. *)
Theorem parse_peers_peer_str c self_id :
  NoDup (cn_id <$> nodes c) →
  parse_peers self_id (peer_str c) =
    Some (filter (λ kv, kv.1 ≠ self_id)
            ((λ nd, (cn_id nd, "localhost:" +:+ pretty (cn_port nd))) <$> nodes c)).
Proof. apply parse_peers_peer_str_eq. Qed.

Lemma resize_nodes c n0 :
  running c = false → (validate_node_count n0).1 = true →
  nodes (resize c n0) = (λ i, mkClusterNode (i + 1) (5000 + i + 1) None false) <$> seqZ 0 n0.
Proof.
  intros Hr Hv. unfold resize. rewrite Hr.
  destruct (validate_node_count n0) as [ok0 f0]. cbn in Hv. by subst.
Qed.

Lemma validate_ok_pos n0 : (validate_node_count n0).1 = true → 0 < n0.
Proof. unfold validate_node_count. destruct (Z.leb_spec n0 0); [done|lia]. Qed.

Lemma resize_ids c n0 :
  running c = false → (validate_node_count n0).1 = true →
  cn_id <$> nodes (resize c n0) = seqZ 1 n0.
Proof.
  intros Hr Hv. rewrite resize_nodes by done.
  rewrite <- list_fmap_compose. replace (seqZ 1 n0) with (seqZ (1 + 0) n0) by done.
  rewrite <- (fmap_add_seqZ 1 0 n0).
  apply list_fmap_ext. intros i x _. cbn. lia.
Qed.

Lemma Sorted_seqZ m k : Sorted Z.le (seqZ m (Z.of_nat k)).
Proof.
  revert m. induction k as [|k IH]; intros m.
  - rewrite seqZ_nil by lia. constructor.
  - rewrite seqZ_cons by lia.
    replace (Z.pred (Z.of_nat (S k))) with (Z.of_nat k) by lia.
    constructor; [apply IH|].
    destruct k as [|k].
    + rewrite seqZ_nil by lia. constructor.
    + rewrite seqZ_cons by lia. constructor. lia.
Qed.

Lemma keys_filter (k : Z) (l : list (Z * string)) :
  (filter (λ kv, kv.1 ≠ k) l).*1 = filter (λ x, x ≠ k) l.*1.
Proof.
  induction l as [|[k' v] l IH]; [done|].
  change (((k', v) :: l).*1) with (k' :: l.*1).
  rewrite !filter_cons. cbn [fst]. case_decide; cbn; by rewrite IH.
Qed.

Lemma NoDup_remove_perm (x : Z) l :
  NoDup l → x ∈ l → x :: filter (λ y, y ≠ x) l ≡ₚ l.
Proof.
  intros Hl Hx. apply NoDup_Permutation.
  - constructor; [|by apply NoDup_filter].
    rewrite list_elem_of_filter. naive_solver.
  - done.
  - intros y. rewrite elem_of_cons, list_elem_of_filter.
    destruct (decide (y = x)); naive_solver.
Qed.

Lemma resize_launch_facts c n0 exe nd :
  running c = false → (validate_node_count n0).1 = true → nd ∈ nodes (resize c n0) →
  1 <= cn_id nd <= n0 ∧ cn_port nd = 5000 + cn_id nd ∧
  ∃ sid sport speers rest st,
    build_node_argv exe (resize c n0) nd =
      exe :: "run_node.py" :: "--id" :: sid :: "--port" :: sport :: "--peers" :: speers :: rest ∧
    py_int sid = Some (cn_id nd) ∧ py_int sport = Some (cn_port nd) ∧
    launch_state (cn_id nd) speers (cn_byzantine nd) = Some st ∧
    peers st = filter (λ i, i ≠ cn_id nd) (seqZ 1 n0) ∧
    replica_ids st = seqZ 1 n0 ∧ n st = n0 ∧ f st = (n0 - 1) / 3 ∧
    ∀ v, primary_id (set_view_field st v) = v mod n0 + 1.
Proof.
  intros Hr Hv Hnd. pose proof (validate_ok_pos n0 Hv) as Hpos.
  pose proof (resize_ids c n0 Hr Hv) as Hids.
  assert (Hid : cn_id nd ∈ seqZ 1 n0).
  { rewrite <- Hids. by apply list_elem_of_fmap_2. }
  apply elem_of_seqZ in Hid.
  rewrite resize_nodes in Hnd by done.
  apply list_elem_of_fmap in Hnd as (i & Hnd_eq & Hi).
  split; [lia|]. split; [rewrite Hnd_eq; cbn; lia|].
  set (c' := resize c n0) in *.
  assert (Hparse : parse_peers (cn_id nd) (peer_str c') =
    Some (filter (λ kv, kv.1 ≠ cn_id nd)
      ((λ nd0, (cn_id nd0, "localhost:" +:+ pretty (cn_port nd0))) <$> nodes c'))).
  { apply parse_peers_peer_str_eq. subst c'. rewrite Hids. apply NoDup_seqZ. }
  set (d := filter _ _) in Hparse.
  assert (Hkeys : d.*1 = filter (λ x, x ≠ cn_id nd) (seqZ 1 n0)).
  { subst d. rewrite keys_filter, <- Hids. f_equal.
    rewrite <- list_fmap_compose. done. }
  set (st := init_state (cn_id nd) d.*1 (cn_byzantine nd)).
  assert (Hrep : replica_ids st = seqZ 1 n0).
  { change (merge_sort Z.le (cn_id nd :: d.*1) = seqZ 1 n0). rewrite Hkeys.
    apply (Sorted_unique_strong Z.le).
    - intros; lia.
    - apply Sorted_merge_sort. intros x y. lia.
    - rewrite <- (Z2Nat.id n0) by lia. apply Sorted_seqZ.
    - rewrite merge_sort_Permutation. apply NoDup_remove_perm; [apply NoDup_seqZ|].
      apply elem_of_seqZ. lia. }
  assert (Hn : n st = n0).
  { unfold n. rewrite Hrep, length_seqZ. lia. }
  exists (pretty (cn_id nd)), (pretty (cn_port nd)), (peer_str c'),
    (if cn_byzantine nd then ["--byzantine"] else []), st.
  split; [done|]. split; [apply py_int_pretty|]. split; [apply py_int_pretty|].
  split; [unfold launch_state; by rewrite Hparse|].
  split; [done|]. split; [done|]. split; [done|].
  split; [unfold f; rewrite Hn; apply Z.max_r; apply Z.div_pos; lia|].
  intros v. pose proof (primary_id_at st v) as H.
  rewrite Hrep, Hn, lookup_seqZ_lt in H.
  - injection H as <-. rewrite Z2Nat.id; [lia|]. apply Z.mod_pos_bound. lia.
  - rewrite Z2Nat.id; apply Z.mod_pos_bound; lia.
Qed.

(** X6: After resize(n) with a valid n on a stopped manager, every node
    has an id in 1..n and port 5000+id. Its command line parses back to
    that id and port, and to a replica whose peers are the other ids, with
    replica set 1..n, n replicas, f = (n-1)//3, and primary v mod n + 1 in
    every view v. *)
Theorem resize_launch c n0 exe nd :
  running c = false → (validate_node_count n0).1 = true → nd ∈ nodes (resize c n0) →
  1 <= cn_id nd <= n0 ∧ cn_port nd = 5000 + cn_id nd ∧
  ∃ sid sport speers rest st,
    build_node_argv exe (resize c n0) nd =
      exe :: "run_node.py" :: "--id" :: sid :: "--port" :: sport :: "--peers" :: speers :: rest ∧
    py_int sid = Some (cn_id nd) ∧ py_int sport = Some (cn_port nd) ∧
    launch_state (cn_id nd) speers (cn_byzantine nd) = Some st ∧
    peers st = filter (λ i, i ≠ cn_id nd) (seqZ 1 n0) ∧
    replica_ids st = seqZ 1 n0 ∧ n st = n0 ∧ f st = (n0 - 1) / 3 ∧
    ∀ v, primary_id (set_view_field st v) = v mod n0 + 1.
Proof. apply resize_launch_facts. Qed.

Lemma f_nonneg st : 0 <= f st.
Proof. unfold f. lia. Qed.

Lemma n_bounds_f st : 3 * f st + 1 <= n st <= 3 * f st + 3.
Proof.
  pose proof (n_pos st) as Hn. unfold f.
  rewrite Z.max_r by (apply Z.div_pos; lia).
  pose proof (Z.div_mod (n st - 1) 3 ltac:(lia)).
  pose proof (Z.mod_pos_bound (n st - 1) 3 ltac:(lia)). lia.
Qed.

(** X3: In every state f >= 0 and n >= 3f+1, the PREPARE quorum 2f is
    below the COMMIT quorum 2f+1, and the COMMIT quorum is at most n-f. *)
Theorem quorum_bounds st :
  0 <= f st ∧ 3 * f st + 1 <= n st ∧
  quorum_prepare st < quorum_commit st ∧ quorum_commit st <= n st - f st.
Proof.
  pose proof (f_nonneg st). pose proof (n_bounds_f st).
  unfold quorum_prepare, quorum_commit. lia.
Qed.

Lemma size_replica_set st : (size (list_to_set (node_id st :: peers st) : gset Z) ≤ Z.to_nat (n st))%nat.
Proof.
  rewrite n_length, Nat2Z.id. apply size_list_to_set_le.
Qed.

(** X4: When n = 3f+1, two sets of replica ids that both reach the COMMIT
    quorum 2f+1 share at least f+1 replicas. *)
Theorem commit_quorums_intersect st (A B : gset Z) :
  n st = 3 * f st + 1 →
  A ⊆ list_to_set (node_id st :: peers st) → B ⊆ list_to_set (node_id st :: peers st) →
  quorum_commit st <= Z.of_nat (size A) → quorum_commit st <= Z.of_nat (size B) →
  f st + 1 <= Z.of_nat (size (A ∩ B)).
Proof.
  intros Hn HA HB Hsa Hsb. unfold quorum_commit in *.
  pose proof (size_replica_set st) as Hs.
  pose proof (subseteq_size (A ∪ B) _ (union_least _ _ _ HA HB)) as Hu.
  pose proof (size_union_alt A B) as Hab.
  pose proof (size_difference_alt B A) as Hd.
  assert (HI : B ∩ A = A ∩ B) by (apply leibniz_equiv; set_solver). rewrite HI in Hd.
  pose proof (subseteq_size (A ∩ B) B ltac:(set_solver)). lia.
Qed.

(** X7: validate_node_count(n) accepts exactly the n > 0 with n mod 3 = 1,
    returns (False, 0) for n <= 0, and its second component at a replica's
    n is that replica's f. *)
Theorem validate_node_count_spec :
  (∀ n0, (validate_node_count n0).1 = true ↔ 0 < n0 ∧ n0 mod 3 = 1) ∧
  (∀ n0, n0 <= 0 → validate_node_count n0 = (false, 0)) ∧
  (∀ st, (validate_node_count (n st)).2 = f st).
Proof.
  split; [|split].
  - intros n0. unfold validate_node_count.
    destruct (Z.leb_spec n0 0); cbn; [split; [done|lia]|].
    rewrite bool_decide_eq_true.
    pose proof (Z.div_mod (n0 - 1) 3 ltac:(lia)).
    pose proof (Z.mod_pos_bound (n0 - 1) 3 ltac:(lia)).
    split.
    + intros Heq. split; [lia|]. rewrite <- Heq.
      rewrite Z.add_comm, Z.mul_comm, Z_mod_plus_full. done.
    + intros [_ Hm]. pose proof (Z.div_mod n0 3 ltac:(lia)).
      assert (Hq : (n0 - 1) / 3 = n0 / 3).
      { replace (n0 - 1) with (n0 / 3 * 3) by lia. apply Z.div_mul. lia. }
      lia.
  - intros n0 Hn0. unfold validate_node_count. destruct (Z.leb_spec n0 0); [done|lia].
  - intros st. pose proof (n_pos st). unfold validate_node_count, f.
    destruct (Z.leb_spec (n st) 0); [lia|]. cbn.
    rewrite Z.max_r; [done|]. apply Z.div_pos; lia.
Qed.

Lemma dict_set_keys {V} k (v : V) d :
  (dict_set k v d).*1 = if bool_decide (k ∈ d.*1) then d.*1 else d.*1 ++ [k].
Proof.
  induction d as [|[k' v'] d IH]; [done|]. cbn.
  destruct (decide (k = k')) as [->|Hne].
  - rewrite bool_decide_true by done. rewrite bool_decide_true by set_solver. done.
  - rewrite bool_decide_false by done. cbn. rewrite IH.
    destruct (decide (k ∈ d.*1)).
    + rewrite !bool_decide_true by set_solver. done.
    + rewrite !bool_decide_false by set_solver. done.
Qed.

Lemma dict_set_NoDup {V} k (v : V) d : NoDup d.*1 → NoDup (dict_set k v d).*1.
Proof.
  intros Hd. rewrite dict_set_keys. case_bool_decide; [done|].
  apply NoDup_app. split; [done|]. split; [|apply NoDup_singleton].
  intros x Hx ->%list_elem_of_singleton. done.
Qed.

Lemma parse_fold_NoDup (items : list string) acc d :
  foldl (λ acc item,
          d ← acc;
          match py_split "@" item with
          | [pid; addr] => k ← py_int pid; Some (dict_set k addr d)
          | _ => None
          end) acc items = Some d →
  (∀ a, acc = Some a → NoDup (a : list (Z * string)).*1) → NoDup d.*1.
Proof.
  revert acc. induction items as [|it items IH]; intros acc Hf Hacc.
  - cbn in Hf. by apply Hacc.
  - cbn in Hf. apply (IH _ Hf). intros a Ha.
    destruct acc as [a0|]; [|done]. cbn in Ha.
    destruct (py_split "@" it) as [|pid [|addr [|]]]; try done.
    destruct (py_int pid) as [k|]; [|done]. cbn in Ha. injection Ha as <-.
    apply dict_set_NoDup. by apply Hacc.
Qed.

(** X8: Whenever run_node.py manages to parse its --peers argument, the
    replica it builds has the given id, and its own id and peers are
    pairwise distinct: repeated ids collapse and its own id is dropped. *)
Theorem launch_state_NoDup self_id peers_arg byz st :
  launch_state self_id peers_arg byz = Some st →
  node_id st = self_id ∧ NoDup (node_id st :: peers st).
Proof.
  unfold launch_state, parse_peers. intros H.
  destruct (foldl _ (Some []) _) as [d|] eqn:Hf; [|done]. cbn in H. injection H as <-.
  cbn. unfold dict_pop. split; [done|]. constructor.
  - rewrite keys_filter, list_elem_of_filter. naive_solver.
  - rewrite keys_filter. apply NoDup_filter.
    eapply parse_fold_NoDup; [exact Hf|]. intros a [= <-]. constructor.
Qed.

Lemma py_split_nonempty sep s : ∃ x r, py_split sep s = x :: r.
Proof.
  induction s as [|c s (x & r & IH)]; [by eexists _, _|]. cbn. rewrite IH.
  destruct (Ascii.eqb c sep); eauto.
Qed.

Lemma py_split_app_sep sep a b :
  py_split sep (a +:+ String sep b) = py_split sep a ++ py_split sep b.
Proof.
  induction a as [|c a IH].
  - rewrite app_nil_str. cbn. by rewrite Ascii.eqb_refl.
  - rewrite app_cons_str. cbn [py_split]. rewrite IH.
    destruct (py_split_nonempty sep a) as (x & r & Hx). rewrite Hx. cbn.
    destruct (Ascii.eqb c sep); done.
Qed.

Lemma join_py_split sep s : String.concat (String sep EmptyString) (py_split sep s) = s.
Proof.
  induction s as [|c s IH]; [done|]. cbn [py_split].
  destruct (py_split_nonempty sep s) as (x & r & Hx). rewrite Hx in IH |- *.
  destruct (Ascii.eqb_spec c sep) as [->|Hne].
  - change (String.concat (String sep "") ("" :: x :: r))
      with ("" +:+ String sep (String.concat (String sep "") (x :: r))).
    by rewrite app_nil_str, IH.
  - destruct r as [|y r]; cbn in IH |- *; [by subst|].
    change (String c x +:+ String sep (String.concat (String sep "") (y :: r)) = String c s).
    rewrite app_cons_str. f_equal. exact IH.
Qed.

Lemma py_rsplit1_last sep a b :
  str_all (no_char sep) b = true → py_rsplit1 sep (a +:+ String sep b) = Some (a, b).
Proof.
  intros Hb. unfold py_rsplit1. rewrite py_split_app_sep, (py_split_single sep b Hb).
  rewrite reverse_app. change (reverse [b]) with [b]. cbn [app].
  destruct (reverse (py_split sep a)) as [|y l] eqn:E.
  { apply (f_equal length) in E. rewrite length_reverse in E.
    destruct (py_split_nonempty sep a) as (x & r & Hx). by rewrite Hx in E. }
  rewrite <- E, reverse_involutive, join_py_split. done.
Qed.

Lemma fallback_host_inj host : Inj (=) (=) (λ p : Z, host +:+ ":" +:+ pretty p).
Proof.
  intros p q H. cbv beta in H. apply (inj (String.app host)) in H.
  change (String ":" (pretty p) = String ":" (pretty q)) in H. injection H as H.
  by apply (inj pretty).
Qed.

Lemma fallback_addrs_NoDup addr : NoDup (fallback_addrs addr) ∧ fallback_addrs addr ≠ [].
Proof.
  unfold fallback_addrs.
  destruct (py_rsplit1 ":" addr) as [[host port_s]|]; [|split; [apply NoDup_singleton|done]].
  destruct (py_int port_s) as [port|]; [|split; [apply NoDup_singleton|done]].
  destruct (_ && _); [|split; [apply NoDup_singleton|done]].
  split; [|done]. apply NoDup_fmap_2; [apply fallback_host_inj|apply NoDup_seqZ].
Qed.

(** X9: _fallback_addrs returns a nonempty list without duplicates. An
    address without a colon gives only itself; host:p with 5001 <= p <=
    5010 gives host:5001, ..., host:5010 in order; any other port gives
    only the address itself. *)
Theorem fallback_addrs_spec :
  (∀ addr, NoDup (fallback_addrs addr) ∧ fallback_addrs addr ≠ []) ∧
  (∀ addr, str_all (no_char ":") addr = true → fallback_addrs addr = [addr]) ∧
  (∀ host p, 5001 <= p <= 5010 →
     fallback_addrs (host +:+ ":" +:+ pretty p) =
       (λ q, host +:+ ":" +:+ pretty q) <$> seqZ 5001 10) ∧
  (∀ host p, ¬ (5001 <= p <= 5010) →
     fallback_addrs (host +:+ ":" +:+ pretty p) = [host +:+ ":" +:+ pretty p]).
Proof.
  split; [|split; [|split]].
  - apply fallback_addrs_NoDup.
  - intros addr Ha. unfold fallback_addrs, py_rsplit1.
    rewrite (py_split_single _ _ Ha). done.
  - intros host p Hp. unfold fallback_addrs.
    change (host +:+ ":" +:+ pretty p) with (host +:+ String ":" (pretty p)).
    rewrite py_rsplit1_last by (apply pretty_no_char; done).
    rewrite py_int_pretty. destruct (Z.leb_spec 5001 p), (Z.leb_spec p 5010); try lia. done.
  - intros host p Hp. unfold fallback_addrs.
    change (host +:+ ":" +:+ pretty p) with (host +:+ String ":" (pretty p)).
    rewrite py_rsplit1_last by (apply pretty_no_char; done).
    rewrite py_int_pretty. destruct (Z.leb_spec 5001 p), (Z.leb_spec p 5010); try lia; done.
Qed.

Lemma try_fallbacks_spec submit self_addr i alts e :
  let '(res, tr) := try_fallbacks submit self_addr i alts e in
  (tr `sublist_of` alts) ∧ (self_addr ∉ tr) ∧
  (tr = [] → res = RpcError e) ∧
  (∀ j a, tr !! j = Some a → S j = length tr → res = submit (i + j)%nat a) ∧
  (∀ j a, tr !! j = Some a → (S j < length tr)%nat → ∃ e', submit (i + j)%nat a = RpcError e').
Proof.
  revert i e. induction alts as [|alt alts IH]; intros i e; cbn.
  { split; [done|]. split; [set_solver|]. split; [done|]. split; intros j a Hj; done. }
  destruct (String.eqb_spec alt self_addr) as [->|Hne].
  { specialize (IH i e). destruct (try_fallbacks _ _ _ _ _) as [res tr].
    destruct IH as (Hs & Hn & H0 & Hl & He). split; [by apply sublist_cons|]. done. }
  destruct (submit i alt) as [r|e2] eqn:Hsub.
  - split; [apply sublist_skip, sublist_nil_l|]. split; [set_solver|].
    split; [done|]. split.
    + intros j a Hj Hlen. destruct j; [|done]. cbn in Hj. injection Hj as <-.
      rewrite Nat.add_0_r. done.
    + intros j a _ Hlt. cbn in Hlt. lia.
  - specialize (IH (S i) e2). destruct (try_fallbacks _ _ _ _ _) as [res tr].
    destruct IH as (Hs & Hn & H0 & Hl & He).
    split; [by apply sublist_skip|]. split; [set_solver|]. split; [done|]. split.
    + intros [|j] a Hj Hlen; cbn in Hj, Hlen.
      * injection Hj as <-. destruct tr; [|done]. rewrite H0 by done.
        rewrite Nat.add_0_r. done.
      * rewrite (Hl j a Hj ltac:(lia)). f_equal. lia.
    + intros [|j] a Hj Hlt; cbn in Hj, Hlt.
      * injection Hj as <-. rewrite Nat.add_0_r. eauto.
      * destruct (He j a Hj ltac:(lia)) as [e' He']. exists e'.
        replace (i + S j)%nat with (S i + j)%nat by lia. done.
Qed.

(** X10: PBFTClient.client_request tries the given address first and then
    only fallback addresses, never one address twice. Every attempt but
    the last failed with an RPC error, the outcome is that of the last
    attempt, and a first error that is neither UNAVAILABLE nor
    DEADLINE_EXCEEDED is returned without trying any fallback. *)
Theorem client_request_attempts submit addr :
  let '(res, tried) := client_request submit addr in
  head tried = Some addr ∧ NoDup tried ∧
  (∀ a, a ∈ tried → a = addr ∨ a ∈ fallback_addrs addr) ∧
  (∃ j a, tried !! j = Some a ∧ S j = length tried ∧ res = submit j a) ∧
  (∀ j a, tried !! j = Some a → (S j < length tried)%nat → ∃ e, submit j a = RpcError e) ∧
  (∀ e, submit 0%nat addr = RpcError e → retryable e = false → tried = [addr]).
Proof.
  unfold client_request.
  destruct (submit 0%nat addr) as [r|e] eqn:H0.
  { split; [done|]. split; [apply NoDup_singleton|]. split; [set_solver|].
    split; [exists 0%nat, addr; done|]. split; [intros j a _ Hj; cbn in Hj; lia|].
    intros e He. congruence. }
  destruct (retryable e) eqn:Hr.
  2: { split; [done|]. split; [apply NoDup_singleton|]. split; [set_solver|].
       split; [exists 0%nat, addr; done|]. split; [intros j a _ Hj; cbn in Hj; lia|].
       done. }
  pose proof (try_fallbacks_spec submit addr 1 (fallback_addrs addr) e) as Hspec.
  destruct (try_fallbacks _ _ _ _ _) as [res tr].
  destruct Hspec as (Hs & Hn & Hnil & Hl & He).
  split; [done|]. split.
  { constructor; [done|]. eapply sublist_NoDup; [|exact Hs].
    apply (proj1 (fallback_addrs_NoDup addr)). }
  split.
  { intros a [->|Ha]%elem_of_cons; [by left|]. right. by eapply elem_of_sublist. }
  split.
  { destruct (decide (tr = [])) as [->|Hne].
    - exists 0%nat, addr. rewrite Hnil by done. done.
    - assert (Hlen : (0 < length tr)%nat) by (destruct tr; [done|cbn; lia]).
      destruct (lookup_lt_is_Some_2 tr (length tr - 1)) as [a Ha]; [lia|].
      exists (S (length tr - 1)), a.
      split; [done|]. split; [cbn; lia|].
      rewrite (Hl _ a Ha); [done|]. lia. }
  split.
  { intros [|j] a Hj Hlt; cbn in Hj, Hlt.
    - injection Hj as <-. eauto.
    - apply (He j a Hj). lia. }
  intros e' He' Hr'. congruence.
Qed.

(** * Predicates of the statements about executions *)

Section LogWf.

Variable sha256_hex : string -> string.

Lemma log_wf_same_log st st' : log st' = log st → log_wf sha256_hex st → log_wf sha256_hex st'.
Proof. intros E H k e. rewrite E. apply H. Qed.

Lemma log_wf_insert st l k e :
  l = <[k := e]> (log st) → log_wf sha256_hex st → entry_wf sha256_hex k e →
  ∀ k' e', l !! k' = Some e' → entry_wf sha256_hex k' e'.
Proof.
  intros -> Hwf He k' e' Hl. apply lookup_insert_Some in Hl as [[<- <-]|[_ Hl]]; [done|].
  by apply Hwf.
Qed.

Lemma on_commit_wf req st : log_wf sha256_hex st → log_wf sha256_hex (on_commit req st).1.2.
Proof.
  intros Hwf. pose proof (on_commit_spec req st) as Hs. cbv zeta in Hs.
  pose proof (raise_view_fields st (c_view req)) as (_ & _ & _ & _ & Hlog & _).
  destruct (on_commit req st) as [[a st'] out]. cbn [fst snd].
  destruct Hs as (_ & Hs).
  destruct Hs as [(_ & _ & ->)|[(_ & _ & _ & ->)|[(_ & _ & _ & ->)|[(_ & _ & _ & _ & _ & ->)|
    (_ & _ & _ & e & He & Hs)]]]].
  - done.
  - done.
  - by apply (log_wf_same_log st).
  - by apply (log_wf_same_log st).
  - destruct Hs as [(_ & _ & ->)|[(_ & _ & _ & ->)|(Hx & _ & _ & ->)]];
      [by apply (log_wf_same_log st)..|].
    intros k e'. cbn. eapply (log_wf_insert st); [reflexivity|done|].
    destruct (Hwf _ _ He) as (Hk & Hd & Hxc & Hr & Her).
    rewrite Hx in Hr, Her. cbn.
    split; [done|]. split; [done|].
    destruct (prepared e && negb (committed e) && _) eqn:Hb; cbn.
    + split; [by rewrite orb_true_r|]. done.
    + split; [done|]. done.
Qed.

Lemma on_prepare_wf req st : log_wf sha256_hex st → log_wf sha256_hex (on_prepare req st).1.2.
Proof.
  intros Hwf. pose proof (on_prepare_spec req st) as Hs. cbv zeta in Hs.
  pose proof (raise_view_fields st (p_view req)) as (_ & _ & _ & _ & Hlog & _).
  destruct (on_prepare req st) as [[a st'] out]. cbn [fst snd].
  destruct Hs as [(_ & _ & -> & _)|[(_ & _ & _ & -> & _)|[(_ & _ & _ & -> & _)|
    [(_ & _ & _ & _ & _ & _ & ->)|(_ & _ & _ & e & He & Hs)]]]].
  - done.
  - done.
  - by apply (log_wf_same_log st).
  - by apply (log_wf_same_log st).
  - destruct Hs as [(_ & _ & -> & _)|[(Hx & _ & _ & Hs)|(Hx & _ & _ & Hs)]].
    + by apply (log_wf_same_log st).
    + destruct (f st + 1 <=? _); destruct Hs as [_ ->]; by apply (log_wf_same_log st).
    + set (e2 := mkEntry _ _ _ _ _ _ _ _ _ _ _ _ _) in Hs.
      assert (Hwf2 : log_wf sha256_hex
                (set_log (raise_view st (p_view req)) (<[(p_view req, p_seq req) := e2]> (log st)))).
      { intros k e'. cbn. eapply (log_wf_insert st); [reflexivity|done|].
        destruct (Hwf _ _ He) as (Hk & Hd & Hxc & Hr & Her). subst e2. cbn.
        rewrite Hx in Hxc, Hr, Her |- *. done. }
      destruct (negb (prepared e) && _); destruct Hs as [-> _]; [|done].
      by apply on_commit_wf.
Qed.

Lemma multicast_prepare_wf v s d st :
  log_wf sha256_hex st → log_wf sha256_hex (multicast_prepare v s d st).1.2.
Proof.
  intros Hwf. rewrite multicast_prepare_run. case_bool_decide; [done|]. cbv zeta.
  pose proof (on_prepare_wf (mkPrepare v s (maybe_corrupt_digest st d) (node_id st)) st Hwf) as Hop.
  destruct (on_prepare _ st) as [[a st'] o]. exact Hop.
Qed.

Lemma accept_pre_prepare_wf req st :
  digest sha256_hex (pp_request req) = pp_digest req →
  log_wf sha256_hex st → log_wf sha256_hex (accept_pre_prepare req st).1.2.
Proof.
  intros Hd Hwf. rewrite accept_pre_prepare_run. destruct (lock_held st); [exact Hwf|].
  cbv zeta. cbn.
  set (key := (pp_view req, pp_seq req)).
  set (r := pp_request req).
  set (ne := new_entry (pp_view req) (pp_seq req) (pp_digest req) (client_id r)
               (request_id r) (payload r)).
  assert (Hne : entry_wf sha256_hex key ne).
  { subst ne. unfold entry_wf. cbn. split; [done|]. split; [|done].
    rewrite <- Hd. reflexivity. }
  set (log1 := match log st !! key with Some _ => log st | None => <[key := ne]> (log st) end).
  assert (Hwf1 : ∀ k e, log1 !! k = Some e → entry_wf sha256_hex k e).
  { subst log1. destruct (log st !! key); [apply Hwf|]. by eapply (log_wf_insert st); [reflexivity|..]. }
  assert (Hk : ∃ e, log1 !! key = Some e).
  { subst log1. destruct (log st !! key) eqn:E; [eauto|]. rewrite lookup_insert_eq. eauto. }
  destruct Hk as [e He]. rewrite He. cbn.
  intros k e'. cbn. intros Hl.
  apply lookup_insert_Some in Hl as [[<- <-]|[_ Hl]]; [|by apply Hwf1].
  destruct (Hwf1 _ _ He) as (H1 & H2 & H3 & H4 & H5). done.
Qed.

Lemma on_pre_prepare_wf req b st :
  log_wf sha256_hex st → log_wf sha256_hex (on_pre_prepare sha256_hex req b st).1.2.
Proof.
  intros Hwf. pose proof (on_pre_prepare_spec sha256_hex req b st) as Hs. cbv zeta in Hs.
  pose proof (raise_view_fields st (pp_view req)) as (_ & _ & _ & _ & Hlog & _).
  destruct (on_pre_prepare sha256_hex req b st) as [[a st'] out]. cbn [fst snd].
  destruct Hs as [(_ & _ & -> & _)|[(_ & _ & _ & -> & _)|[(_ & _ & _ & -> & _)|
                 [(_ & _ & _ & _ & -> & _)|[(_ & _ & _ & _ & _ & _ & -> & _)|
                 (_ & _ & _ & _ & Hd & Hs)]]]]].
  - done.
  - done.
  - by apply (log_wf_same_log st).
  - by apply (log_wf_same_log st).
  - by apply (log_wf_same_log st).
  - assert (Hwf1 : log_wf sha256_hex (raise_view st (pp_view req))) by
      (by apply (log_wf_same_log st)).
    pose proof (accept_pre_prepare_wf req _ Hd Hwf1) as Hwf2.
    destruct b.
    + pose proof (multicast_prepare_wf (pp_view req) (pp_seq req) (pp_digest req) _ Hwf2).
      destruct (multicast_prepare _ _ _ _) as [[u st3] o3]. by injection Hs as _ -> _.
    + by destruct Hs as (_ & -> & _).
Qed.

Lemma ensure_live_primary_wf ping_ok h st :
  log_wf sha256_hex st → log_wf sha256_hex (ensure_live_primary ping_ok h st).1.2.
Proof.
  intros Hwf. rewrite ensure_live_primary_run.
  pose proof (ensure_loop_frame ping_ok 0 (Z.to_nat (Z.max 1 (match h with Some h => h | None => n st end))) st) as H.
  destruct (ensure_loop _ _ _ _) as [[b st'] o]. destruct H as [E _]. cbn.
  apply (log_wf_same_log st); [by rewrite E|done].
Qed.

Lemma client_request_primary_wf rb req st :
  log_wf sha256_hex st → log_wf sha256_hex (client_request_primary sha256_hex rb req st).1.2.
Proof.
  intros Hwf. rewrite client_request_primary_run. cbv zeta.
  assert (H : log_wf sha256_hex (set_log (set_next_seq st (next_seq st + 1))
               (<[(view st, next_seq st) := new_entry (view st) (next_seq st)
                   (digest sha256_hex req) (client_id req) (request_id req) (payload req)]>
                  (log st)))).
  { intros k e. cbn. eapply (log_wf_insert st); [reflexivity|done|]. unfold entry_wf. done. }
  destruct (lock_held st); [done|]. by destruct (byzantine st).
Qed.

Lemma on_client_request_wf ping_ok rb fwd req st :
  log_wf sha256_hex st → log_wf sha256_hex (on_client_request sha256_hex ping_ok rb fwd req st).1.2.
Proof.
  intros Hwf. unfold on_client_request. unfold_monad.
  destruct (alive st); cbn [negb]; [|done].
  case_bool_decide as Hp.
  - destruct (forwarded req); [done|].
    pose proof (ensure_live_primary_wf ping_ok None st Hwf) as H1.
    destruct (ensure_live_primary _ _ st) as [[[b|] st1] o1]; cbn in H1;
      cbv beta iota; [|exact H1].
    case_bool_decide.
    + pose proof (client_request_primary_wf rb req st1 H1) as H2.
      destruct (client_request_primary _ _ _ st1) as [[c st2] o2].
      destruct c; exact H2.
    + unfold emit. case_bool_decide; [destruct (fwd _)|]; cbn; exact H1.
  - pose proof (client_request_primary_wf rb req st Hwf) as H2.
    destruct (client_request_primary _ _ _ st) as [[c st2] o2]. exact H2.
Qed.

Lemma step_wf st i : log_wf sha256_hex st → log_wf sha256_hex (step sha256_hex st i).
Proof.
  intros Hwf. unfold step, run_input.
  destruct i as [req p rb fwd|req v s|req b|req|req|req|status|p h|]; unfold_monad.
  - pose proof (on_client_request_wf p rb fwd req st Hwf) as H.
    destruct (on_client_request _ _ _ _ _ st) as [[[o|] st'] out]; exact H.
  - pose proof (client_reply_after_wait_run req v s st) as H.
    destruct (client_reply_after_wait req v s st) as [[[o|] st'] out]; cbn in *; by subst.
  - pose proof (on_pre_prepare_wf req b st Hwf) as H.
    destruct (on_pre_prepare _ req b st) as [[[o|] st'] out]; exact H.
  - pose proof (on_prepare_wf req st Hwf) as H.
    destruct (on_prepare req st) as [[[o|] st'] out]; exact H.
  - pose proof (on_commit_wf req st Hwf) as H.
    destruct (on_commit req st) as [[[o|] st'] out]; exact H.
  - rewrite on_set_view_run.
    destruct (negb (alive st)); [done|]. destruct (_ <=? _); [done|].
    destruct (lock_held st); [done|]. by apply (log_wf_same_log st).
  - rewrite sync_view_from_peers_run. cbv zeta. cbn.
    destruct (_ <? _); [|done]. destruct (lock_held st); [done|].
    by apply (log_wf_same_log st).
  - pose proof (ensure_live_primary_wf p h st Hwf) as H.
    destruct (ensure_live_primary p h st) as [[[o|] st'] out]; exact H.
  - unfold kill_node. unfold_monad. cbn. by apply (log_wf_same_log st).
Qed.

Lemma exec_wf st is : log_wf sha256_hex st → log_wf sha256_hex (exec sha256_hex st is).
Proof.
  unfold exec. revert st. induction is as [|i is IH]; intros st Hwf; [done|].
  cbn. apply IH, step_wf, Hwf.
Qed.

(** X11: In every execution from an initial replica state, each log entry
    sits under its own (view, seq), its digest is the hash of
    client_id|request_id|payload, executed implies committed, and result
    and error are set exactly when it is executed. The reply read after
    the wait on an executed entry is the successful reply carrying the
    payload as result. *)
Theorem log_integrity nid ps byz is :
  let st := exec sha256_hex (init_state nid ps byz) is in
  (∀ k e, log st !! k = Some e →
     k = (e_view e, e_seq e) ∧
     e_digest e = sha256_hex (e_client_id e +:+ "|" +:+ e_request_id e +:+ "|" +:+ e_payload e) ∧
     (executed e = true → committed e = true) ∧
     result e = (if executed e then Some (e_payload e) else None) ∧
     error e = (if executed e then Some "" else None)) ∧
  (∀ req v s e, log st !! (v, s) = Some e → executed e = true →
     client_reply_after_wait req v s st =
       if lock_held st then (None, st, []) else
       (Some (mkClientReply (e_client_id e) (e_request_id e) (node_id st) v s true
                (e_payload e) ""), st, [])).
Proof.
  cbv zeta. pose proof (exec_wf (init_state nid ps byz) is ltac:(intros k e; cbn; done)) as Hwf.
  split; [exact Hwf|].
  intros req v s e He Hx. destruct (Hwf _ _ He) as ([= Hv Hs] & _ & Hc & Hr & Her).
  unfold client_reply_after_wait.
  cbv beta iota delta [mbind M_bind get put mret M_ret acquire release stuck].
  destruct (lock_held _) eqn:L; [done|].
  cbn [log node_id set_lock_held]. rewrite He, set_lock_held_twice, set_lock_held_free by done.
  rewrite Hx in Hc, Hr, Her. rewrite Hr, Her, Hc by done. cbn. by rewrite <- Hv, <- Hs.
Qed.

End LogWf.

Section Inert.

Variable sha256_hex : string -> string.

Lemma dead_step st i :
  alive st = false →
  step sha256_hex st i = set_view_field st (view (step sha256_hex st i)).
Proof.
  intros Ha. unfold step, run_input.
  destruct i as [req p rb fwd|req v s|req b|req|req|req|status|p h|]; unfold_monad.
  - unfold on_client_request. unfold_monad. rewrite Ha. cbn. by rewrite set_view_field_same.
  - pose proof (client_reply_after_wait_run req v s st).
    destruct (client_reply_after_wait req v s st) as [[[o|] st'] out]; cbn in *; subst;
      by rewrite set_view_field_same.
  - pose proof (on_pre_prepare_spec sha256_hex req b st) as Hs. cbv zeta in Hs.
    destruct (on_pre_prepare _ req b st) as [[o st'] out].
    assert (st' = st) as ->.
    { destruct Hs as [(_ & _ & -> & _)|Hs]; [done|].
      exfalso. repeat destruct Hs as [(Hx & _)|Hs]; try congruence.
      destruct Hs as [Hx _]. congruence. }
    destruct o; cbn; by rewrite set_view_field_same.
  - pose proof (on_prepare_spec req st) as Hs. cbv zeta in Hs.
    destruct (on_prepare req st) as [[o st'] out].
    assert (st' = st) as ->.
    { destruct Hs as [(_ & _ & -> & _)|Hs]; [done|].
      exfalso. repeat destruct Hs as [(Hx & _)|Hs]; try congruence.
      destruct Hs as [Hx _]. congruence. }
    destruct o; cbn; by rewrite set_view_field_same.
  - pose proof (on_commit_spec req st) as Hs. cbv zeta in Hs.
    destruct (on_commit req st) as [[o st'] out].
    assert (st' = st) as ->.
    { destruct Hs as [_ [(_ & _ & ->)|Hs]]; [done|].
      exfalso. repeat destruct Hs as [(Hx & _)|Hs]; try congruence.
      destruct Hs as [Hx _]. congruence. }
    destruct o; cbn; by rewrite set_view_field_same.
  - rewrite on_set_view_run, Ha. cbn. by rewrite set_view_field_same.
  - rewrite sync_view_from_peers_run. cbv zeta. cbn.
    destruct (_ <? _); [destruct (lock_held st)|]; cbn; [by rewrite set_view_field_same|done|].
    by rewrite set_view_field_same.
  - rewrite ensure_live_primary_run.
    pose proof (ensure_loop_frame p 0 (Z.to_nat (Z.max 1 (match h with Some h => h | None => n st end))) st) as H.
    destruct (ensure_loop _ _ _ _) as [[[b|] st'] o]; destruct H as [E _]; exact E.
  - cbn. destruct st; cbn in Ha; subst; reflexivity.
Qed.

Lemma dead_fold s0 is s :
  alive s = false → s = set_view_field s0 (view s) →
  let s' := fold_left (step sha256_hex) is s in
  alive s' = false ∧ s' = set_view_field s0 (view s').
Proof.
  revert s. induction is as [|i is IH]; intros s Hs Hs0; [done|].
  cbn [fold_left]. apply IH.
  - rewrite (dead_step s i Hs). exact Hs.
  - rewrite (dead_step s i Hs) at 1. rewrite Hs0 at 1. reflexivity.
Qed.

(** X12: After KillNode a replica stays dead: whatever calls follow, alive
    stays False and nothing but the view changes. *)
Theorem kill_is_final st is :
  let st' := exec sha256_hex st (InKill :: is) in
  alive st' = false ∧ st' = set_view_field (set_alive st false) (view st').
Proof.
  cbv zeta. unfold exec. cbn [fold_left].
  change (step sha256_hex st InKill) with (set_alive st false).
  apply dead_fold; [done|]. destruct st; reflexivity.
Qed.

End Inert.

Lemma sync_max_view_upper status pids v0 pid v :
  pid ∈ pids → status pid = Some v → v <= sync_max_view status pids v0.
Proof.
  unfold sync_max_view. revert v0. induction pids as [|p ps IH]; intros v0 Hin Hs.
  - by apply elem_of_nil in Hin.
  - cbn [fold_left]. apply elem_of_cons in Hin as [->|Hin]; [|by apply IH].
    rewrite Hs. pose proof (sync_max_view_ge status ps (if v0 <? v then v else v0)) as G.
    unfold sync_max_view in G. destruct (v0 <? v) eqn:E; [lia|]. apply Z.ltb_ge in E. lia.
Qed.

Lemma sync_max_view_attained status pids v0 :
  sync_max_view status pids v0 = v0 ∨
  ∃ pid, pid ∈ pids ∧ status pid = Some (sync_max_view status pids v0).
Proof.
  unfold sync_max_view. revert v0. induction pids as [|p ps IH]; intros v0; cbn [fold_left]; [by left|].
  destruct (status p) as [v|] eqn:Hp.
  - destruct (v0 <? v).
    + destruct (IH v) as [E|(pid & Hin & Hs)]; right.
      * exists p. rewrite E. split; [apply elem_of_cons; by left|done].
      * exists pid. split; [apply elem_of_cons; by right|done].
    + destruct (IH v0) as [E|(pid & Hin & Hs)]; [by left|right].
      exists pid. split; [apply elem_of_cons; by right|done].
  - destruct (IH v0) as [E|(pid & Hin & Hs)]; [by left|right].
    exists pid. split; [apply elem_of_cons; by right|done].
Qed.

(** X14: _sync_view_from_peers sends one GetStatus RPC to each peer, in
    the order of peers, changes only the view, never lowers it, and, when
    it returns, ends at the maximum of the replica's own view and the
    views its peers report.  It never returns exactly when that maximum is
    above its view while the lock is held (by a call that never
    returned); then it changes nothing. *)
Theorem sync_view_is_max status st :
  let max_view := sync_max_view status (peers st) (view st) in
  let '(r, st', out) := sync_view_from_peers status st in
  out = map SendGetStatus (peers st) ∧ st' = set_view_field st (view st') ∧
  view st <= view st' ∧
  (r = None ↔ view st < max_view ∧ lock_held st = true) ∧
  (r = None → st' = st) ∧
  (r = Some tt →
     (∀ pid v, pid ∈ peers st → status pid = Some v → v <= view st') ∧
     (view st' = view st ∨ ∃ pid, pid ∈ peers st ∧ status pid = Some (view st'))).
Proof.
  cbv zeta. rewrite sync_view_from_peers_run. cbv zeta.
  pose proof (sync_max_view_ge status (peers st) (view st)) as G.
  pose proof (sync_max_view_upper status (peers st) (view st)) as U.
  pose proof (sync_max_view_attained status (peers st) (view st)) as A.
  destruct (view st <? _) eqn:E; [destruct (lock_held st) eqn:L|];
    cbn [fst snd view set_view_field]; rewrite app_nil_r.
  - apply Z.ltb_lt in E.
    split; [done|]. split; [by rewrite set_view_field_same|]. split; [lia|].
    split; [split; [done|auto]|]. split; [done|]. discriminate.
  - apply Z.ltb_lt in E.
    split; [done|]. split; [done|]. split; [lia|].
    split; [split; [discriminate|intros [_ ?]; congruence]|]. split; [discriminate|].
    intros _. split; [exact U|].
    destruct A as [A|A]; [right; lia|right; exact A].
  - apply Z.ltb_ge in E.
    split; [done|]. split; [by rewrite set_view_field_same|]. split; [lia|].
    split; [split; [discriminate|lia]|]. split; [discriminate|].
    intros _. split; [intros pid v Hin Hs; specialize (U pid v Hin Hs); lia|by left].
Qed.

Section Forwarding.

Variable sha256_hex : string -> string.

Lemma no_forward_filter l :
  Forall (λ o, is_forward o = false) l → filter (λ o, is_forward o = true) l = [].
Proof.
  induction 1 as [|o l Ho _ IH]; [done|].
  rewrite filter_cons. rewrite Ho. by destruct (decide (false = true)).
Qed.

Lemma ensure_loop_no_forward ping_ok i k st :
  Forall (λ o, is_forward o = false) (ensure_loop ping_ok i k st).2.
Proof.
  revert i st. induction k as [|k IH]; intros i st.
  - cbn. unfold_monad. cbn. constructor.
  - rewrite ensure_loop_run_S. cbv zeta.
    case_bool_decide; [constructor|].
    assert (Hp : Forall (λ o, is_forward o = false)
              (if bool_decide (primary_id st ∈ peers st) then [SendPing (primary_id st)] else [])).
    { case_bool_decide; repeat constructor. }
    destruct (_ && _); [cbn; by rewrite app_nil_r|].
    destruct (lock_held st); [cbn; by rewrite app_nil_r|].
    specialize (IH (S i) (set_view_field st (view st + 1))).
    destruct (ensure_loop _ _ _ _) as [[b st3] o3]. cbn in IH |- *.
    apply Forall_app. split; [done|]. apply Forall_app. split.
    + apply Forall_forall. intros o Ho. apply list_elem_of_fmap in Ho as (q & -> & _). done.
    + done.
Qed.

Lemma byz_send_chaos_no_forward rb draw ps req v s st :
  Forall (λ o, is_forward o = false) (byz_send_chaos sha256_hex rb draw ps req v s st).
Proof.
  revert draw. induction ps as [|p ps IH]; intros draw; cbn; [constructor|].
  destruct (byz_make_chaos_pre_prepare _ _ _ _ _ _ _ _ _) as [pre draw'].
  constructor; [done|apply IH].
Qed.

Lemma client_request_primary_no_forward rb req st :
  Forall (λ o, is_forward o = false) (client_request_primary sha256_hex rb req st).2.
Proof.
  rewrite client_request_primary_run. cbv zeta.
  destruct (lock_held st); [cbn; constructor|].
  destruct (byzantine st); cbn; rewrite app_nil_r.
  - apply byz_send_chaos_no_forward.
  - apply Forall_forall. intros o Ho. apply list_elem_of_fmap in Ho as (q & -> & _). done.
Qed.

(** X13: on_client_request forwards at most one request, and only when the
    request was not itself forwarded and the replica is alive and not the
    primary. The forwarded message is the same request marked forwarded,
    sent to the primary of the view the replica ends in, which is one of
    its peers and not the replica itself. *)
Theorem on_client_request_forwarding ping_ok rb fwd req st :
  let '(_, st', out) := on_client_request sha256_hex ping_ok rb fwd req st in
  filter (λ o, is_forward o = true) out = [] ∨
  (forwarded req = false ∧ alive st = true ∧ node_id st ≠ primary_id st ∧
   filter (λ o, is_forward o = true) out =
     [ForwardRequest (primary_id st')
        (mkClientRequest (client_id req) (request_id req) (timestamp_ms req) (payload req) true)] ∧
   primary_id st' ∈ peers st ∧ primary_id st' ≠ node_id st).
Proof.
  unfold on_client_request. unfold_monad.
  destruct (alive st) eqn:Ha; cbn [negb]; [|by left].
  case_bool_decide as Hp.
  - destruct (forwarded req) eqn:Hf; [by left|].
    rewrite ensure_live_primary_run.
    pose proof (ensure_loop_frame ping_ok 0 (Z.to_nat (Z.max 1 (n st))) st) as Hfr.
    pose proof (ensure_loop_no_forward ping_ok 0 (Z.to_nat (Z.max 1 (n st))) st) as Hnf.
    destruct (ensure_loop _ _ _ st) as [[[b|] st1] o1]; cbn in Hnf; destruct Hfr as [Hst1 _];
      [|left; cbn; by apply no_forward_filter].
    case_bool_decide as Hq.
    + pose proof (client_request_primary_no_forward rb req st1) as H2.
      destruct (client_request_primary _ _ _ st1) as [[c st2] o2]. cbn in H2 |- *.
      left. apply no_forward_filter. by apply Forall_app.
    + case_bool_decide as Hin.
      * unfold emit. destruct (fwd _); cbn; right;
          (split; [done|]); (split; [done|]); (split; [done|]);
          (rewrite filter_app, (no_forward_filter o1 Hnf); cbn);
          (destruct (decide (true = true)) as [_|C]; [|done]);
          (assert (Hpe : peers st1 = peers st) by (rewrite Hst1; reflexivity));
          (assert (Hne : node_id st1 = node_id st) by (rewrite Hst1; reflexivity));
          rewrite <- Hpe, <- Hne; (split; [done|]); (split; [done|]); congruence.
      * cbn. left. rewrite app_nil_r. by apply no_forward_filter.
  - pose proof (client_request_primary_no_forward rb req st) as H2.
    destruct (client_request_primary _ _ _ st) as [[c st2] o2]. cbn in H2 |- *.
    left. by apply no_forward_filter.
Qed.

End Forwarding.

Lemma primary_id_congr s1 s2 :
  replica_ids s1 = replica_ids s2 → view s1 = view s2 → primary_id s1 = primary_id s2.
Proof.
  intros Hr Hv. pose proof (primary_id_lookup s1) as H1. pose proof (primary_id_lookup s2) as H2.
  unfold n in H1, H2. rewrite Hr, Hv in H1. rewrite H1 in H2. by injection H2.
Qed.

Section HonestPrimary.

Variable sha256_hex : string -> string.

(** X15: A PRE-PREPARE that an honest primary sends for a client request
    is accepted, with the answer ok=true, by every live honest replica
    with the same replica set whose view is not above the primary's, whose
    lock is free, and which holds no entry with another digest for that
    (view, seq). *)
Theorem honest_pre_prepare_accepted rb req stp peer pre b str :
  byzantine stp = false → node_id stp = primary_id stp →
  SendPrePrepare peer pre ∈ (client_request_primary sha256_hex rb req stp).2 →
  alive str = true → lock_held str = false → byzantine str = false →
  replica_ids str = replica_ids stp → view str <= view stp →
  (∀ e, log str !! (pp_view pre, pp_seq pre) = Some e → e_digest e = pp_digest pre) →
  (on_pre_prepare sha256_hex pre b str).1.1 = Some (ack true "").
Proof.
  intros Hb Hprim Hin Ha L Hbr Hr Hv Hslot.
  rewrite client_request_primary_run in Hin. cbv zeta in Hin.
  destruct (lock_held stp); [cbn in Hin; by apply elem_of_nil in Hin|]. rewrite Hb in Hin.
  cbn [snd] in Hin. rewrite app_nil_r in Hin.
  apply list_elem_of_fmap in Hin as (q & Hq & _). injection Hq as -> ->.
  cbn [pp_view pp_seq pp_digest] in Hslot.
  pose proof (on_pre_prepare_spec sha256_hex
                (mkPrePrepare (view stp) (next_seq stp) (digest sha256_hex req) (node_id stp) req)
                b str) as Hs.
  cbv zeta in Hs.
  assert (Hv1 : view (raise_view str (view stp)) = view stp).
  { unfold raise_view. destruct (view str <? view stp) eqn:E; [done|]. apply Z.ltb_ge in E. lia. }
  assert (Hp1 : primary_id (raise_view str (view stp)) = primary_id stp).
  { apply primary_id_congr; [|done].
    unfold raise_view. destruct (view str <? view stp); [|done]. exact Hr. }
  pose proof (raise_view_fields str (view stp)) as (_ & _ & _ & Hby & Hl & _).
  pose proof (raise_view_lock str (view stp)) as L1.
  cbn [pp_view pp_seq pp_primary_id pp_request pp_digest] in Hs.
  remember (raise_view str (view stp)) as st1 eqn:E1.
  destruct (on_pre_prepare _ _ b str) as [[a st'] out]. cbn [fst].
  destruct Hs as [(Hx & _)|[(_ & Hx & _)|[(_ & Hx & _)|[(_ & _ & Hx & _)|
    [(_ & _ & _ & _ & Hx & _)|(_ & _ & _ & _ & _ & Hacc)]]]]];
    [congruence|congruence|congruence|congruence|congruence|].
  destruct b.
  - pose proof (accept_pre_prepare_fields
      (mkPrePrepare (view stp) (next_seq stp) (digest sha256_hex req) (node_id stp) req) st1)
      as (_ & _ & Hby2 & _).
    pose proof (accept_pre_prepare_digest
      (mkPrePrepare (view stp) (next_seq stp) (digest sha256_hex req) (node_id stp) req) st1)
      as Hd2.
    cbn [pp_view pp_seq pp_digest] in Hd2.
    assert (Hret : (multicast_prepare (view stp) (next_seq stp) (digest sha256_hex req)
              (accept_pre_prepare (mkPrePrepare (view stp) (next_seq stp)
                 (digest sha256_hex req) (node_id stp) req) st1).1.2).1.1 = Some tt).
    { apply multicast_prepare_returns.
      - rewrite accept_pre_prepare_run, L1, L. reflexivity.
      - intros e He _. unfold maybe_corrupt_digest. rewrite Hby2, Hby, Hbr.
        apply (Hd2 ltac:(by rewrite L1, L)); [|exact He].
        intros e0 He0. apply Hslot. by rewrite <- Hl. }
    revert Hret.
    destruct (multicast_prepare _ _ _ _) as [[r3 st3] o3].
    injection Hacc as -> _ _. cbn. by intros ->.
  - by destruct Hacc as (-> & _).
Qed.

End HonestPrimary.

Lemma launch_state_node_id self_id peers_arg byz st :
  launch_state self_id peers_arg byz = Some st → node_id st = self_id.
Proof.
  unfold launch_state. destruct (parse_peers _ _); cbn; [|done]. by intros [= <-].
Qed.

Lemma filter_fmap_single {A} (P : A → Prop) `{∀ x, Decision (P x)} (g : Z → A) l k :
  NoDup l → k ∈ l → (∀ i, i ∈ l → P (g i) ↔ i = k) → filter P (g <$> l) = [g k].
Proof.
  induction 1 as [|a l Ha Hl IH]; intros Hk HP; [by apply elem_of_nil in Hk|].
  rewrite fmap_cons, filter_cons.
  assert (Hnone : ∀ l', (∀ i, i ∈ l' → ¬ P (g i)) → filter P (g <$> l') = []).
  { induction l' as [|b l' IH']; intros Hn; [done|].
    rewrite fmap_cons, filter_cons. rewrite decide_False; [|apply Hn; set_solver].
    apply IH'. intros i Hi. apply Hn. set_solver. }
  destruct (decide (a = k)) as [->|Hne].
  - rewrite decide_True by (apply HP; set_solver). f_equal.
    apply Hnone. intros i Hi Hp. apply HP in Hp; [|set_solver]. subst. done.
  - rewrite decide_False.
    + apply IH; [set_solver|]. intros i Hi. apply HP. set_solver.
    + intros Hp. apply HP in Hp; [done|set_solver].
Qed.

(** X16: On a cluster resized to a valid n, when all launched replicas are
    at one view v, exactly one node reports the role Primary: node v mod n
    + 1, on port 5000 + v mod n + 1. *)
Theorem resize_single_primary c n0 v :
  running c = false → (validate_node_count n0).1 = true →
  filter (λ nd, (λ st, role (set_view_field st v)) <$>
                  launch_state (cn_id nd) (peer_str (resize c n0)) (cn_byzantine nd)
                = Some "Primary")
    (nodes (resize c n0)) =
  [mkClusterNode (v mod n0 + 1) (5000 + v mod n0 + 1) None false].
Proof.
  intros Hr Hv. pose proof (validate_ok_pos n0 Hv) as Hpos.
  pose proof (resize_nodes c n0 Hr Hv) as Hns.
  rewrite Hns.
  apply (filter_fmap_single _ (λ i, mkClusterNode (i + 1) (5000 + i + 1) None false)).
  - apply NoDup_seqZ.
  - apply elem_of_seqZ. pose proof (Z.mod_pos_bound v n0 Hpos). lia.
  - intros i Hi.
    assert (Hin : mkClusterNode (i + 1) (5000 + i + 1) None false ∈ nodes (resize c n0)).
    { rewrite Hns. apply list_elem_of_fmap. by exists i. }
    destruct (resize_launch_facts c n0 "" _ Hr Hv Hin)
      as (_ & _ & sid & sport & speers & rest & st & Harg & _ & _ & Hl & _ & _ & _ & _ & Hp).
    cbn in Harg. injection Harg as _ _ <- _.
    cbn [cn_id cn_byzantine] in Hl |- *. rewrite Hl. cbn.
    apply launch_state_node_id in Hl.
    unfold role. cbn. rewrite Hp. rewrite Hl.
    case_bool_decide as E.
    + split; [intros _; lia|done].
    + split; [intros [=]|intros ->; lia].
Qed.

(** * Predicates of the statements about the cluster manager *)

Lemma any_process_none ns :
  Forall (λ nd, cn_process nd = None) ns → any_process ns = false.
Proof. induction 1 as [|nd ns Hn _ IH]; [done|]. cbn. by rewrite Hn. Qed.

Lemma resize_inv c n0 : cluster_inv c → cluster_inv (resize c n0).
Proof.
  unfold cluster_inv, resize. intros Hc.
  destruct (running c) eqn:Hr; [by rewrite Hr|].
  destruct (validate_node_count n0) as [ok0 f0]. destruct ok0; cbn; [|done].
  symmetry. apply any_process_none. apply Forall_forall.
  intros nd Hnd. apply list_elem_of_fmap in Hnd as (i & -> & _). done.
Qed.

Lemma start_node_inv spawn exe c nid :
  cluster_inv c → cluster_inv (start_node spawn exe c nid).1.
Proof.
  unfold cluster_inv, start_node. intros Hc.
  destruct (find_node nid (nodes c)) as [[i nd]|]; [|done].
  destruct (cn_process nd); [done|].
  destruct (spawn _) as [err [p|]]; done.
Qed.

Lemma stop_node_inv c nid : cluster_inv c → cluster_inv (stop_node c nid).
Proof.
  unfold cluster_inv, stop_node. intros Hc.
  destruct (find_node nid (nodes c)) as [[i nd]|]; [|done].
  by destruct (cn_process nd).
Qed.

Lemma stop_all_inv c : cluster_inv (stop_all c).
Proof.
  unfold cluster_inv, stop_all. cbn. symmetry. apply any_process_none.
  apply Forall_forall. intros nd' Hnd. apply list_elem_of_fmap in Hnd as (nd & -> & _).
  by destruct (cn_process nd) eqn:E.
Qed.

Lemma start_each_inv spawn exe ids c :
  cluster_inv c → cluster_inv (start_each spawn exe ids c).1.
Proof.
  revert c. induction ids as [|nid ids IH]; intros c Hc; [done|]. cbn.
  pose proof (start_node_inv spawn exe c nid Hc) as H1.
  destruct (start_node spawn exe c nid) as [c1 raised].
  destruct raised; [done|]. by apply IH.
Qed.

Lemma start_all_inv spawn exe c : cluster_inv c → cluster_inv (start_all spawn exe c).1.
Proof.
  unfold start_all. intros Hc. destruct (running c) eqn:Hr; [done|].
  unfold cluster_inv in Hc.
  destruct (validate_node_count _) as [ok0 f0]. destruct ok0; cbn.
  - apply start_each_inv. unfold cluster_inv. cbn. change (false = any_process (nodes c)). congruence.
  - unfold cluster_inv. cbn. change (false = any_process (nodes c)). congruence.
Qed.

Lemma cluster_step_inv exe c op : cluster_inv c → cluster_inv (cluster_step exe c op).
Proof.
  destruct op; cbn.
  - apply resize_inv.
  - apply start_node_inv.
  - apply stop_node_inv.
  - apply start_all_inv.
  - intros _. apply stop_all_inv.
Qed.

(** X17: In every state the cluster manager reaches from its constructor
    through resize, start_node, stop_node, start_all and stop_all,
    exceptions included, running is True exactly when some node has a
    process. *)
Theorem cluster_running_flag exe ops :
  let c := fold_left (cluster_step exe) ops cluster_init in
  running c = any_process (nodes c).
Proof.
  cbv zeta. change (cluster_inv (fold_left (cluster_step exe) ops cluster_init)).
  assert (H0 : cluster_inv cluster_init) by done.
  revert H0. generalize cluster_init. induction ops as [|op ops IH]; intros c Hc; [done|].
  cbn. apply IH. by apply cluster_step_inv.
Qed.

Lemma starts_from_refl c : starts_from c c.
Proof. split; [done|]. intros j nd nd' H1 H2. rewrite H1 in H2. by injection H2 as ->. Qed.

Lemma starts_from_trans c1 c2 c3 : starts_from c1 c2 → starts_from c2 c3 → starts_from c1 c3.
Proof.
  intros [F1 P1] [F2 P2]. split; [congruence|].
  intros j nd nd' H1 H3 Hp.
  assert (is_Some (nodes c2 !! j)) as [nd2 H2].
  { apply lookup_lt_is_Some_2. rewrite <- (length_fmap node_fixed), <- F2, length_fmap.
    by apply lookup_lt_Some in H3. }
  eauto.
Qed.

Lemma node_fixed_ids c c' :
  node_fixed <$> nodes c' = node_fixed <$> nodes c → cn_id <$> nodes c' = cn_id <$> nodes c.
Proof.
  intros H. assert (E : ∀ l : list ClusterNode, cn_id <$> l = (λ x : Z * Z * bool, x.1.1) <$> (node_fixed <$> l)).
  { intros l. rewrite <- list_fmap_compose. done. }
  by rewrite !E, H.
Qed.

Lemma ids_NoDup_index (ns : list ClusterNode) i j a b :
  NoDup (cn_id <$> ns) → ns !! i = Some a → ns !! j = Some b → cn_id a = cn_id b → i = j.
Proof.
  intros Hnd Ha Hb E. eapply NoDup_lookup; [exact Hnd| |].
  - rewrite list_lookup_fmap, Ha. reflexivity.
  - rewrite list_lookup_fmap, Hb. cbn. congruence.
Qed.

Lemma start_node_ok spawn exe c nid c' :
  NoDup (cn_id <$> nodes c) → start_node spawn exe c nid = (c', false) →
  starts_from c c' ∧
  ∀ j nd', nodes c' !! j = Some nd' → cn_id nd' = nid → cn_process nd' ≠ None.
Proof.
  intros Hnd. unfold start_node, find_node.
  destruct (list_find _ (nodes c)) as [[i nd]|] eqn:Hf.
  - apply list_find_Some in Hf as (Hi & Hid & _).
    destruct (cn_process nd) eqn:Hp.
    + intros [= <-]. split; [apply starts_from_refl|].
      intros j nd' Hj Hid'. rewrite <- Hid' in Hid.
      pose proof (ids_NoDup_index _ _ _ _ _ Hnd Hi Hj Hid) as ->.
      rewrite Hi in Hj. injection Hj as <-. by rewrite Hp.
    + destruct (spawn _) as [err [p|]]; [|done]. intros [= <-]. cbn. split.
      * split.
        -- cbn. apply list_eq. intros j. rewrite !list_lookup_fmap.
           destruct (decide (j = i)) as [->|Hne].
           ++ rewrite list_lookup_insert_eq by (by apply lookup_lt_Some in Hi). rewrite Hi. done.
           ++ rewrite list_lookup_insert_ne by done. done.
        -- intros j nd0 nd' Hj Hj' Hp0. cbn in Hj'.
           destruct (decide (j = i)) as [->|Hne].
           ++ rewrite list_lookup_insert_eq in Hj' by (by apply lookup_lt_Some in Hi).
              injection Hj' as <-. done.
           ++ rewrite list_lookup_insert_ne in Hj' by done. rewrite Hj in Hj'.
              injection Hj' as <-. done.
      * intros j nd' Hj Hid'. cbn in Hj.
        destruct (decide (j = i)) as [->|Hne].
        -- rewrite list_lookup_insert_eq in Hj by (by apply lookup_lt_Some in Hi).
           injection Hj as <-. done.
        -- rewrite list_lookup_insert_ne in Hj by done. exfalso. apply Hne.
           rewrite <- Hid' in Hid. exact (ids_NoDup_index _ _ _ _ _ Hnd Hj Hi (eq_sym Hid)).
  - intros [= <-]. split; [apply starts_from_refl|].
    apply list_find_None in Hf. intros j nd' Hj Hid'.
    exfalso. eapply Forall_lookup_1 in Hf; [|exact Hj]. done.
Qed.

Lemma start_each_ok spawn exe ids c c' :
  NoDup (cn_id <$> nodes c) → start_each spawn exe ids c = (c', false) →
  starts_from c c' ∧
  ∀ nid, nid ∈ ids → ∀ j nd', nodes c' !! j = Some nd' → cn_id nd' = nid → cn_process nd' ≠ None.
Proof.
  revert c. induction ids as [|nid ids IH]; intros c Hnd Hs.
  - injection Hs as <-. split; [apply starts_from_refl|]. intros nid Hin. by apply elem_of_nil in Hin.
  - cbn in Hs. destruct (start_node spawn exe c nid) as [c1 raised] eqn:E1.
    destruct raised; [done|].
    destruct (start_node_ok spawn exe c nid c1 Hnd E1) as [F1 S1].
    assert (Hnd1 : NoDup (cn_id <$> nodes c1)) by (by rewrite (node_fixed_ids c c1 (proj1 F1))).
    destruct (IH c1 Hnd1 Hs) as [F2 S2].
    split; [by eapply starts_from_trans|].
    intros nid' Hin j nd' Hj Hid. apply elem_of_cons in Hin as [->|Hin]; [|by eapply S2].
    destruct F2 as [Ff Fp].
    assert (is_Some (nodes c1 !! j)) as [nd1 H1].
    { apply lookup_lt_is_Some_2. rewrite <- (length_fmap node_fixed), <- Ff, length_fmap.
      by apply lookup_lt_Some in Hj. }
    apply (Fp j nd1 nd' H1 Hj). apply (S1 j nd1 H1).
    assert (Hfx : node_fixed <$> nodes c' !! j = node_fixed <$> nodes c1 !! j).
    { by rewrite <- !list_lookup_fmap, Ff. }
    rewrite Hj, H1 in Hfx. cbn in Hfx. injection Hfx. congruence.
Qed.

(** X18: start_all on a stopped cluster of valid size with distinct node
    ids that raises no exception keeps every node's id, port and byzantine
    flag, gives every node a process, and sets running. *)
Theorem start_all_starts_every_node spawn exe c c' :
  running c = any_process (nodes c) → running c = false →
  NoDup (cn_id <$> nodes c) → (validate_node_count (Z.of_nat (length (nodes c)))).1 = true →
  start_all spawn exe c = (c', false) →
  node_fixed <$> nodes c' = node_fixed <$> nodes c ∧
  Forall (λ nd, cn_process nd ≠ None) (nodes c') ∧ running c' = true.
Proof.
  intros Hinv Hr Hnd Hv Hs. pose proof (validate_ok_pos _ Hv) as Hpos.
  unfold start_all in Hs. rewrite Hr in Hs.
  destruct (validate_node_count _) as [ok0 f0] eqn:E. cbn in Hv. subst ok0. cbn in Hs.
  pose proof (start_each_inv spawn exe (cn_id <$> nodes c) (mkCluster (nodes c) false "")) as Hi.
  rewrite Hs in Hi. cbn in Hi.
  destruct (start_each_ok spawn exe (cn_id <$> nodes c) (mkCluster (nodes c) false "") c' Hnd Hs)
    as [[Ff Fp] S]. cbn in Ff.
  assert (Hall : Forall (λ nd, cn_process nd ≠ None) (nodes c')).
  { apply Forall_lookup. intros j nd' Hj. refine (S (cn_id nd') _ j nd' Hj eq_refl).
    pose proof (node_fixed_ids (mkCluster (nodes c) false "") c' Ff) as Hid. cbn in Hid. rewrite <- Hid.
    apply list_elem_of_fmap. exists nd'. split; [done|]. by eapply list_elem_of_lookup_2. }
  split; [done|]. split; [done|].
  rewrite Hi; [|unfold cluster_inv; change (false = any_process (nodes c)); congruence].
  destruct (nodes c') as [|nd ns] eqn:Hn'.
  - exfalso. apply (f_equal length) in Ff. rewrite !length_fmap in Ff. cbn in Ff.
    rewrite <- Ff in Hpos. cbn in Hpos. lia.
  - cbn. apply Forall_cons in Hall as [Hp _]. by destruct (cn_process nd).
Qed.

Lemma primary_rotation_witness :
  NoDup (node_id primary1 :: peers primary1) ∧
  primary_id (set_view_field primary1 (0 + n primary1)) = primary_id (set_view_field primary1 0).
Proof.
  assert (H : NoDup (node_id primary1 :: peers primary1)) by concrete.
  split; [exact H|]. exact (proj2 (proj2 (primary_rotation primary1 0 H))).
Defined.

Lemma commit_quorums_intersect_witness :
  n primary1 = 3 * f primary1 + 1 ∧
  f primary1 + 1 <= Z.of_nat (size ({[1; 2; 3]} ∩ {[2; 3; 4]} : gset Z)).
Proof.
  assert (Hn : n primary1 = 3 * f primary1 + 1) by concrete.
  split; [exact Hn|].
  apply (commit_quorums_intersect primary1 {[1; 2; 3]} {[2; 3; 4]} Hn).
  - cbn. set_solver.
  - cbn. set_solver.
  - vm_compute. discriminate.
  - vm_compute. discriminate.
Defined.

Lemma parse_peers_peer_str_witness :
  NoDup (cn_id <$> nodes cluster4) ∧
  parse_peers 2 (peer_str cluster4) =
    Some (filter (λ kv, kv.1 ≠ 2)
            ((λ nd, (cn_id nd, "localhost:" +:+ pretty (cn_port nd))) <$> nodes cluster4)).
Proof.
  assert (H : NoDup (cn_id <$> nodes cluster4)) by concrete.
  split; [exact H|]. exact (parse_peers_peer_str cluster4 2 H).
Defined.

Lemma resize_launch_witness :
  mkClusterNode 2 5002 None false ∈ nodes (resize cluster_init 4) ∧
  1 <= cn_id (mkClusterNode 2 5002 None false) <= 4.
Proof.
  assert (Hin : mkClusterNode 2 5002 None false ∈ nodes (resize cluster_init 4)).
  { vm_compute. apply elem_of_cons. right. apply elem_of_cons. left. reflexivity. }
  split; [exact Hin|].
  exact (proj1 (resize_launch cluster_init 4 "python" _ eq_refl eq_refl Hin)).
Defined.

Lemma launch_state_NoDup_witness :
  launch_state 2 "1@a,2@b,1@c" false = Some (init_state 2 [1] false) ∧
  NoDup (node_id (init_state 2 [1] false) :: peers (init_state 2 [1] false)).
Proof.
  assert (H : launch_state 2 "1@a,2@b,1@c" false = Some (init_state 2 [1] false)) by concrete.
  split; [exact H|]. exact (proj2 (launch_state_NoDup _ _ _ _ H)).
Defined.

Lemma honest_pre_prepare_accepted_witness :
  SendPrePrepare 2 pre0 ∈ (client_request_primary toy_hash (λ _ _, 0) req0 primary1).2 ∧
  (on_pre_prepare toy_hash pre0 true backup2).1.1 = Some (ack true "").
Proof.
  assert (Hin : SendPrePrepare 2 pre0 ∈ (client_request_primary toy_hash (λ _ _, 0) req0 primary1).2).
  { vm_compute. apply elem_of_cons. left. reflexivity. }
  split; [exact Hin|].
  apply (honest_pre_prepare_accepted toy_hash (λ _ _, 0) req0 primary1 2 pre0 true backup2);
    [reflexivity|reflexivity|exact Hin|reflexivity|reflexivity|reflexivity|reflexivity|
     vm_compute; discriminate|intros e He; vm_compute in He; discriminate].
Defined.

Lemma resize_single_primary_witness :
  running cluster_init = false ∧ (validate_node_count 4).1 = true ∧
  filter (λ nd, (λ st, role (set_view_field st 5)) <$>
                  launch_state (cn_id nd) (peer_str (resize cluster_init 4)) (cn_byzantine nd)
                = Some "Primary")
    (nodes (resize cluster_init 4)) =
  [mkClusterNode (5 mod 4 + 1) (5000 + 5 mod 4 + 1) None false].
Proof.
  split; [reflexivity|]. split; [reflexivity|].
  exact (resize_single_primary cluster_init 4 5 eq_refl eq_refl).
Defined.

Lemma start_all_starts_every_node_witness :
  start_all spawn_ok "python" cluster4 = ((start_all spawn_ok "python" cluster4).1, false) ∧
  running (start_all spawn_ok "python" cluster4).1 = true.
Proof.
  assert (H : start_all spawn_ok "python" cluster4 = ((start_all spawn_ok "python" cluster4).1, false))
    by concrete.
  split; [exact H|].
  refine (proj2 (proj2 (start_all_starts_every_node spawn_ok "python" cluster4 _ _ _ _ _ H)));
    concrete.
Defined.
